(** * Streaming chat relay: the client reconciler and the server emitter

    A shallow embedding of the stream-handling code of the repository:

    - [src/components/chat/EnhancedClaudeSession.tsx] (module [Enhanced]):
      the React component that reads the server-sent-event stream line by
      line and folds the decoded events into its message log;
    - [src/components/chat/ClaudeSession.tsx] (modules [Basic] and
      [BasicSubmit]): the older, text-only component;
    - [server/index.js] (module [Server]): the [POST /api/chat] handler that
      turns the chunks of the agent backend into wire events;
    - [server/routes/chat.ts] with [streamChatResponse] of the agent
      service (module [Routes]): the router variant of the same handler;
    - the session registry and the project discovery of
      [server/index.js] (modules [Sessions] and [Projects]);
    - [sendMessage] of the agent service (module [AgentService]) and
      [server/services/commandRouter.ts] with the tables of
      [server/config/pa-config.ts] (module [CommandRouter]).

    JavaScript values that reach the code through [JSON.parse] are modelled
    by the type [json]; [undefined] is the [None] of [jsval].  The host is
    a parameter of the client model: the clock behind [Date.now()],
    [JSON.parse] and [String.prototype.trim] are section variables, and
    every statement about the client holds for all of them.

    The models come first; then the vocabulary of the statements ([Spec],
    [Wire], [Registry], [Routing]) and a concrete host with concrete
    frames ([Fixture]); then the lemmas about each model; the statements
    about the specification are in [Claims].  Further properties of the
    code follow: of the framing of the stream ([Framing]), of a turn of
    the enhanced component ([Turn], [Tools], [Submitting], [WholeTurn]),
    of the servers together with that component ([EndToEnd]), of the
    text-only component ([BasicStream]), of the session registry
    ([SessionFacts]), of the services ([ServiceFacts]) and of the project
    discovery ([ProjectFacts]). *)

From Stdlib Require Import ZArith List String Ascii Bool Lia DecimalString
  DecimalZ Permutation.
Import ListNotations.
Open Scope string_scope.
Set Warnings "-register-all".

(* ===================================================================== *)
(** ** JavaScript values and the host operations the code relies on       *)
(* ===================================================================== *)

Module JS.

(** A value produced by [JSON.parse].  Numbers are restricted to integers
    (the code tests and forwards them; the text-only component alone can
    add two, when a [fullText] is a number): a fraction, such as a cost
    in dollars, has no counterpart here.
    An object is the list of its own properties; a property is looked up
    by its first occurrence in the list. *)
Inductive json : Type :=
| JNull
| JBool (b : bool)
| JNum (n : Z)
| JStr (s : string)
| JArr (items : list json)
| JObj (fields : list (string * json)).

(** A JavaScript value as the code sees it: [None] is [undefined]. *)
Definition jsval : Type := option json.

Definition str (s : string) : jsval := Some (JStr s).

(** A string is a value. *)
Coercion str : string >-> jsval.

(** What a [throw] carries.  The code only ever reads [error.message] (and
    tests [instanceof Error]); every exception the modelled code can raise
    is an [Error] instance, so the message is all there is to it. *)
Record js_error : Type := Error { message : string }.

(** The completion of an evaluation: a value, or a raised exception. *)
Inductive completion (A : Type) : Type :=
| Normal (a : A)
| Thrown (e : js_error).
Arguments Normal {A} a.
Arguments Thrown {A} e.

(** ToBoolean. *)
Definition truthy (v : jsval) : bool :=
  match v with
  | None => false
  | Some JNull => false
  | Some (JBool b) => b
  | Some (JNum n) => negb (n =? 0)%Z
  | Some (JStr s) => negb (s =? "")
  | Some (JArr _) => true
  | Some (JObj _) => true
  end.

(** [a || b]. *)
Definition or_else (a b : jsval) : jsval := if truthy a then a else b.

(** [v === 'lit'] for a string literal. *)
Definition is_str (v : jsval) (lit : string) : bool :=
  match v with
  | Some (JStr s) => s =? lit
  | _ => false
  end.

Fixpoint assoc (k : string) (fields : list (string * json)) : jsval :=
  match fields with
  | [] => None
  | (k', v) :: rest => if k' =? k then Some v else assoc k rest
  end.

(** [v.k] on a value that is neither [null] nor [undefined], for the
    property names the code reads: none of them is a built-in property of
    a string, number, boolean or array, so on those the read gives
    [undefined]. *)
Definition field (j : json) (k : string) : jsval :=
  match j with
  | JObj fields => assoc k fields
  | _ => None
  end.

(** [v.k]: raises on [null] and [undefined]. *)
Definition get (v : jsval) (k : string) : completion jsval :=
  match v with
  | None =>
      Thrown (Error ("Cannot read properties of undefined (reading '" ++ k ++ "')"))
  | Some JNull =>
      Thrown (Error ("Cannot read properties of null (reading '" ++ k ++ "')"))
  | Some j => Normal (field j k)
  end.

(** [v?.k]. *)
Definition get_opt (v : jsval) (k : string) : jsval :=
  match v with
  | None => None
  | Some JNull => None
  | Some j => field j k
  end.

(** [v[0]] on a value that is neither [null] nor [undefined]. *)
Definition index0 (v : json) : jsval :=
  match v with
  | JArr items => hd_error items
  | JObj fields => assoc "0" fields
  | JStr (String c _) => Some (JStr (String c ""))
  | _ => None
  end.

(** [Array.isArray(v)], giving the elements. *)
Definition as_array (v : jsval) : option (list json) :=
  match v with
  | Some (JArr items) => Some items
  | _ => None
  end.

Definition string_of_Z (n : Z) : string := NilZero.string_of_int (Z.to_int n).

Fixpoint join (sep : string) (parts : list string) : string :=
  match parts with
  | [] => ""
  | [p] => p
  | p :: rest => p ++ sep ++ join sep rest
  end.

(** ToString on a parsed value, as a template literal or [+=] applies it.
    A number is printed with all its digits, which is what JavaScript
    prints for an integer below 10^21 in magnitude. *)
Fixpoint json_to_string (j : json) : string :=
  match j with
  | JNull => "null"
  | JBool true => "true"
  | JBool false => "false"
  | JNum n => string_of_Z n
  | JStr s => s
  | JArr items =>
      join "," (map (fun x => match x with
                              | JNull => ""
                              | _ => json_to_string x
                              end) items)
  | JObj _ => "[object Object]"
  end.

Definition to_string (v : jsval) : string :=
  match v with
  | None => "undefined"
  | Some j => json_to_string j
  end.

(** [String.prototype.toLowerCase], on the ASCII letters.  The only use is
    a comparison with the ASCII literal ['todowrite'], and no character
    outside ASCII lower-cases to one of its letters. *)
Definition lower_ascii (c : ascii) : ascii :=
  let n := nat_of_ascii c in
  if andb (65 <=? n)%nat (n <=? 90)%nat then ascii_of_nat (n + 32) else c.

Fixpoint toLowerCase (s : string) : string :=
  match s with
  | EmptyString => EmptyString
  | String c rest => String (lower_ascii c) (toLowerCase rest)
  end.

(** [line.startsWith(p)] and [line.slice(n)]. *)
Fixpoint startsWith (p line : string) : bool :=
  match p with
  | EmptyString => true
  | String a p' =>
      match line with
      | String b line' => andb (Ascii.eqb a b) (startsWith p' line')
      | EmptyString => false
      end
  end.

Fixpoint slice (n : nat) (s : string) : string :=
  match n, s with
  | O, _ => s
  | S n', String _ rest => slice n' rest
  | S _, EmptyString => EmptyString
  end.

(** [chunk.split('\n')]. *)
Fixpoint split_lines_aux (cur : string) (s : string) : list string :=
  match s with
  | EmptyString => [cur]
  | String c rest =>
      if Ascii.eqb c "010"%char
      then cur :: split_lines_aux "" rest
      else split_lines_aux (cur ++ String c "") rest
  end.

Definition split_lines (chunk : string) : list string :=
  split_lines_aux "" chunk.

(** An object literal as [JSON.stringify] followed by [JSON.parse] hands it
    over: a property whose value is [undefined] is left out. *)
Fixpoint defined_fields (fields : list (string * jsval)) : list (string * json) :=
  match fields with
  | [] => []
  | (k, None) :: rest => defined_fields rest
  | (k, Some v) :: rest => (k, v) :: defined_fields rest
  end.

Definition object (fields : list (string * jsval)) : json :=
  JObj (defined_fields fields).

(** *** The keys of a [Map]

    A [Map] compares keys with SameValueZero: primitives by value, arrays
    and objects by identity.  A key that is an array or an object comes
    from one [JSON.parse] result and is never the same object as a key of
    another frame, so it matches no stored key. *)
Definition same_key (a b : jsval) : bool :=
  match a, b with
  | None, None => true
  | Some JNull, Some JNull => true
  | Some (JBool x), Some (JBool y) => Bool.eqb x y
  | Some (JNum x), Some (JNum y) => (x =? y)%Z
  | Some (JStr x), Some (JStr y) => x =? y
  | _, _ => false
  end.

Definition Map (V : Type) : Type := list (jsval * V).

Fixpoint Map_get {V : Type} (m : Map V) (k : jsval) : option V :=
  match m with
  | [] => None
  | (k', v) :: rest => if same_key k' k then Some v else Map_get rest k
  end.

Fixpoint Map_set {V : Type} (m : Map V) (k : jsval) (v : V) : Map V :=
  match m with
  | [] => [(k, v)]
  | (k', v') :: rest =>
      if same_key k' k then (k', v) :: rest else (k', v') :: Map_set rest k v
  end.

End JS.

Import JS.

(* ===================================================================== *)
(** ** The enhanced session component (EnhancedClaudeSession.tsx)         *)
(* ===================================================================== *)

Module Enhanced.

(** The [type] of a [ClaudeStreamMessage] (types/claude.ts). *)
Inductive message_type : Type :=
| type_user | type_assistant | type_system | type_result
| type_tool_use | type_tool_result | type_init | type_debug.

Definition message_type_eqb (a b : message_type) : bool :=
  match a, b with
  | type_user, type_user | type_assistant, type_assistant
  | type_system, type_system | type_result, type_result
  | type_tool_use, type_tool_use | type_tool_result, type_tool_result
  | type_init, type_init | type_debug, type_debug => true
  | _, _ => false
  end.

(** [ClaudeStreamMessage] (types/claude.ts).  The optional properties hold
    whatever the parsed event carried, [undefined] when never set. *)
Module Msg.
Record t : Type := mk {
  id : string;
  type : message_type;
  timestamp : Z;
  content : jsval;
  sessionId : jsval;
  model : jsval;
  tools : jsval;
  toolName : jsval;
  toolInput : jsval;
  toolResult : jsval;
  toolId : jsval;
  success : jsval;
  duration : jsval;
  cost : jsval;
  usage : jsval;
  messageId : jsval;
  error : jsval
}.

(** [{ ...msg, content: c }] *)
Definition with_content (c : jsval) (m : t) : t :=
  mk (id m) (type m) (timestamp m) c (sessionId m) (model m) (tools m)
     (toolName m) (toolInput m) (toolResult m) (toolId m)
     (success m) (duration m) (cost m) (usage m) (messageId m) (error m).

(** [{ ...msg, id: i, timestamp: ts }] *)
Definition with_id_timestamp (i : string) (ts : Z) (m : t) : t :=
  mk i (type m) ts (content m) (sessionId m) (model m) (tools m)
     (toolName m) (toolInput m) (toolResult m) (toolId m)
     (success m) (duration m) (cost m) (usage m) (messageId m) (error m).
End Msg.

(** [ToolExecution] (types/claude.ts). *)
Module ToolExecution.
Record t : Type := mk {
  id : jsval;
  name : jsval;
  input : jsval;
  result : jsval;
  isComplete : bool;
  startTime : Z;
  endTime : option Z;
  error : jsval
}.
End ToolExecution.

(** The React state of the component ([useState] cells).  React applies
    the queued updates in the order they were made; the model applies
    each one when it is made. *)
Record component : Type := Component {
  messages : list Msg.t;
  input : string;
  isGenerating : bool;
  toolExecutions : Map ToolExecution.t
}.

(** Where one call of [handleSubmit] stands: awaiting [fetch], inside the
    [while (true)] read loop, or returned. *)
Inductive phase : Type := Fetching | Reading | Returned.

(** The variables local to one call of [handleSubmit]. *)
Record call : Type := Call {
  phase_of : phase;
  currentAssistantMessage : option Msg.t;
  currentToolExecutions : Map ToolExecution.t
}.

(** What a piece of [handleSubmit] runs against: the component state, the
    locals of the call, and the number of [Date.now()] readings so far. *)
Record env : Type := Env {
  ui : component;
  me : call;
  ticks : nat
}.

Definition M (A : Type) : Type := env -> completion A * env.

Definition ret {A : Type} (a : A) : M A := fun e => (Normal a, e).

Definition bind {A B : Type} (m : M A) (k : A -> M B) : M B :=
  fun e =>
    match m e with
    | (Normal a, e') => k a e'
    | (Thrown err, e') => (Thrown err, e')
    end.

Definition throw {A : Type} (err : js_error) : M A := fun e => (Thrown err, e).

Definition lift {A : Type} (c : completion A) : M A := fun e => (c, e).

(** [try { body } catch (e) { handler(e) }]: what [body] did to the state
    before it raised stays done. *)
Definition try_catch {A : Type} (body : M A) (handler : js_error -> M A) : M A :=
  fun e =>
    match body e with
    | (Normal a, e') => (Normal a, e')
    | (Thrown err, e') => handler err e'
    end.

Declare Scope js_scope.
Delimit Scope js_scope with js.
Notation "x <- m ;; k" := (bind m (fun x => k))
  (at level 61, m at next level, right associativity) : js_scope.
Notation "m ;; k" := (bind m (fun _ => k))
  (at level 61, right associativity) : js_scope.
Open Scope js_scope.

(** [array.forEach(f)]: an exception raised by [f] ends the iteration. *)
Fixpoint forEach {A : Type} (f : A -> M unit) (l : list A) : M unit :=
  match l with
  | [] => ret tt
  | x :: rest => f x ;; forEach f rest
  end.

Definition setMessages (f : list Msg.t -> list Msg.t) : M unit :=
  fun e =>
    let u := ui e in
    (Normal tt,
     Env (Component (f (messages u)) (input u) (isGenerating u) (toolExecutions u))
         (me e) (ticks e)).

Definition setInput (s : string) : M unit :=
  fun e =>
    let u := ui e in
    (Normal tt,
     Env (Component (messages u) s (isGenerating u) (toolExecutions u))
         (me e) (ticks e)).

Definition setIsGenerating (b : bool) : M unit :=
  fun e =>
    let u := ui e in
    (Normal tt,
     Env (Component (messages u) (input u) b (toolExecutions u))
         (me e) (ticks e)).

Definition setToolExecutions
    (f : Map ToolExecution.t -> Map ToolExecution.t) : M unit :=
  fun e =>
    let u := ui e in
    (Normal tt,
     Env (Component (messages u) (input u) (isGenerating u) (f (toolExecutions u)))
         (me e) (ticks e)).

Definition read_currentAssistantMessage : M (option Msg.t) :=
  fun e => (Normal (currentAssistantMessage (me e)), e).

Definition assign_currentAssistantMessage (m : Msg.t) : M unit :=
  fun e =>
    let c := me e in
    (Normal tt,
     Env (ui e) (Call (phase_of c) (Some m) (currentToolExecutions c)) (ticks e)).

Definition read_currentToolExecutions : M (Map ToolExecution.t) :=
  fun e => (Normal (currentToolExecutions (me e)), e).

(** [currentToolExecutions.set(k, v)] *)
Definition currentToolExecutions_set (k : jsval) (v : ToolExecution.t) : M unit :=
  fun e =>
    let c := me e in
    (Normal tt,
     Env (ui e)
         (Call (phase_of c) (currentAssistantMessage c)
               (Map_set (currentToolExecutions c) k v))
         (ticks e)).

Section Host.

(** The wall clock: [clock n] is what the [n]-th call of [Date.now()]
    returns.  Nothing is assumed about it. *)
Variable clock : nat -> Z.

(** [JSON.parse]: [None] when it raises a [SyntaxError]. *)
Variable JSON_parse : string -> option json.

(** [String.prototype.trim]. *)
Variable trim : string -> string.

Definition Date_now : M Z :=
  fun e => (Normal (clock (ticks e)), Env (ui e) (me e) (S (ticks e))).

(** [addMessage] (lines 40-46). *)
Definition addMessage (message : Msg.t) : M unit :=
  i <- (if Msg.id message =? ""
        then (t <- Date_now ;; ret (string_of_Z t))
        else ret (Msg.id message)) ;;
  ts <- (if (Msg.timestamp message =? 0)%Z
         then Date_now
         else ret (Msg.timestamp message)) ;;
  setMessages (fun prev => (prev ++ [Msg.with_id_timestamp i ts message])%list).

(** [case 'init'] (lines 124-133).  [parsed] is not [null] here. *)
Definition case_init (parsed : json) : M unit :=
  t1 <- Date_now ;;
  t2 <- Date_now ;;
  addMessage
    (Msg.mk ("init-" ++ string_of_Z t1) type_init t2 None
            (field parsed "sessionId") (field parsed "model") (field parsed "tools")
            None None None None None None None None None None).

(** The updater of lines 149-155: the message whose id is that of
    [currentAssistantMessage] gets the new content. *)
Definition update_content (cur : option Msg.t) (updatedContent : jsval)
    (prev : list Msg.t) : list Msg.t :=
  map (fun msg =>
         match cur with
         | Some c =>
             if Msg.id msg =? Msg.id c
             then Msg.with_content updatedContent msg
             else msg
         | None => msg
         end) prev.

(** [case 'text'] (lines 135-156). *)
Definition case_text (parsed : json) : M unit :=
  cur <- read_currentAssistantMessage ;;
  match cur with
  | None =>
      t1 <- Date_now ;;
      t2 <- Date_now ;;
      let m :=
        Msg.mk ("assistant-" ++ string_of_Z t1) type_assistant t2 (str "")
               None None None None None None None None None None None
               (field parsed "messageId") None in
      assign_currentAssistantMessage m ;;
      addMessage m
  | Some _ => ret tt
  end ;;
  let updatedContent := or_else (field parsed "fullText") (field parsed "text") in
  cur' <- read_currentAssistantMessage ;;
  setMessages (update_content cur' updatedContent).

(** [case 'result'] (lines 158-169). *)
Definition case_result (parsed : json) : M unit :=
  t1 <- Date_now ;;
  t2 <- Date_now ;;
  addMessage
    (Msg.mk ("result-" ++ string_of_Z t1) type_result t2
            (str "Execution completed") None None None None None None None
            (field parsed "success") (field parsed "duration")
            (field parsed "cost") (field parsed "usage") None None).

(** The body of the first [forEach] (lines 178-202): one item of an
    assistant message's content. *)
Definition on_assistant_item (item : json) : M unit :=
  ty <- lift (get (Some item) "type") ;;
  if is_str ty "tool_use" then
    let toolId := field item "id" in
    t1 <- Date_now ;;
    let toolExecution :=
      ToolExecution.mk toolId (field item "name") (field item "input")
                       None false t1 None None in
    currentToolExecutions_set toolId toolExecution ;;
    setToolExecutions (fun prev => Map_set prev toolId toolExecution) ;;
    t2 <- Date_now ;;
    addMessage
      (Msg.mk ("tool-use-" ++ to_string toolId) type_tool_use t2 None
              None None None
              (field item "name") (field item "input") None toolId
              None None None None None None)
  else ret tt.

(** [toolExecution.name.toLowerCase()]: raises unless the name is a
    string. *)
Definition name_toLowerCase (name : jsval) : completion string :=
  match name with
  | None =>
      Thrown (Error "Cannot read properties of undefined (reading 'toLowerCase')")
  | Some JNull =>
      Thrown (Error "Cannot read properties of null (reading 'toLowerCase')")
  | Some (JStr s) => Normal (toLowerCase s)
  | Some _ => Thrown (Error "toolExecution.name.toLowerCase is not a function")
  end.

(** The body of the second [forEach] (lines 211-260): one item of a user
    message's content. *)
Definition on_user_item (item : json) : M unit :=
  ty <- lift (get (Some item) "type") ;;
  if andb (is_str ty "tool_result") (truthy (field item "tool_use_id")) then
    let toolId := field item "tool_use_id" in
    table <- read_currentToolExecutions ;;
    match Map_get table toolId with
    | Some toolExecution =>
        t1 <- Date_now ;;
        let err := if truthy (field item "is_error")
                   then field item "content" else None in
        let updatedExecution :=
          ToolExecution.mk (ToolExecution.id toolExecution)
                           (ToolExecution.name toolExecution)
                           (ToolExecution.input toolExecution)
                           (field item "content") true
                           (ToolExecution.startTime toolExecution)
                           (Some t1) err in
        currentToolExecutions_set toolId updatedExecution ;;
        setToolExecutions (fun prev => Map_set prev toolId updatedExecution) ;;
        t2 <- Date_now ;;
        addMessage
          (Msg.mk ("tool-result-" ++ to_string toolId) type_tool_result t2 None
                  None None None
                  (ToolExecution.name toolExecution)
                  (ToolExecution.input toolExecution)
                  (field item "content") toolId
                  None None None None None err) ;;
        lowered <- lift (name_toLowerCase (ToolExecution.name toolExecution)) ;;
        if lowered =? "todowrite" then
          try_catch
            (let todos := get_opt (ToolExecution.input toolExecution) "todos" in
             if truthy todos then
               t3 <- Date_now ;;
               t4 <- Date_now ;;
               addMessage
                 (Msg.mk ("todo-" ++ string_of_Z t3) type_tool_result t4 None
                         None None None
                         (str "TodoWrite") (Some (object [("todos", todos)]))
                         (str "Todo list updated successfully") None
                         None None None None None None)
             else ret tt)
            (fun _ => ret tt)
        else ret tt
    | None => ret tt
    end
  else ret tt.

(** [case 'debug'] (lines 171-263). *)
Definition case_debug (parsed : json) : M unit :=
  let data := field parsed "data" in
  (if andb (is_str (get_opt data "type") "assistant")
           (truthy (get_opt (get_opt data "message") "content"))
   then match as_array (get_opt (get_opt data "message") "content") with
        | Some content => forEach on_assistant_item content
        | None => ret tt
        end
   else ret tt) ;;
  (if andb (is_str (get_opt data "type") "user")
           (truthy (get_opt (get_opt data "message") "content"))
   then match as_array (get_opt (get_opt data "message") "content") with
        | Some content => forEach on_user_item content
        | None => ret tt
        end
   else ret tt).

(** [case 'error'] (lines 265-275). *)
Definition case_error (parsed : json) : M unit :=
  t1 <- Date_now ;;
  let err := field parsed "error" in
  t2 <- Date_now ;;
  addMessage
    (Msg.mk ("error-" ++ string_of_Z t1) type_result t2
            (str ("Error: " ++ to_string err)) None None None None None None None
            (Some (JBool false)) None None None None err) ;;
  setIsGenerating false.

(** [switch (parsed.type)] (lines 123-276): there is no [default]. *)
Definition handle_parsed (parsed : json) : M unit :=
  ty <- lift (get (Some parsed) "type") ;;
  if is_str ty "init" then case_init parsed
  else if is_str ty "text" then case_text parsed
  else if is_str ty "result" then case_result parsed
  else if is_str ty "debug" then case_debug parsed
  else if is_str ty "error" then case_error parsed
  else ret tt.

(** The [try] of lines 119-280 on the payload of a [data: ] line. *)
Definition on_data (data : string) : M unit :=
  try_catch
    (match JSON_parse data with
     | Some parsed => handle_parsed parsed
     | None => throw (Error "Unexpected end of JSON input")
     end)
    (fun _ => ret tt).

(** The body of [for (const line of lines)] (lines 110-282). *)
Definition on_line (line : string) : M unit :=
  if startsWith "data: " line then
    let data := slice 6 line in
    if data =? "[DONE]" then setIsGenerating false
    else on_data data
  else ret tt.

(** The body of the read loop once [reader.read()] gave a chunk
    (lines 107-282). *)
Definition on_chunk (chunk : string) : M unit :=
  forEach on_line (split_lines chunk).

(** The [catch] of lines 284-295. *)
Definition on_failure (err : js_error) : M unit :=
  t1 <- Date_now ;;
  t2 <- Date_now ;;
  addMessage
    (Msg.mk ("error-" ++ string_of_Z t1) type_result t2
            (str ("Error: " ++ message err)) None None None None None None None
            (Some (JBool false)) None None None None (str (message err))) ;;
  setIsGenerating false.

(** [stop] (lines 298-300). *)
Definition stop : M unit := setIsGenerating false.

Definition read_input : M string := fun e => (Normal (input (ui e)), e).

Definition read_isGenerating : M bool :=
  fun e => (Normal (isGenerating (ui e)), e).

Definition read_phase : M phase := fun e => (Normal (phase_of (me e)), e).

Definition enter (p : phase) : M unit :=
  fun e =>
    let c := me e in
    (Normal tt,
     Env (ui e) (Call p (currentAssistantMessage c) (currentToolExecutions c))
         (ticks e)).

(** The start of [handleSubmit] (lines 59-74), up to the [await fetch].
    [currentProject] comes from the project store. *)
Definition handleSubmit_begin (currentProject : option string) : M unit :=
  inp <- read_input ;;
  gen <- read_isGenerating ;;
  if orb (orb (trim inp =? "") gen)
         (match currentProject with None => true | Some _ => false end)
  then enter Returned
  else
    t1 <- Date_now ;;
    t2 <- Date_now ;;
    addMessage
      (Msg.mk (string_of_Z t1) type_user t2 (str (trim inp))
              None None None None None None None None None None None None None) ;;
    setInput "" ;;
    setIsGenerating true.

(** How [await fetch(...)] settles. *)
Inductive fetch_outcome : Type :=
| fetch_rejected (err : js_error)
| fetch_response (ok : bool) (status : Z) (has_reader : bool).

(** Lines 78-101: from the settled [fetch] to the first [reader.read()];
    a failure lands in the [catch] of line 284 and the call returns. *)
Definition on_fetch (o : fetch_outcome) : M unit :=
  match o with
  | fetch_rejected err => on_failure err ;; enter Returned
  | fetch_response ok status has_reader =>
      if negb ok then
        on_failure (Error ("HTTP error! status: " ++ string_of_Z status)) ;;
        enter Returned
      else if negb has_reader then
        on_failure (Error "No response body reader available") ;;
        enter Returned
      else
        (fun e => (Normal tt, Env (ui e) (Call Reading None []) (ticks e)))
  end.

(** One turn of the read loop that got a chunk, inside the outer [try]. *)
Definition on_read (chunk : string) : M unit :=
  try_catch (on_chunk chunk) (fun err => on_failure err ;; enter Returned).

(** *** The component over time

    Several calls of [handleSubmit] can be alive at once: each keeps its
    own locals and all of them share the component state. *)
Record world : Type := World {
  page : component;
  calls : list call;
  readings : nat
}.

Definition initial : world := World (Component [] "" false []) [] 0.

Fixpoint set_nth {A : Type} (i : nat) (x : A) (l : list A) : list A :=
  match i, l with
  | _, [] => []
  | O, _ :: rest => x :: rest
  | S i', y :: rest => y :: set_nth i' x rest
  end.

(** Run a piece of call number [i] against the world. *)
Definition run_call (i : nat) (m : M unit) (w : world) : world :=
  match nth_error (calls w) i with
  | Some c =>
      let e := snd (m (Env (page w) c (readings w))) in
      World (ui e) (set_nth i (me e) (calls w)) (ticks e)
  | None => w
  end.

(** Run an event handler of the component itself (no call of
    [handleSubmit] is involved). *)
Definition run_ui (m : M unit) (w : world) : world :=
  let e := snd (m (Env (page w) (Call Returned None []) (readings w))) in
  World (ui e) (calls w) (ticks e).

Definition when_in (p : phase) (m : M unit) : M unit :=
  q <- read_phase ;;
  match p, q with
  | Fetching, Fetching | Reading, Reading | Returned, Returned => m
  | _, _ => ret tt
  end.

(** What can happen to the component. *)
Inductive action : Type :=
| TypeInput (s : string)
| Submit (currentProject : option string)
| FetchSettled (i : nat) (o : fetch_outcome)
| ReadChunk (i : nat) (chunk : string)
| ReadDone (i : nat)
| ReadFailed (i : nat) (err : js_error)
| ClickStop.

Definition step (w : world) (a : action) : world :=
  match a with
  | TypeInput s => run_ui (setInput s) w
  | Submit currentProject =>
      run_call (List.length (calls w)) (handleSubmit_begin currentProject)
               (World (page w) (calls w ++ [Call Fetching None []])%list (readings w))
  | FetchSettled i o => run_call i (when_in Fetching (on_fetch o)) w
  | ReadChunk i chunk => run_call i (when_in Reading (on_read chunk)) w
  | ReadDone i => run_call i (when_in Reading (enter Returned)) w
  | ReadFailed i err =>
      run_call i (when_in Reading (on_failure err ;; enter Returned)) w
  | ClickStop => run_ui stop w
  end.

Definition run (w : world) (actions : list action) : world :=
  fold_left step actions w.

Inductive reachable : world -> Prop :=
| reachable_initial : reachable initial
| reachable_step (w : world) (a : action) :
    reachable w -> reachable (step w a).

End Host.
End Enhanced.

(* ===================================================================== *)
(** ** The text-only session component (ClaudeSession.tsx)                *)
(* ===================================================================== *)

Module Basic.

Inductive role : Type := role_user | role_assistant.

(** What [accumulatedText] can hold: a parsed value, or the [NaN] that [+]
    gives on operands that are not numbers. *)
Inductive value : Type :=
| Val (v : jsval)
| NaN.

(** ToPrimitive gives a string: the value is a string, an array or an
    object. *)
Definition stringish (v : jsval) : bool :=
  match v with
  | Some (JStr _) | Some (JArr _) | Some (JObj _) => true
  | _ => false
  end.

(** ToNumber on the remaining values; [None] is [NaN]. *)
Definition to_number (v : jsval) : option Z :=
  match v with
  | None => None
  | Some JNull => Some 0%Z
  | Some (JBool true) => Some 1%Z
  | Some (JBool false) => Some 0%Z
  | Some (JNum n) => Some n
  | Some _ => None
  end.

(** [a + b]: concatenation as soon as one side is a string, addition
    otherwise.  The sum is the exact one, which is what JavaScript
    computes on integers as long as the result stays below 2^53 in
    magnitude. *)
Definition plus (a : value) (b : jsval) : value :=
  match a with
  | Val va =>
      if orb (stringish va) (stringish b)
      then Val (str (to_string va ++ to_string b))
      else match to_number va, to_number b with
           | Some x, Some y => Val (Some (JNum (x + y)))
           | _, _ => NaN
           end
  | NaN =>
      if stringish b then Val (str ("NaN" ++ to_string b)) else NaN
  end.

Record Message : Type := mkMessage {
  id : string;
  role_of : role;
  content : value
}.

(** The component state together with the locals of the one call of
    [handleSubmit] that is reading. *)
Record state : Type := State {
  messages : list Message;
  input : string;
  isGenerating : bool;
  assistantMessageId : string;
  accumulatedText : value
}.

(** The updater of lines 90-96 and 98-104. *)
Definition set_content (target : string) (c : value) (prev : list Message)
    : list Message :=
  map (fun msg =>
         if id msg =? target then mkMessage (id msg) (role_of msg) c else msg)
      prev.

Section Host.
Variable JSON_parse : string -> option json.

(** Lines 85-107: the [try] on the payload of a [data: ] line. *)
Definition on_data (data : string) (s : state) : state :=
  match JSON_parse data with
  | None => s
  | Some JNull => s
  | Some parsed =>
      if is_str (field parsed "type") "text" then
        let acc :=
          if truthy (field parsed "fullText")
          then Val (field parsed "fullText")
          else plus (accumulatedText s) (field parsed "text") in
        State (set_content (assistantMessageId s) acc (messages s))
              (input s) (isGenerating s) (assistantMessageId s) acc
      else if is_str (field parsed "type") "error" then
        State (set_content (assistantMessageId s)
                 (Val (str ("Error: " ++ to_string (field parsed "error"))))
                 (messages s))
              (input s) false (assistantMessageId s) (accumulatedText s)
      else s
  end.

(** Lines 76-109: the body of [for (const line of lines)]. *)
Definition on_line (s : state) (line : string) : state :=
  if startsWith "data: " line then
    let data := slice 6 line in
    if data =? "[DONE]"
    then State (messages s) (input s) false (assistantMessageId s)
               (accumulatedText s)
    else on_data data s
  else s.

Definition on_lines (s : state) (lines : list string) : state :=
  fold_left on_line lines s.

(** [stop] (lines 126-128). *)
Definition stop (s : state) : state :=
  State (messages s) (input s) false (assistantMessageId s) (accumulatedText s).

End Host.
End Basic.

(* ===================================================================== *)
(** ** Submitting in the text-only component (ClaudeSession.tsx)          *)
(* ===================================================================== *)

Module BasicSubmit.
Import Basic.

Section Host.
Variable trim : string -> string.

(** The start of [handleSubmit] (lines 19-41), up to the [await fetch]:
    [None] when the guard of line 22 returns.  [now1] and [now2] are what
    [Date.now()] returns at lines 25 and 34; [accumulatedText] gets its
    initial value of line 68. *)
Definition handleSubmit_begin (currentProject : option string)
    (now1 now2 : Z) (s : state) : option state :=
  if orb (orb (trim (input s) =? "") (isGenerating s))
         (match currentProject with None => true | Some _ => false end)
  then None
  else
    let userMessage :=
      mkMessage (string_of_Z now1) role_user (Val (str (trim (input s)))) in
    let assistantMessageId := string_of_Z (now2 + 1) in
    let assistantMessage :=
      mkMessage assistantMessageId role_assistant (Val (str "")) in
    Some (State ((messages s ++ [userMessage]) ++ [assistantMessage])
                "" true assistantMessageId (Val (str ""))).

End Host.
End BasicSubmit.

(* ===================================================================== *)
(** ** The server: POST /api/chat (server/index.js)                       *)
(* ===================================================================== *)

Module Server.

(** One [res.write]: [Data p] is the record [data: <JSON.stringify(p)>],
    [Done] the record [data: [DONE]]; each is followed by a blank line. *)
Inductive record : Type :=
| Data (payload : json)
| Done.

(** What the handler did to [res]. *)
Record response : Type := Response {
  statusCode : Z;
  body : option json;
  written : list record;
  ended : bool
}.

(** [statusCode] is what [res.status] set, [body] what [res.json] sent,
    [written] the records of the stream in order, [ended] whether the
    response is finished. *)

(** A response nothing was done to yet: the status is 200 until
    [res.status] is called. *)
Definition fresh : response := Response 200 None [] false.

Definition write (r : record) (res : response) : response :=
  Response (statusCode res) (body res) (written res ++ [r])%list (ended res).

Definition end_ (res : response) : response :=
  Response (statusCode res) (body res) (written res) true.

(** What the agent backend does during one turn: the chunks its iterator
    yields, and whether it then fails, with the [Error] it raises (a
    failure of [query] itself is a failure before the first chunk).  The
    chunks are plain data, as [JSON.stringify] renders them. *)
Record backend : Type := Backend {
  chunks : list json;
  failure : option js_error
}.

(** The state of the [try] block while it iterates. *)
Record progress : Type := Progress {
  res : response;
  fullResponse : string
}.

(** Lines 269-326: the body of [for await (const chunk of result)]. *)
Definition on_chunk (sessionId : jsval) (chunk : json) (p : progress)
    : completion progress :=
  match get (Some chunk) "type" with
  | Thrown e => Thrown e
  | Normal ty =>
      if andb (is_str ty "system") (is_str (field chunk "subtype") "init") then
        Normal (Progress
          (write (Data (object
             [("type", str "init");
              ("sessionId", sessionId);
              ("model", or_else (field chunk "model")
                                (str "claude-sonnet-4-5-20250929"));
              ("tools", or_else (field chunk "tools") (Some (JArr [])))]))
             (res p))
          (fullResponse p))
      else if is_str ty "assistant" then
        let message := field chunk "message" in
        match get message "content" with
        | Thrown e => Thrown e
        | Normal content =>
            let first := match content with
                         | Some c => index0 c
                         | None => None
                         end in
            if andb (truthy content)
                 (andb (truthy first) (is_str (get_opt first "type") "text"))
            then
              let text := get_opt first "text" in
              let full := fullResponse p ++ to_string text in
              Normal (Progress
                (write (Data (object
                   [("type", str "text");
                    ("text", text);
                    ("fullText", str full);
                    ("messageId", get_opt message "id")]))
                   (res p))
                full)
            else Normal p
        end
      else if is_str ty "result" then
        Normal (Progress
          (write (Data (object
             [("type", str "result");
              ("success", Some (JBool (negb (truthy (field chunk "is_error")))));
              ("duration", field chunk "duration_ms");
              ("usage", field chunk "usage");
              ("cost", field chunk "total_cost_usd")]))
             (res p))
          (fullResponse p))
      else if is_str ty "text" then
        let full := fullResponse p ++ to_string (field chunk "text") in
        Normal (Progress
          (write (Data (object
             [("type", str "text");
              ("text", field chunk "text");
              ("fullText", str full)]))
             (res p))
          full)
      else if is_str ty "tool_use" then
        Normal (Progress
          (write (Data (object
             [("type", str "tool_use");
              ("tool", field chunk "name");
              ("input", field chunk "input")]))
             (res p))
          (fullResponse p))
      else if is_str ty "tool_result" then
        Normal (Progress
          (write (Data (object
             [("type", str "tool_result");
              ("tool", field chunk "name");
              ("result", field chunk "result")]))
             (res p))
          (fullResponse p))
      else
        Normal (Progress
          (write (Data (object [("type", str "debug"); ("data", Some chunk)]))
                 (res p))
          (fullResponse p))
  end.

(** The [for await] loop (lines 264-327): an exception leaves the loop
    with what was written so far. *)
Fixpoint iterate (sessionId : jsval) (cs : list json) (fail : option js_error)
    (p : progress) : progress * option js_error :=
  match cs with
  | [] => (p, fail)
  | chunk :: rest =>
      match on_chunk sessionId chunk p with
      | Normal p' => iterate sessionId rest fail p'
      | Thrown e => (p, Some e)
      end
  end.

(** [message.substring(0, 50)] of line 239 raises unless the (truthy)
    message is a string. *)
Definition message_substring (message : jsval) : option js_error :=
  match message with
  | Some (JStr _) => None
  | _ => Some (Error "message.substring is not a function")
  end.

(** The [error] event of the [catch] (line 336). *)
Definition error_event (e : js_error) : json :=
  object [("type", str "error"); ("error", str (message e))].

(** The [try] block (lines 232-333) up to the point where it either
    reaches its end or raises: what was written, and the exception if
    any. *)
Definition attempt (message sessionId : jsval) (b : backend)
    : progress * option js_error :=
  match message_substring message with
  | Some e => (Progress fresh "", Some e)
  | None => iterate sessionId (chunks b) (failure b) (Progress fresh "")
  end.

(** The validation of the handler (lines 206-210) and its [try] and
    [catch] (lines 232-339), for the [message] of the request and the
    [sessionId] that lines 219-224 settled on.  [res.json] sends the body
    and finishes the response.  The lines in between, which can raise
    before the [try] is entered, are in [ApiChat.post] below. *)
Definition api_chat (message sessionId : jsval) (b : backend)
    : response :=
  if negb (truthy message) then
    Response 400 (Some (object [("error", str "Missing message")])) [] true
  else
    match attempt message sessionId b with
    | (p, None) => end_ (write Done (res p))
    | (p, Some e) => end_ (write Done (write (Data (error_event e)) (res p)))
    end.

End Server.

(* ===================================================================== *)
(** ** The session registry of the server (server/index.js)               *)
(* ===================================================================== *)

Module Sessions.

(** A session object (lines 90-98).  A [Date] is the instant it holds. *)
Record session : Type := Session {
  id : string;
  projectId : string;
  createdAt : Z;
  lastActivity : Z;
  messageCount : nat;
  model : string;
  toolsUsed : list json
}.

(** A value of [projectSessions] (line 102). *)
Record projectData : Type := ProjectData {
  sessions : list session;
  currentSessionId : option string
}.

(** A message as [addMessageToSession] is given it, and as it is kept:
    [{ ...message, timestamp: Date.now() }]. *)
Record entry : Type := Entry {
  type : string;
  content : jsval
}.

Record stored : Type := Stored {
  message : entry;
  timestamp : Z
}.

(** A value of [conversationHistory] (lines 110-113). *)
Record history : Type := History {
  messages : list stored;
  metadata_projectId : string;
  metadata_createdAt : Z
}.

(** The two maps of lines 15-16, with the number of clock readings and of
    [Math.random()] calls made so far. *)
Record store : Type := Store {
  projectSessions : Map projectData;
  conversationHistory : Map history;
  ticks : nat;
  draws : nat
}.

Definition empty : store := Store [] [] 0 0.

(** [map.has(k)] *)
Definition Map_has {V : Type} (m : Map V) (k : jsval) : bool :=
  match Map_get m k with
  | Some _ => true
  | None => false
  end.

(** A change made to the object the map holds under [k]. *)
Definition Map_update {V : Type} (m : Map V) (k : jsval) (f : V -> V) : Map V :=
  match Map_get m k with
  | Some v => Map_set m k (f v)
  | None => m
  end.

(** [sessions.find(s => s.id === sessionId)] followed by assignments to
    the session found: the first session with that id is replaced by [f]
    of it; [None] when there is none. *)
Fixpoint touch (sessionId : jsval) (f : session -> session)
    (ss : list session) : option (list session) :=
  match ss with
  | [] => None
  | s :: rest =>
      if is_str sessionId (id s) then Some (f s :: rest)
      else match touch sessionId f rest with
           | Some rest' => Some (s :: rest')
           | None => None
           end
  end.

(** The same over [Array.from(projectSessions.values()).flatMap(p =>
    p.sessions)]: the projects in the order of the map, the sessions of
    each in the order of its array. *)
Fixpoint touch_first (sessionId : jsval) (f : session -> session)
    (ps : Map projectData) : Map projectData :=
  match ps with
  | [] => []
  | (k, pd) :: rest =>
      match touch sessionId f (sessions pd) with
      | Some ss => (k, ProjectData ss (currentSessionId pd)) :: rest
      | None => (k, pd) :: touch_first sessionId f rest
      end
  end.

(** All the sessions, in that order. *)
Definition all_sessions (st : store) : list session :=
  flat_map (fun p => sessions (snd p)) (projectSessions st).

Section Host.

(** The clock behind [Date.now()] and [new Date()]. *)
Variable clock : nat -> Z.

(** [Math.random().toString(36).substr(2, 9)] at the n-th call of
    [Math.random]. *)
Variable random : nat -> string.

(** The id [createSession] gives next (line 89). *)
Definition next_id (st : store) : string :=
  "session-" ++ string_of_Z (clock (ticks st)) ++ "-" ++ random (draws st).

(** [createSession] (lines 88-116). *)
Definition createSession (projectId : string) (st : store) : session * store :=
  let sessionId := next_id st in
  let session :=
    Session sessionId projectId (clock (1 + ticks st)) (clock (2 + ticks st))
            0 "claude-sonnet-4-5-20250929" [] in
  let ps :=
    if Map_has (projectSessions st) (str projectId)
    then projectSessions st
    else Map_set (projectSessions st) (str projectId) (ProjectData [] None) in
  let ps' :=
    Map_update ps (str projectId)
      (fun projectData =>
         ProjectData (sessions projectData ++ [session]) (Some sessionId)) in
  (session,
   Store ps'
         (Map_set (conversationHistory st) (str sessionId)
                  (History [] projectId (createdAt session)))
         (3 + ticks st) (1 + draws st)).

(** [getProjectSessions] (lines 118-121). *)
Definition getProjectSessions (projectId : string) (st : store) : list session :=
  match Map_get (projectSessions st) (str projectId) with
  | Some projectData => sessions projectData
  | None => []
  end.

(** [addMessageToSession] (lines 123-139). *)
Definition addMessageToSession (sessionId : jsval) (message : entry)
    (st : store) : store :=
  match Map_get (conversationHistory st) sessionId with
  | Some h =>
      let h' :=
        History (messages h ++ [Stored message (clock (ticks st))])
                (metadata_projectId h) (metadata_createdAt h) in
      let found :=
        existsb (fun s => is_str sessionId (id s)) (all_sessions st) in
      Store
        (touch_first sessionId
           (fun s =>
              Session (id s) (projectId s) (createdAt s)
                      (clock (1 + ticks st)) (List.length (messages h'))
                      (model s) (toolsUsed s))
           (projectSessions st))
        (Map_set (conversationHistory st) sessionId h')
        (if found then 2 + ticks st else 1 + ticks st)
        (draws st)
  | None => st
  end.

(** [GET /api/projects/:projectId/sessions] (lines 166-176): the
    sessions, the current session id and the count sent. *)
Definition list_sessions (projectId : string) (st : store)
    : list session * option string * nat :=
  let sessions := getProjectSessions projectId st in
  (sessions,
   match Map_get (projectSessions st) (str projectId) with
   | Some projectData =>
       match currentSessionId projectData with
       | Some s => if s =? "" then None else Some s
       | None => None
       end
   | None => None
   end,
   List.length sessions).

(** [GET /api/sessions/:sessionId/history] (lines 188-200): [None] is the
    404 answer. *)
Definition get_history (sessionId : string) (st : store) : option history :=
  Map_get (conversationHistory st) (str sessionId).

(** [POST /api/chat], lines 219-230: the session the request settles on
    and the user message filed under it.  [projectId] is what lines
    215-217 derived from the path; the message passed the check of line
    206. *)
Definition chat_session (projectId : string)
    (providedSessionId message : jsval) (st : store) : jsval * store :=
  let settled :=
    if orb (negb (truthy providedSessionId))
           (negb (Map_has (conversationHistory st) providedSessionId))
    then let created := createSession projectId st in
         (str (id (fst created)), snd created)
    else (providedSessionId, st) in
  (fst settled,
   addMessageToSession (fst settled) (Entry "user" message) (snd settled)).

(** The requests that change the registry. *)
Inductive request : Type :=
| PostSession (projectId : string)
| PostChat (projectId : string) (providedSessionId message : jsval).

Definition handle (st : store) (r : request) : store :=
  match r with
  | PostSession projectId => snd (createSession projectId st)
  | PostChat projectId providedSessionId message =>
      if negb (truthy message) then st
      else snd (chat_session projectId providedSessionId message st)
  end.

Definition serve (st : store) (rs : list request) : store :=
  fold_left handle rs st.

End Host.
End Sessions.

(* ===================================================================== *)
(** ** Project discovery of the server (server/index.js)                  *)
(* ===================================================================== *)

Module Projects.

(** An element of [projects] (lines 52-58). *)
Record project : Type := Project {
  id : string;
  name : string;
  path : string;
  hasClaudeConfig : bool;
  lastModified : Z
}.

(** What the file system shows of a directory entry: for a directory,
    what [fs.existsSync] answers for [CLAUDE.md] and [.claude] inside it,
    the modification time [fs.statSync] gives ([None] when it raises), and
    the entries [fs.readdirSync] lists ([None] when it raises).  Every
    entry for which [isDirectory()] is false is a [File]. *)
Inductive entry : Type :=
| File (name : string)
| Directory (name : string) (claudeMd claudeDir : bool) (mtime : option Z)
            (listing : option (list entry)).

Section Host.

(** [name.toLowerCase().replace(/[^a-z0-9]/g, '-')] and [path.join]. *)
Variable slug : string -> string.
Variable join : string -> string -> string.

(** The test of line 44 on the name of a directory. *)
Definition admissible (name : string) : bool :=
  andb (negb (startsWith "." name)) (negb (startsWith "node_modules" name)).

Section Loop.

(** [scanDirectory] one level further down. *)
Variable deeper : string -> option (list entry) -> list project -> list project.

(** The [for] loop of lines 43-64 inside its [try]: an exception of
    [fs.statSync] leaves the loop with the projects pushed so far. *)
Fixpoint scan_entries (dirPath : string) (entries : list entry)
    (projects : list project) : list project :=
  match entries with
  | [] => projects
  | File _ :: rest => scan_entries dirPath rest projects
  | Directory name claudeMd claudeDir mtime listing :: rest =>
      if admissible name then
        let entryPath := join dirPath name in
        if orb claudeMd claudeDir then
          match mtime with
          | Some t =>
              scan_entries dirPath rest
                (deeper entryPath listing
                   (projects ++ [Project (slug name) name entryPath true t]))
          | None => projects
          end
        else scan_entries dirPath rest (deeper entryPath listing projects)
      else scan_entries dirPath rest projects
  end.

End Loop.

(** [scanDirectory] (lines 37-68), with [levels] for [maxDepth -
    currentDepth]; [projects] is the array so far. *)
Fixpoint scanDirectory (levels : nat) (dirPath : string)
    (listing : option (list entry)) (projects : list project) : list project :=
  match levels with
  | O => projects
  | S levels' =>
      match listing with
      | Some entries =>
          scan_entries (scanDirectory levels') dirPath entries projects
      | None => projects
      end
  end.

(** The entry of lines 75-81; [now] is the [new Date()]. *)
Definition main_project (rootPath : string) (now : Z) : project :=
  Project "personal-assistant" "Personal Assistant" rootPath true now.

(** [discoverProjects] (lines 32-85) on the root [rootPath] whose entries
    are [root]. *)
Definition discoverProjects (rootPath : string) (root : option (list entry))
    (now : Z) : list project :=
  let projects := scanDirectory 3 rootPath root [] in
  if existsb (fun p => name p =? "Personal Assistant") projects
  then projects
  else main_project rootPath now :: projects.

End Host.
End Projects.

(* ===================================================================== *)
(** ** The chat handler of the server as a whole (server/index.js)        *)
(* ===================================================================== *)

Module ApiChat.
Import Server.

(** The error middleware (lines 343-349).  The handler is an [async]
    function: what it raises outside its [try] rejects its promise, and
    Express passes the rejection on to this middleware, which answers the
    request; nothing has been sent at that point. *)
Definition error_middleware (err : js_error) : response :=
  Response 500
    (Some (object [("error", str "Internal server error");
                   ("message", str (message err))]))
    [] true.

(** The destructuring of [req.body] (line 204): it raises when the
    request has no body. *)
Definition destructure (body : jsval) : completion json :=
  match body with
  | None =>
      Thrown (Error "Cannot destructure property 'projectPath' of 'req.body' as it is undefined.")
  | Some JNull =>
      Thrown (Error "Cannot destructure property 'projectPath' of 'req.body' as it is null.")
  | Some fields => Normal fields
  end.

Section Host.

(** The clock and the source of session id suffixes, as for
    [Sessions.createSession]. *)
Variable clock : nat -> Z.
Variable random : nat -> string.

(** [path.basename] on a string, and the message of the [TypeError] it
    raises for an argument that is not a string. *)
Variable basename : string -> string.
Variable invalid_path : json -> string.

(** [s.toLowerCase().replace(/[^a-z0-9]/g, '-')]. *)
Variable slug : string -> string.

(** The project id of lines 215-217. *)
Definition project_id (projectPath : jsval) : completion string :=
  if truthy projectPath then
    match projectPath with
    | Some (JStr p) => Normal (slug (basename p))
    | Some other => Thrown (Error (invalid_path other))
    | None => Normal "personal-assistant"
    end
  else Normal "personal-assistant".

(** The handler of [POST /api/chat] (lines 203-340) on the body of a
    request, with the registry of sessions before and after.  The
    working directory of line 212 goes to the backend only, whose turn
    is [b]. *)
Definition post (body : jsval) (b : backend) (st : Sessions.store)
    : response * Sessions.store :=
  match destructure body with
  | Thrown err => (error_middleware err, st)
  | Normal fields =>
      let projectPath := field fields "projectPath" in
      let message := field fields "message" in
      let providedSessionId := field fields "sessionId" in
      if negb (truthy message) then
        (Response 400 (Some (object [("error", str "Missing message")])) [] true,
         st)
      else
        match project_id projectPath with
        | Thrown err => (error_middleware err, st)
        | Normal projectId =>
            let settled :=
              Sessions.chat_session clock random projectId providedSessionId
                                    message st in
            (api_chat message (fst settled) b, snd settled)
        end
  end.

End Host.
End ApiChat.

(* ===================================================================== *)
(** ** The router variant (server/routes/chat.ts, services/agentService)  *)
(* ===================================================================== *)

Module Routes.

Import Server.

(** [streamChatResponse]: the chunks of the backend, and its failure
    turned into one more yielded value; the generator itself never
    throws. *)
Definition streamChatResponse (b : backend) : list json :=
  match failure b with
  | None => chunks b
  | Some e =>
      (chunks b ++
       [object [("type", str "error");
                ("error", or_else (str (message e))
                                  (str "Unknown error occurred"))]])%list
  end.

(** [identifyTask(message)] starts with [message.toLowerCase()] and raises
    unless the (truthy) message is a string; on a string neither it nor
    [enhancePromptForPA] raises. *)
Definition identifyTask_raises (message : jsval) : option js_error :=
  match message with
  | Some (JStr _) => None
  | _ => Some (Error "message.toLowerCase is not a function")
  end.

(** The [error] event of the [catch] (lines 53-58). *)
Definition error_event (e : js_error) : json :=
  object [("type", str "error");
          ("error", or_else (str (message e)) (str "Unknown error occurred"))].

(** The handler (lines 10-63). *)
Definition chat (projectPath message : jsval) (b : backend) : response :=
  if orb (negb (truthy projectPath)) (negb (truthy message)) then
    Response 400
      (Some (object
         [("error", str "Missing required fields: projectPath and message")]))
      [] true
  else
    match identifyTask_raises message with
    | Some e => end_ (write Done (write (Data (error_event e)) fresh))
    | None =>
        end_ (write Done
          (fold_left (fun r chunk => write (Data chunk) r)
                     (streamChatResponse b) fresh))
    end.

End Routes.

(* ===================================================================== *)
(** ** The agent service and the command router (server/services)         *)
(* ===================================================================== *)

Module AgentService.
Import Server.



End AgentService.

Module CommandRouter.

(** [PA_CONFIG.taskFolders] and [PA_CONFIG.triggerCommands]
    (config/pa-config.ts), in the order of the object literals, which is
    the order of [Object.entries]. *)
Definition taskFolders : list (string * string) :=
  [("browserAnalysis", "daily-browser-analysis");
   ("maintenance", "maintenance-tasks");
   ("socialMedia", "social-media-post-generation");
   ("bradoria", "bradoria-shopify-analysis")].

Definition triggerCommands : list (string * string) :=
  [("start today's analysis", "pa-browser-analysis-specialist");
   ("run maintenance", "pa-maintenance");
   ("maintenance check", "pa-maintenance");
   ("daily brief", "morning-planning");
   ("bradoria weekly report", "bradoria-analysis");
   ("bradoria focus", "bradoria-analysis");
   ("shopify analysis", "bradoria-analysis")].

(** [s.includes(needle)] *)
Fixpoint includes (needle s : string) : bool :=
  orb (startsWith needle s)
      (match s with
       | EmptyString => false
       | String _ rest => includes needle rest
       end).

(** [s.replace(pattern, replacement)] for a string pattern and a
    replacement without [$]: the first occurrence only. *)
Fixpoint replace (pattern replacement s : string) : string :=
  if startsWith pattern s
  then replacement ++ slice (String.length pattern) s
  else match s with
       | EmptyString => EmptyString
       | String c rest => String c (replace pattern replacement rest)
       end.

(** [PA_CONFIG.taskFolders[key]] for a key that names no property of
    [Object.prototype]; the keys looked up come from the agents above. *)
Fixpoint lookup (key : string) (entries : list (string * string))
    : option string :=
  match entries with
  | [] => None
  | (k, v) :: rest => if k =? key then Some v else lookup key rest
  end.

Inductive task_type : Type := pa_task | general_chat.

(** [TaskInfo] *)
Record TaskInfo : Type := mkTaskInfo {
  type : task_type;
  agent : option string;
  taskFolder : option string;
  command : option string
}.

Section Host.

(** [String.prototype.toLowerCase] and [String.prototype.trim] on the
    message.  The triggers are lower-case ASCII, on which [toLowerCase]
    is [JS.toLowerCase]. *)
Variable lower : string -> string.
Variable trim : string -> string.

(** The [for] loop of lines 17-31: the first entry whose trigger the
    message includes. *)
Fixpoint first_trigger (lowerMessage : string)
    (entries : list (string * string)) : option (string * string) :=
  match entries with
  | [] => None
  | (trigger, agent) :: rest =>
      if includes (toLowerCase trigger) lowerMessage
      then Some (trigger, agent)
      else first_trigger lowerMessage rest
  end.

(** [identifyTask] (lines 13-35), on a string. *)
Definition identifyTask (message : string) : TaskInfo :=
  let lowerMessage := trim (lower message) in
  match first_trigger lowerMessage triggerCommands with
  | Some (trigger, agent) =>
      let agentKey := replace "-specialist" "" (replace "pa-" "" agent) in
      mkTaskInfo pa_task (Some agent) (lookup agentKey taskFolders)
                 (Some trigger)
  | None => mkTaskInfo general_chat None None None
  end.

(** [${value}] for an optional string. *)
Definition shown (value : option string) : string :=
  match value with
  | Some s => s
  | None => "undefined"
  end.

(** [enhancePromptForPA] (lines 40-60): the template, line by line. *)
Definition enhancePromptForPA (message : string) (taskInfo : TaskInfo)
    : string :=
  match type taskInfo with
  | general_chat => message
  | pa_task =>
      trim
        (join (String "010"%char "")
           [""; "Task: " ++ message;
            "";
            "Context: This is a Personal Assistant automation task.";
            "Agent: Use the " ++ shown (agent taskInfo) ++ " agent for execution.";
            match taskFolder taskInfo with
            | Some folder =>
                if folder =? "" then ""
                else "Instructions: Read " ++ folder
                     ++ "/INSTRUCTIONS.md for detailed steps."
            | None => ""
            end;
            "";
            "Important:";
            "1. Read PERSONAL_ASSISTANT_TASKS.md for task orchestration context";
            "2. Use the Task tool to delegate to " ++ shown (agent taskInfo);
            "3. Follow the execution pattern from INSTRUCTIONS.md";
            "4. Generate comprehensive reports with results";
            "5. Create Notion database entries if required";
            "";
            "Execute the task now.";
            "  "])
  end.

(** The prompt [POST /chat] of routes/chat.ts hands to the agent
    (lines 27-28). *)
Definition enhancedMessage (message : string) : string :=
  enhancePromptForPA message (identifyTask message).

End Host.
End CommandRouter.

(* ===================================================================== *)
(** ** A reader of JSON texts, to run the model on concrete frames        *)
(* ===================================================================== *)

(** The theorems below hold for any [JSON_parse]; the examples need one.
    [JsonText.parse] reads the JSON texts without [\u] escapes, fractions
    or exponents, and rejects every other text. *)
Module JsonText.

Definition quote : ascii := "034"%char.
Definition backslash : ascii := "092"%char.

Definition is_ws (c : ascii) : bool :=
  let n := nat_of_ascii c in
  orb (orb (n =? 32)%nat (n =? 9)%nat) (orb (n =? 10)%nat (n =? 13)%nat).

Definition is_digit (c : ascii) : bool :=
  let n := nat_of_ascii c in andb (48 <=? n)%nat (n <=? 57)%nat.

Fixpoint skip_ws (s : string) : string :=
  match s with
  | String c rest => if is_ws c then skip_ws rest else s
  | EmptyString => s
  end.

Fixpoint read_digits (acc : Z) (s : string) : Z * string :=
  match s with
  | String c rest =>
      if is_digit c
      then read_digits (acc * 10 + Z.of_nat (nat_of_ascii c - 48)) rest
      else (acc, s)
  | EmptyString => (acc, s)
  end.

(** An integer without a leading zero, not followed by a fraction or an
    exponent. *)
Definition read_natural (s : string) : option (Z * string) :=
  match s with
  | String c rest =>
      if is_digit c then
        let '(n, after) := read_digits 0 s in
        let leading_zero :=
          andb (Ascii.eqb c "0"%char)
               (match rest with String d _ => is_digit d | EmptyString => false end) in
        let continued :=
          match after with
          | String d _ =>
              orb (Ascii.eqb d "."%char)
                  (orb (Ascii.eqb d "e"%char) (Ascii.eqb d "E"%char))
          | EmptyString => false
          end in
        if orb leading_zero continued then None else Some (n, after)
      else None
  | EmptyString => None
  end.

Definition read_number (s : string) : option (Z * string) :=
  match s with
  | String c rest =>
      if Ascii.eqb c "-"%char
      then match read_natural rest with
           | Some (n, after) => Some ((- n)%Z, after)
           | None => None
           end
      else read_natural s
  | EmptyString => None
  end.

Definition unescape (c : ascii) : option ascii :=
  if Ascii.eqb c quote then Some quote
  else if Ascii.eqb c backslash then Some backslash
  else if Ascii.eqb c "/"%char then Some "/"%char
  else if Ascii.eqb c "n"%char then Some "010"%char
  else if Ascii.eqb c "t"%char then Some "009"%char
  else if Ascii.eqb c "r"%char then Some "013"%char
  else if Ascii.eqb c "b"%char then Some "008"%char
  else if Ascii.eqb c "f"%char then Some "012"%char
  else None.

(** The characters of a string after its opening quote. *)
Fixpoint read_string (acc : string) (s : string) : option (string * string) :=
  match s with
  | EmptyString => None
  | String c rest =>
      if Ascii.eqb c quote then Some (acc, rest)
      else if Ascii.eqb c backslash then
        match rest with
        | String e rest' =>
            match unescape e with
            | Some u => read_string (acc ++ String u "") rest'
            | None => None
            end
        | EmptyString => None
        end
      else if (nat_of_ascii c <? 32)%nat then None
      else read_string (acc ++ String c "") rest
  end.

(** A later member with the same name replaces the earlier one. *)
Fixpoint set_member (k : string) (v : json) (fields : list (string * json))
    : list (string * json) :=
  match fields with
  | [] => [(k, v)]
  | (k', v') :: rest =>
      if k' =? k then (k', v) :: rest else (k', v') :: set_member k v rest
  end.

Fixpoint read_value (fuel : nat) (s : string) : option (json * string) :=
  match fuel with
  | O => None
  | S fuel' =>
      match skip_ws s with
      | String "n" (String "u" (String "l" (String "l" rest))) =>
          Some (JNull, rest)
      | String "t" (String "r" (String "u" (String "e" rest))) =>
          Some (JBool true, rest)
      | String "f" (String "a" (String "l" (String "s" (String "e" rest)))) =>
          Some (JBool false, rest)
      | String c rest =>
          if Ascii.eqb c quote then
            match read_string "" rest with
            | Some (str, after) => Some (JStr str, after)
            | None => None
            end
          else if Ascii.eqb c "["%char then
            match skip_ws rest with
            | String "]" after => Some (JArr [], after)
            | _ => read_elements fuel' [] rest
            end
          else if Ascii.eqb c "{"%char then
            match skip_ws rest with
            | String "}" after => Some (JObj [], after)
            | _ => read_members fuel' [] rest
            end
          else
            match read_number (String c rest) with
            | Some (n, after) => Some (JNum n, after)
            | None => None
            end
      | EmptyString => None
      end
  end
with read_elements (fuel : nat) (acc : list json) (s : string)
    : option (json * string) :=
  match fuel with
  | O => None
  | S fuel' =>
      match read_value fuel' s with
      | Some (v, after) =>
          match skip_ws after with
          | String "," more => read_elements fuel' (acc ++ [v])%list more
          | String "]" more => Some (JArr (acc ++ [v])%list, more)
          | _ => None
          end
      | None => None
      end
  end
with read_members (fuel : nat) (acc : list (string * json)) (s : string)
    : option (json * string) :=
  match fuel with
  | O => None
  | S fuel' =>
      match skip_ws s with
      | String c rest =>
          if Ascii.eqb c quote then
            match read_string "" rest with
            | Some (k, after) =>
                match skip_ws after with
                | String ":" more =>
                    match read_value fuel' more with
                    | Some (v, after') =>
                        match skip_ws after' with
                        | String "," more' =>
                            read_members fuel' (set_member k v acc) more'
                        | String "}" more' =>
                            Some (JObj (set_member k v acc), more')
                        | _ => None
                        end
                    | None => None
                    end
                | _ => None
                end
            | None => None
            end
          else None
      | EmptyString => None
      end
  end.

Definition parse (text : string) : option json :=
  match read_value (S (S (String.length text))) text with
  | Some (v, after) => if skip_ws after =? "" then Some v else None
  | None => None
  end.

(** Writes a JSON text with ['] for the double quote. *)
Fixpoint dq (s : string) : string :=
  match s with
  | EmptyString => EmptyString
  | String c rest =>
      String (if Ascii.eqb c "'"%char then quote else c) (dq rest)
  end.

End JsonText.


(* ===================================================================== *)
(** ** Vocabulary of the statements                                       *)
(* ===================================================================== *)

Module Spec.
Import Enhanced.

(** The state a computation leaves behind, whether it returned or raised. *)
Definition exec {A : Type} (m : M A) (e : env) : env := snd (m e).

(** A line of the stream that carries [data]. *)
Definition data_line (data : string) : string := "data: " ++ data.

(** The line the stream ends with, and the record the server writes for
    it. *)
Definition DONE : string := "data: [DONE]".

Definition DONE_record : string :=
  "data: [DONE]" ++ String "010"%char (String "010"%char "").

(** [line] is a data line, not the end marker, whose payload [JSON_parse]
    reads as [parsed]. *)
Definition decodes (JSON_parse : string -> option json)
    (line : string) (parsed : json) : Prop :=
  exists data,
    line = data_line data /\ data <> "[DONE]" /\ JSON_parse data = Some parsed.

(** A [debug] event whose [data] is a message of the given role with the
    given content array (section 6 of the specification). *)
Definition envelope (role : string) (items : list json) (parsed : json) : Prop :=
  field parsed "type" = str "debug" /\
  exists data message,
    field parsed "data" = Some data /\
    field data "type" = str role /\
    field data "message" = Some message /\
    field message "content" = Some (JArr items).

(** [{"type":"tool_use","id":k,"name":name,"input":input}] *)
Definition tool_use_item (k name input : jsval) (item : json) : Prop :=
  field item "type" = str "tool_use" /\
  field item "id" = k /\
  field item "name" = name /\
  field item "input" = input.

(** [{"type":"tool_result","tool_use_id":k,"content":c,"is_error":b}] *)
Definition tool_result_item (k content is_error : jsval) (item : json) : Prop :=
  field item "type" = str "tool_result" /\
  field item "tool_use_id" = k /\
  field item "content" = content /\
  field item "is_error" = is_error.

(** A [tool_use] message for invocation [k] is in the log. *)
Definition has_use (k : jsval) (log : list Msg.t) : Prop :=
  exists u, In u log /\ Msg.type u = type_tool_use /\ Msg.toolId u = k.

(** Every [tool_result] message that references an invocation comes after
    a [tool_use] message of that invocation. *)
Definition ordered (log : list Msg.t) : Prop :=
  forall before m after,
    log = (before ++ m :: after)%list ->
    Msg.type m = type_tool_result ->
    Msg.toolId m <> None ->
    has_use (Msg.toolId m) before.

(** No [tool_result] message of an invocation stands before a
    [tool_use] message of the same invocation. *)
Definition never_before (log : list Msg.t) : Prop :=
  forall before r between u after,
    log = (before ++ r :: between ++ u :: after)%list ->
    Msg.type r = type_tool_result ->
    Msg.type u = type_tool_use ->
    Msg.toolId r <> None ->
    Msg.toolId r <> Msg.toolId u.

(** The invocation ids of the [tool_use] messages, in log order. *)
Fixpoint use_ids (log : list Msg.t) : list jsval :=
  match log with
  | [] => []
  | m :: rest =>
      match Msg.type m with
      | type_tool_use => Msg.toolId m :: use_ids rest
      | _ => use_ids rest
      end
  end.

(** What a call of [handleSubmit] holds is backed by the log: its
    assistant message is in it, and so is a [tool_use] message for every
    key of its table. *)
Definition call_ok (log : list Msg.t) (c : call) : Prop :=
  (forall cur, currentAssistantMessage c = Some cur ->
     exists m, In m log /\ Msg.id m = Msg.id cur) /\
  (forall k te, In (k, te) (currentToolExecutions c) -> has_use k log).

(** The invariant of a running call, with the other calls alive. *)
Definition sound (others : list call) (e : env) : Prop :=
  ordered (messages (ui e)) /\
  call_ok (messages (ui e)) (me e) /\
  Forall (call_ok (messages (ui e))) others.

(** The invariant of the component. *)
Definition world_ok (w : world) : Prop :=
  ordered (messages (page w)) /\
  Forall (call_ok (messages (page w))) (calls w).

(** [m] keeps [P], however it completes. *)
Definition keeps {A : Type} (P : env -> Prop) (m : M A) : Prop :=
  forall e, P e -> P (exec m e).

(** [e] is what some call of [handleSubmit] runs against in some world
    the component can reach. *)
Definition arises (clock : nat -> Z) (JSON_parse : string -> option json)
    (trim : string -> string) (e : env) : Prop :=
  exists w i c,
    reachable clock JSON_parse trim w /\
    nth_error (calls w) i = Some c /\
    e = Env (page w) c (readings w).

(** *** Tool events *)

(** A tool event as section 6 of the specification has it, inside a
    [debug] envelope: the start of invocation [k], or its result. *)
Inductive tool_event : Type :=
| Use (k name : string) (input : jsval)
| Res (k : string) (content is_error : jsval).

Definition encodes (ev : tool_event) (parsed : json) : Prop :=
  match ev with
  | Use k name input =>
      exists item,
        envelope "assistant" [item] parsed /\
        tool_use_item (str k) (str name) input item
  | Res k content is_error =>
      exists item,
        envelope "user" [item] parsed /\
        tool_result_item (str k) content is_error item
  end.

Fixpoint uses (evs : list tool_event) : list string :=
  match evs with
  | [] => []
  | Use k _ _ :: rest => k :: uses rest
  | Res _ _ _ :: rest => uses rest
  end.

Fixpoint results (evs : list tool_event) : list string :=
  match evs with
  | [] => []
  | Use _ _ _ :: rest => results rest
  | Res k _ _ :: rest => k :: results rest
  end.

(** The name and input of the latest start of invocation [k] among the
    events, [acc] when there is none. *)
Fixpoint latest (k : string) (acc : option (string * jsval))
    (evs : list tool_event) : option (string * jsval) :=
  match evs with
  | [] => acc
  | Use k' name input :: rest =>
      latest k (if k' =? k then Some (name, input) else acc) rest
  | Res _ _ _ :: rest => latest k acc rest
  end.

Definition last_use (k : string) (evs : list tool_event)
    : option (string * jsval) :=
  latest k None evs.

(** Every result comes after the start of its invocation. *)
Definition results_follow (evs : list tool_event) : Prop :=
  forall before k content is_error after,
    evs = (before ++ Res k content is_error :: after)%list ->
    In k (uses before).

(** Matched pairs with pairwise distinct, non-empty invocation ids. *)
Definition matched (evs : list tool_event) : Prop :=
  NoDup (uses evs) /\
  NoDup (results evs) /\
  (forall k, In k (uses evs) -> In k (results evs)) /\
  results_follow evs /\
  ~ In "" (uses evs).

Definition is_use_of (k : string) (m : Msg.t) : bool :=
  andb (message_type_eqb (Msg.type m) type_tool_use)
       (same_key (Msg.toolId m) (str k)).

Definition is_result_of (k : string) (m : Msg.t) : bool :=
  andb (message_type_eqb (Msg.type m) type_tool_result)
       (same_key (Msg.toolId m) (str k)).

Definition count (p : Msg.t -> bool) (log : list Msg.t) : nat :=
  List.length (filter p log).

(** The tool messages of a log that reference an invocation, as
    (type, invocation id), in log order. *)
Fixpoint tool_trace (log : list Msg.t) : list (message_type * jsval) :=
  match log with
  | [] => []
  | m :: rest =>
      match Msg.toolId m with
      | Some _ => (Msg.type m, Msg.toolId m) :: tool_trace rest
      | None => tool_trace rest
      end
  end.

Definition key_is (ty : message_type) (k : string) (p : message_type * jsval)
    : bool :=
  andb (message_type_eqb (fst p) ty) (same_key (snd p) (str k)).

Definition event_key (ev : tool_event) : message_type * jsval :=
  match ev with
  | Use k _ _ => (type_tool_use, str k)
  | Res k _ _ => (type_tool_result, str k)
  end.

(** The lines carry the events, one event a line. *)
Definition carries (JSON_parse : string -> option json)
    (lines : list string) (evs : list tool_event) : Prop :=
  Forall2 (fun line ev =>
             exists parsed, decodes JSON_parse line parsed /\ encodes ev parsed)
          lines evs.

(** The log holds no [debug] message. *)
Definition no_debug (e : env) : Prop :=
  Forall (fun m => Msg.type m <> type_debug) (messages (ui e)).

(** *** Views of a turn *)

(** The generating flag has the value [g]. *)
Definition flag_is (g : bool) (e : env) : Prop := isGenerating (ui e) = g.

(** The call has its assistant message, that message is in the log, and
    every message with its id shows [v]. *)
Definition shows (v : jsval) (e : env) : Prop :=
  exists c,
    currentAssistantMessage (me e) = Some c /\
    startsWith "assistant-" (Msg.id c) = true /\
    (exists m, In m (messages (ui e)) /\ Msg.id m = Msg.id c) /\
    (forall m, In m (messages (ui e)) -> Msg.id m = Msg.id c ->
               Msg.content m = v).

(** The call has no assistant message yet, or it shows something. *)
Definition showing (e : env) : Prop :=
  currentAssistantMessage (me e) = None \/ exists v, shows v e.

(** [line] does not carry a [text] event: it is no data line, it is the
    end marker, its payload does not parse, or it parses to an event of
    another type. *)
Definition no_text (JSON_parse : string -> option json) (line : string) : bool :=
  if startsWith "data: " line then
    if slice 6 line =? "[DONE]" then true
    else match JSON_parse (slice 6 line) with
         | Some parsed => negb (is_str (field parsed "type") "text")
         | None => true
         end
  else true.

(** [m'] is [m], or [m] with another content; the latter only when [m]
    carries the id of the assistant message [cur] of the call. *)
Definition same_or_rewritten (cur : option Msg.t) (m m' : Msg.t) : Prop :=
  m' = m \/
  exists c v, cur = Some c /\ Msg.id m = Msg.id c /\ m' = Msg.with_content v m.

(** The number of [assistant] messages of a log. *)
Definition assistants (log : list Msg.t) : nat :=
  List.length
    (filter (fun m => message_type_eqb (Msg.type m) type_assistant) log).

(** One when the call got its assistant message between [e0] and [e],
    zero otherwise. *)
Definition started (e0 e : env) : nat :=
  match currentAssistantMessage (me e0), currentAssistantMessage (me e) with
  | None, Some _ => 1
  | _, _ => 0
  end.

(** From [e0] to [e] the log only grew: the messages of [e0] are still
    there, in place, changed at most in the content of those that carry
    the id of the call's assistant message; what was added holds an
    [assistant] message exactly when the call got its own in between; and
    the call keeps the assistant message it has. *)
Definition extends (e0 e : env) : Prop :=
  (forall c, currentAssistantMessage (me e0) = Some c ->
             currentAssistantMessage (me e) = Some c) /\
  exists kept added,
    messages (ui e) = (kept ++ added)%list /\
    Forall2 (same_or_rewritten (currentAssistantMessage (me e)))
            (messages (ui e0)) kept /\
    assistants added = started e0 e.

(** *** The text-only component *)

(** [line] carries a [text] event that has the delta [d] and no truthy
    [fullText]. *)
Definition delta_event (JSON_parse : string -> option json)
    (line d : string) : Prop :=
  exists parsed,
    decodes JSON_parse line parsed /\
    field parsed "type" = str "text" /\
    truthy (field parsed "fullText") = false /\
    field parsed "text" = str d.

(** The strings one after the other. *)
Fixpoint glue (parts : list string) : string :=
  match parts with
  | [] => ""
  | part :: rest => part ++ glue rest
  end.

(** [m'] is [m], up to the content when [m] has the id [target]. *)
Definition same_but_content (target : string) (m m' : Basic.Message) : Prop :=
  Basic.id m' = Basic.id m /\
  Basic.role_of m' = Basic.role_of m /\
  (Basic.id m <> target -> m' = m).

(** *** Records on the wire *)

Definition nl : string := String "010"%char "".

Fixpoint no_newline (s : string) : bool :=
  match s with
  | EmptyString => true
  | String c rest => andb (negb (Ascii.eqb c "010"%char)) (no_newline rest)
  end.

(** A line as the server writes it: followed by a blank line. *)
Definition record_of (line : string) : string := line ++ nl ++ nl.

(** Several records in one chunk. *)
Fixpoint records (lines : list string) : string :=
  match lines with
  | [] => ""
  | line :: rest => record_of line ++ records rest
  end.

(** The event types the [switch] of the component has a case for. *)
Definition handled_types : list string :=
  ["init"; "text"; "result"; "debug"; "error"].

End Spec.

(** *** The wire *)

Module Wire.
Import Server.

(** The [text] events among the records written, in order. *)
Fixpoint text_events (ws : list record) : list json :=
  match ws with
  | [] => []
  | Data p :: rest =>
      if is_str (field p "type") "text"
      then p :: text_events rest
      else text_events rest
  | Done :: rest => text_events rest
  end.

(** The [text] properties of the events, converted to strings and joined
    in order. *)
Fixpoint texts (evs : list json) : string :=
  match evs with
  | [] => ""
  | ev :: rest => to_string (field ev "text") ++ texts rest
  end.

(** Every [fullText] is the join of the texts up to it. *)
Definition joined (evs : list json) : Prop :=
  forall n ev,
    nth_error evs n = Some ev ->
    field ev "fullText" = str (texts (firstn (S n) evs)).

(** What the loop keeps true: [fullResponse] is the join of all the texts
    written, and every [fullText] written is the join up to it. *)
Definition coherent (p : progress) : Prop :=
  fullResponse p = texts (text_events (written (res p))) /\
  joined (text_events (written (res p))).

(** The lines the client reads are the records the server wrote: for a
    data record a line whose payload parses to what was serialised, for
    the end record the end marker. *)
Definition transmits (JSON_parse : string -> option json)
    (lines : list string) (ws : list record) : Prop :=
  Forall2 (fun line r =>
             match r with
             | Data p => Spec.decodes JSON_parse line p
             | Done => line = Spec.DONE
             end)
          lines ws.

(** [p] is no [debug] event that wraps an assistant message. *)
Definition no_assistant_envelope (p : json) : bool :=
  negb (andb (is_str (field p "type") "debug")
             (is_str (get_opt (field p "data") "type") "assistant")).

Definition plain (r : record) : bool :=
  match r with
  | Data p => no_assistant_envelope p
  | Done => true
  end.

(** The number of tool messages in a log. *)
Definition tools_shown (log : list Enhanced.Msg.t) : nat :=
  List.length
    (filter (fun m =>
               orb (Enhanced.message_type_eqb (Enhanced.Msg.type m)
                                              Enhanced.type_tool_use)
                   (Enhanced.message_type_eqb (Enhanced.Msg.type m)
                                              Enhanced.type_tool_result))
            log).

(** [v] is a string. *)
Definition is_string (v : jsval) : bool :=
  match v with
  | Some (JStr _) => true
  | _ => false
  end.

(** The body of a request that gets as far as the stream: it carries a
    message, and its project path, when it carries one, is a string. *)
Definition accepted (body : jsval) : bool :=
  andb (truthy (get_opt body "message"))
       (orb (negb (truthy (get_opt body "projectPath")))
            (is_string (get_opt body "projectPath"))).

(** [ev] is an [error] event that carries the message of [e]. *)
Definition reports (e : js_error) (ev : json) : Prop :=
  field ev "type" = str "error" /\ field ev "error" = str (message e).

(** The chunk types the handler has a branch for. *)
Definition branched (chunk : json) : bool :=
  orb (andb (is_str (field chunk "type") "system")
            (is_str (field chunk "subtype") "init"))
      (existsb (is_str (field chunk "type"))
         ["assistant"; "result"; "text"; "tool_use"; "tool_result"]).

End Wire.

(** *** The session registry *)

Module Registry.
Import Sessions.

(** No two sessions share an id, and every session has a history and
    counts its messages. *)
Definition consistent (st : store) : Prop :=
  NoDup (map id (all_sessions st)) /\
  forall s, In s (all_sessions st) ->
    exists h,
      Map_get (conversationHistory st) (str (id s)) = Some h /\
      messageCount s = List.length (messages h).

(** The request makes the server create a session. *)
Definition creates (st : store) (r : request) : bool :=
  match r with
  | PostSession _ => true
  | PostChat _ providedSessionId message =>
      andb (truthy message)
           (orb (negb (truthy providedSessionId))
                (negb (Map_has (conversationHistory st) providedSessionId)))
  end.

(** When the request creates a session, the id it gets is not in use. *)
Definition fresh (clock : nat -> Z) (random : nat -> string)
    (st : store) (r : request) : Prop :=
  creates st r = true ->
  Map_get (conversationHistory st) (str (next_id clock random st)) = None.

Fixpoint all_fresh (clock : nat -> Z) (random : nat -> string)
    (st : store) (rs : list request) : Prop :=
  match rs with
  | [] => True
  | r :: rest =>
      fresh clock random st r /\
      all_fresh clock random (handle clock random st r) rest
  end.

(** Every message of every history is a [user] message. *)
Definition only_user (st : store) : Prop :=
  forall k h,
    In (k, h) (conversationHistory st) ->
    Forall (fun m => type (message m) = "user") (messages h).

End Registry.

(** *** Routing and the agent service *)

Module Routing.


(** No trigger command of the configuration occurs in [text]. *)
Definition no_trigger (text : string) : bool :=
  forallb (fun entry => negb (CommandRouter.includes (fst entry) text))
          CommandRouter.triggerCommands.

End Routing.

(** *** Project discovery *)

Module Discovery.
Import Projects.

(** [p] is the project of a directory [k] levels below the directory
    [dirPath] with the given listing: that directory has Claude
    configuration and a modification time, and it and every directory on
    the way to it are listed and have an admissible name. *)
Inductive sits (slug : string -> string) (join : string -> string -> string)
    : nat -> string -> option (list entry) -> project -> Prop :=
| sits_here (dirPath : string) (entries : list entry) (name : string)
      (claudeMd claudeDir : bool) (t : Z) (listing : option (list entry)) :
    In (Directory name claudeMd claudeDir (Some t) listing) entries ->
    admissible name = true ->
    orb claudeMd claudeDir = true ->
    sits slug join 1 dirPath (Some entries)
         (Project (slug name) name (join dirPath name) true t)
| sits_below (k : nat) (dirPath : string) (entries : list entry)
      (name : string) (claudeMd claudeDir : bool) (mtime : option Z)
      (listing : option (list entry)) (p : project) :
    In (Directory name claudeMd claudeDir mtime listing) entries ->
    admissible name = true ->
    sits slug join k (join dirPath name) listing p ->
    sits slug join (S k) dirPath (Some entries) p.

(** [fs.statSync] raises on no directory that has Claude configuration,
    in the entry and below it. *)
Fixpoint calm (e : entry) : bool :=
  match e with
  | File _ => true
  | Directory _ claudeMd claudeDir mtime listing =>
      andb (implb (orb claudeMd claudeDir)
                  (match mtime with Some _ => true | None => false end))
           (match listing with
            | Some entries => forallb calm entries
            | None => true
            end)
  end.

Definition calm_listing (listing : option (list entry)) : bool :=
  match listing with
  | Some entries => forallb calm entries
  | None => true
  end.

End Discovery.

(** *** A concrete host and concrete frames, for the examples *)

Module Fixture.
Import Enhanced Spec.

(** A clock that starts at some instant and advances by a millisecond a
    reading. *)
Definition clock (n : nat) : Z := 1700000000000 + Z.of_nat n.

Definition parse : string -> option json := JsonText.parse.

Fixpoint drop_ws (s : string) : string :=
  match s with
  | String c rest => if JsonText.is_ws c then drop_ws rest else s
  | EmptyString => s
  end.

Fixpoint reverse (acc s : string) : string :=
  match s with
  | String c rest => reverse (String c acc) rest
  | EmptyString => acc
  end.

(** [trim] on the ASCII white space. *)
Definition trim (s : string) : string :=
  reverse "" (drop_ws (reverse "" (drop_ws s))).

(** A data line with the JSON text [text], written with ['] for the
    double quote. *)
Definition frame (text : string) : string := data_line (JsonText.dq text).

(** The component after the user typed a prompt and submitted it, and the
    server answered with a stream. *)
Definition streaming : world :=
  run clock parse trim initial
    [TypeInput " list the files "; Submit (Some "/home/pa");
     FetchSettled 0 (fetch_response true 200 true)].

(** What call 0 runs against in [streaming]. *)
Definition streaming_env : env :=
  Env (page streaming) (Call Reading None []) (readings streaming).

(** Scenario B of the specification: the start of invocation [t1], then
    its result. *)
Definition tool_use_t1 : string :=
  frame "{'type':'debug','data':{'type':'assistant','message':{'content':[{'type':'tool_use','id':'t1','name':'Bash','input':{'command':'ls'}}]}}}".

Definition tool_result_t1 : string :=
  frame "{'type':'debug','data':{'type':'user','message':{'content':[{'type':'tool_result','tool_use_id':'t1','content':'a.txt','is_error':false}]}}}".

(** Scenario C: the result of an invocation that never started. *)
Definition tool_result_t9 : string :=
  frame "{'type':'debug','data':{'type':'user','message':{'content':[{'type':'tool_result','tool_use_id':'t9','content':'late','is_error':false}]}}}".

(** A chunk of the backend the server has no branch for, and the line
    the client receives for it. *)
Definition status_chunk : json :=
  JObj [("type", JStr "system"); ("subtype", JStr "status")].

Definition status_line : string :=
  frame "{'type':'debug','data':{'type':'system','subtype':'status'}}".

(** Two [text] events as the server writes them, and one whose
    [fullText] is the empty string. *)
Definition text_Hel : string :=
  frame "{'type':'text','text':'Hel','fullText':'Hel','messageId':'msg_1'}".

Definition text_lo : string :=
  frame "{'type':'text','text':'lo','fullText':'Hello','messageId':'msg_1'}".

Definition text_empty_full : string :=
  frame "{'type':'text','text':'Hello','fullText':''}".

(** The events of [tool_use_t1] and [tool_result_t1]. *)
Definition scenario_B : list tool_event :=
  [Use "t1" "Bash" (Some (JObj [("command", JStr "ls")]));
   Res "t1" (str "a.txt") (Some (JBool false))].

(** A backend that yields an answer in two assistant chunks and then
    fails; the two [text] events the server writes for the chunks. *)
Definition assistant_chunk (text : string) : json :=
  JObj [("type", JStr "assistant");
        ("message",
         JObj [("id", JStr "msg_1");
               ("content", JArr [JObj [("type", JStr "text");
                                       ("text", JStr text)]])])].

Definition failing_backend : Server.backend :=
  Server.Backend [assistant_chunk "Hel"; assistant_chunk "lo"]
                 (Some (Error "socket hang up")).

Definition event_Hel : json :=
  JObj [("type", JStr "text"); ("text", JStr "Hel"); ("fullText", JStr "Hel");
        ("messageId", JStr "msg_1")].

Definition event_Hello : json :=
  JObj [("type", JStr "text"); ("text", JStr "lo"); ("fullText", JStr "Hello");
        ("messageId", JStr "msg_1")].

(** A line cut in the middle of its JSON text. *)
Definition truncated_line : string := frame "{'type':'text','text':'Hel".

Definition init_line : string :=
  frame "{'type':'init','sessionId':'s1','model':'m','tools':['Read']}".

Definition result_line : string :=
  frame "{'type':'result','success':true,'duration':120}".

(** Two [text] events that carry a delta only. *)
Definition delta_Hel : string := frame "{'type':'text','text':'Hel'}".

Definition delta_lo : string := frame "{'type':'text','text':'lo'}".

(** The start of a [TodoWrite] invocation and its result. *)
Definition todo_use : string :=
  frame "{'type':'debug','data':{'type':'assistant','message':{'content':[{'type':'tool_use','id':'t2','name':'TodoWrite','input':{'todos':[{'content':'ship','status':'pending'}]}}]}}}".

Definition todo_result : string :=
  frame "{'type':'debug','data':{'type':'user','message':{'content':[{'type':'tool_result','tool_use_id':'t2','content':'ok','is_error':false}]}}}".

Definition todo_events : list tool_event :=
  [Use "t2" "TodoWrite"
       (Some (JObj [("todos",
                     JArr [JObj [("content", JStr "ship");
                                 ("status", JStr "pending")]])]));
   Res "t2" (str "ok") (Some (JBool false))].

(** A second start of invocation [t1], under another name. *)
Definition tool_use_t1_again : string :=
  frame "{'type':'debug','data':{'type':'assistant','message':{'content':[{'type':'tool_use','id':'t1','name':'Read','input':{'file_path':'a.txt'}}]}}}".

(** A turn of the backend in which a tool runs: an assistant message
    with a [tool_use] block, then a user message with its result. *)
Definition tool_use_chunk : json :=
  JObj [("type", JStr "assistant");
        ("message",
         JObj [("content",
                JArr [JObj [("type", JStr "tool_use"); ("id", JStr "t1");
                            ("name", JStr "Bash");
                            ("input", JObj [("command", JStr "ls")])]])])].

Definition tool_result_chunk : json :=
  JObj [("type", JStr "user");
        ("message",
         JObj [("content",
                JArr [JObj [("type", JStr "tool_result");
                            ("tool_use_id", JStr "t1");
                            ("content", JStr "a.txt");
                            ("is_error", JBool false)]])])].

Definition tool_backend : Server.backend :=
  Server.Backend [tool_use_chunk; tool_result_chunk] None.

(** A backend that answers in two assistant chunks. *)
Definition answering_backend : Server.backend :=
  Server.Backend [assistant_chunk "Hel"; assistant_chunk "lo"] None.

(** A source of session id suffixes, and three requests: a session is
    opened, a chat request without a session id opens another, and a chat
    request is filed under the first. *)
Definition random (n : nat) : string := "r" ++ string_of_Z (Z.of_nat n).

Definition first_session : string := "session-1700000000000-r0".

Definition requests : list Sessions.request :=
  [Sessions.PostSession "pa";
   Sessions.PostChat "pa" None (str "hello");
   Sessions.PostChat "pa" (str first_session) (str "again")].

(** [path.basename] on a path that does not end in a slash, and the
    message of its [TypeError]. *)
Fixpoint last_segment (acc path : string) : string :=
  match path with
  | String c rest =>
      if Ascii.eqb c "/"%char then last_segment "" rest
      else last_segment (acc ++ String c "") rest
  | EmptyString => acc
  end.

Definition basename (path : string) : string := last_segment "" path.

Definition invalid_path (v : json) : string :=
  JsonText.dq "The 'path' argument must be of type string. Received "
  ++ match v with
     | JNull => "null"
     | JBool true => "type boolean (true)"
     | JBool false => "type boolean (false)"
     | JNum n => "type number (" ++ string_of_Z n ++ ")"
     | JStr s => "type string ('" ++ s ++ "')"
     | JArr _ => "an instance of Array"
     | JObj _ => "an instance of Object"
     end.

(** The body of a chat request, and one whose project path is a
    number. *)
Definition chat_request : jsval :=
  Some (JObj [("projectPath", JStr "/home/pa"); ("message", JStr "hi")]).

Definition numeric_path_request : jsval :=
  Some (JObj [("projectPath", JNum 5); ("message", JStr "hi")]).

(** A backend that yields two [text] chunks and then fails. *)
Definition text_chunk (text : string) : json :=
  JObj [("type", JStr "text"); ("text", JStr text)].

Definition failing_text_backend : Server.backend :=
  Server.Backend [text_chunk "Hel"; text_chunk "lo"]
                 (Some (Error "socket hang up")).

(** A root with a configured project, a hidden directory and a
    directory without configuration that holds a project. *)
Definition join_path (dir name : string) : string := dir ++ "/" ++ name.

Definition notes_project : Projects.project :=
  Projects.Project "notes" "Notes" "/home/pa/work/Notes" true 7%Z.

Definition root_entries : list Projects.entry :=
  [Projects.File "README.md";
   Projects.Directory ".git" false true (Some 1%Z) (Some []);
   Projects.Directory "work" false false (Some 2%Z)
     (Some [Projects.Directory "Notes" true false (Some 7%Z) (Some [])])].

(** Scenario A of the specification, as the chunks of one answer. *)
Definition scenario_A : list string :=
  [init_line;
   frame "{'type':'text','text':'Hi','fullText':'Hi'}";
   frame "{'type':'result','success':true,'duration':120}";
   DONE].

End Fixture.

(* ===================================================================== *)
(** ** Properties of the enhanced session component                       *)
(* ===================================================================== *)

Module EnhancedFacts.
Import Enhanced Spec.

Arguments bind {A B} m k e /.
Arguments ret {A} a e /.
Arguments lift {A} c e /.
Arguments throw {A} err e /.
Arguments try_catch {A} body handler e /.
Arguments setMessages f e /.
Arguments setInput s e /.
Arguments setIsGenerating b e /.
Arguments setToolExecutions f e /.
Arguments read_currentAssistantMessage e /.
Arguments assign_currentAssistantMessage m e /.
Arguments read_currentToolExecutions e /.
Arguments currentToolExecutions_set k v e /.
Arguments Date_now clock e /.
Arguments get : simpl never.
Arguments get_opt : simpl never.
Arguments addMessage : simpl never.
Arguments update_content : simpl never.

Lemma get_field (j : json) (k : string) :
  j <> JNull -> get (Some j) k = Normal (field j k).
Proof. destruct j; intros H; try reflexivity. contradiction. Qed.

Lemma field_not_null (j : json) (k : string) (v : json) :
  field j k = Some v -> j <> JNull.
Proof. intros H ->. discriminate. Qed.

Lemma get_opt_field (j : json) (k : string) :
  get_opt (Some j) k = field j k.
Proof. destruct j; reflexivity. Qed.

Lemma try_catch_ret_normal (body : M unit) (e : env) :
  fst (try_catch body (fun _ => ret tt) e) = Normal tt.
Proof. unfold try_catch. destruct (body e) as [[[]|err] e']; reflexivity. Qed.

Lemma try_catch_normal {A : Type} (body : M A) (h : js_error -> M A) (e e' : env) (a : A) :
  body e = (Normal a, e') -> try_catch body h e = (Normal a, e').
Proof. intros H. unfold try_catch. rewrite H. reflexivity. Qed.

Lemma forEach_app {A : Type} (f : A -> M unit) (xs ys : list A) (e : env) :
  forEach f (xs ++ ys)%list e = bind (forEach f xs) (fun _ => forEach f ys) e.
Proof.
  revert e. induction xs as [|x xs IH]; intros e; [reflexivity|].
  cbn [forEach app]. unfold bind.
  destruct (f x e) as [[[]|err] e1]; cbn; [|reflexivity].
  rewrite IH. reflexivity.
Qed.

(** *** The log *)

Lemma has_use_app (k : jsval) (log extra : list Msg.t) :
  has_use k log -> has_use k (log ++ extra).
Proof.
  intros (u & Hin & H). exists u. split; [apply in_or_app; left|]; assumption.
Qed.

Lemma ordered_nil : ordered [].
Proof. intros [|x b] m a H; discriminate. Qed.

Lemma ordered_snoc (log : list Msg.t) (m : Msg.t) :
  ordered log ->
  (Msg.type m = type_tool_result -> Msg.toolId m <> None ->
   has_use (Msg.toolId m) log) ->
  ordered (log ++ [m]).
Proof.
  intros Hlog Hm before x after Heq Hty Hid.
  destruct after as [|y after'].
  - apply app_inj_tail in Heq. destruct Heq as [-> ->]. auto.
  - assert (Hsplit : log = (before ++ x :: removelast (y :: after'))%list
                     /\ True).
    { split; [|exact I].
      replace (before ++ x :: y :: after')%list
        with ((before ++ x :: removelast (y :: after')) ++ [last (y :: after') m])%list
        in Heq.
      - apply app_inj_tail in Heq. tauto.
      - rewrite <- app_assoc. cbn [app]. f_equal. f_equal.
        symmetry. apply app_removelast_last. discriminate. }
    destruct Hsplit as [Hsplit _].
    eapply Hlog; eauto.
Qed.

Lemma ordered_map (f : Msg.t -> Msg.t) (log : list Msg.t) :
  (forall m, Msg.type (f m) = Msg.type m /\ Msg.toolId (f m) = Msg.toolId m) ->
  ordered log -> ordered (map f log).
Proof.
  intros Hf Hlog before m after Heq Hty Hid.
  apply map_eq_app in Heq.
  destruct Heq as (b0 & rest & -> & <- & Hrest).
  apply map_eq_cons in Hrest. destruct Hrest as (m0 & a0 & -> & <- & <-).
  destruct (Hf m0) as [Ht Hi]. rewrite Ht in Hty. rewrite Hi in Hid |- *.
  destruct (Hlog b0 m0 a0 eq_refl Hty Hid) as (u & Hin & Hut & Hui).
  exists (f u). destruct (Hf u) as [Ht' Hi']. repeat split.
  - apply in_map. assumption.
  - congruence.
  - congruence.
Qed.

Lemma has_use_map (f : Msg.t -> Msg.t) (k : jsval) (log : list Msg.t) :
  (forall m, Msg.type (f m) = Msg.type m /\ Msg.toolId (f m) = Msg.toolId m) ->
  has_use k log -> has_use k (map f log).
Proof.
  intros Hf (u & Hin & Ht & Hi). exists (f u). destruct (Hf u) as [Ht' Hi'].
  repeat split; [apply in_map; assumption | congruence | congruence].
Qed.

(** *** Rules for [keeps] *)

Lemma keeps_ret {A : Type} (P : env -> Prop) (a : A) : keeps P (ret a).
Proof. intros e H. exact H. Qed.

Lemma keeps_throw {A : Type} (P : env -> Prop) (err : js_error) :
  keeps P (@throw A err).
Proof. intros e H. exact H. Qed.

Lemma keeps_lift {A : Type} (P : env -> Prop) (c : completion A) :
  keeps P (lift c).
Proof. intros e H. exact H. Qed.

Lemma keeps_bind {A B : Type} (P : env -> Prop) (m : M A) (k : A -> M B) :
  keeps P m -> (forall a, keeps P (k a)) -> keeps P (bind m k).
Proof.
  intros Hm Hk e H. specialize (Hm e H). unfold exec in *. cbn.
  destruct (m e) as [[a|err] e1]; cbn in *; [apply Hk|]; assumption.
Qed.

Lemma keeps_try_catch {A : Type} (P : env -> Prop) (m : M A)
    (h : js_error -> M A) :
  keeps P m -> (forall err, keeps P (h err)) -> keeps P (try_catch m h).
Proof.
  intros Hm Hh e H. specialize (Hm e H). unfold exec in *. cbn.
  destruct (m e) as [[a|err] e1]; cbn in *; [|apply Hh]; assumption.
Qed.

Lemma keeps_forEach {A : Type} (P : env -> Prop) (f : A -> M unit)
    (l : list A) :
  (forall x, keeps P (f x)) -> keeps P (forEach f l).
Proof.
  intros Hf. induction l as [|x l IH]; cbn [forEach].
  - apply keeps_ret.
  - apply keeps_bind; [apply Hf | intros _; exact IH].
Qed.

Lemma keeps_if {A : Type} (P : env -> Prop) (b : bool) (m1 m2 : M A) :
  keeps P m1 -> keeps P m2 -> keeps P (if b then m1 else m2).
Proof. destruct b; auto. Qed.

(** *** The table of a call *)

Lemma same_key_eq (a b : jsval) : same_key a b = true -> a = b.
Proof.
  destruct a as [[| x | x | x | |]|], b as [[| y | y | y | |]|]; cbn;
    try discriminate; try reflexivity; intros H.
  - apply Bool.eqb_prop in H. congruence.
  - apply Z.eqb_eq in H. congruence.
  - apply String.eqb_eq in H. congruence.
Qed.

Lemma Map_get_In {V : Type} (m : Map V) (k : jsval) (v : V) :
  Map_get m k = Some v -> In (k, v) m.
Proof.
  induction m as [|[k' v'] m IH]; cbn; [discriminate|].
  destruct (same_key k' k) eqn:E.
  - intros [= ->]. apply same_key_eq in E. subst. left. reflexivity.
  - intros H. right. apply IH. exact H.
Qed.

Lemma In_Map_set {V : Type} (m : Map V) (k : jsval) (v : V) (k' : jsval) (v' : V) :
  In (k', v') (Map_set m k v) ->
  In (k', v') m \/ k' = k.
Proof.
  induction m as [|[k0 v0] m IH]; cbn.
  - intros [[= <- <-]|[]]. right. reflexivity.
  - destruct (same_key k0 k) eqn:E; cbn.
    + intros [[= <- <-]|H]; [|left; right; exact H].
      right. apply same_key_eq. exact E.
    + intros [H|H]; [left; left; exact H|].
      destruct (IH H) as [H1|H1]; [left; right; exact H1 | right; exact H1].
Qed.

Lemma call_ok_app (log extra : list Msg.t) (c : call) :
  call_ok log c -> call_ok (log ++ extra) c.
Proof.
  intros [H1 H2]. split.
  - intros cur Hc. destruct (H1 cur Hc) as (m & Hin & Hid).
    exists m. split; [apply in_or_app; left|]; assumption.
  - intros k te Hin. apply has_use_app. eapply H2. exact Hin.
Qed.

Lemma call_ok_map (f : Msg.t -> Msg.t) (log : list Msg.t) (c : call) :
  (forall m, Msg.id (f m) = Msg.id m) ->
  (forall m, Msg.type (f m) = Msg.type m /\ Msg.toolId (f m) = Msg.toolId m) ->
  call_ok log c -> call_ok (map f log) c.
Proof.
  intros Hid Hf [H1 H2]. split.
  - intros cur Hc. destruct (H1 cur Hc) as (m & Hin & Hm).
    exists (f m). split; [apply in_map; assumption | rewrite Hid; assumption].
  - intros k te Hin. apply has_use_map; [assumption|]. eapply H2. exact Hin.
Qed.

Lemma sound_snoc (others : list call) (log : list Msg.t) (m : Msg.t)
    (c : call) (inp : string) (gen : bool) (tools : Map ToolExecution.t)
    (n n' : nat) (inp' : string) (gen' : bool) (tools' : Map ToolExecution.t) :
  sound others (Env (Component log inp gen tools) c n) ->
  (Msg.type m = type_tool_result -> Msg.toolId m <> None ->
   has_use (Msg.toolId m) log) ->
  sound others (Env (Component (log ++ [m]) inp' gen' tools') c n').
Proof.
  intros (Ho & Hc & Hs) Hm. unfold sound; cbn in *. repeat split.
  - apply ordered_snoc; assumption.
  - apply call_ok_app, Hc.
  - apply call_ok_app, Hc.
  - eapply Forall_impl; [|exact Hs]. intros a. apply call_ok_app.
Qed.

Lemma update_content_preserves (cur : option Msg.t) (v : jsval) (m : Msg.t) :
  let f := fun msg =>
    match cur with
    | Some c => if Msg.id msg =? Msg.id c then Msg.with_content v msg else msg
    | None => msg
    end in
  Msg.id (f m) = Msg.id m /\ Msg.type (f m) = Msg.type m /\
  Msg.toolId (f m) = Msg.toolId m.
Proof.
  cbn. destruct cur as [c|]; [|auto].
  destruct (Msg.id m =? Msg.id c); auto.
Qed.

Lemma sound_update_content (others : list call) (log : list Msg.t)
    (cur : option Msg.t) (v : jsval)
    (c : call) (inp : string) (gen : bool) (tools : Map ToolExecution.t)
    (n : nat) :
  sound others (Env (Component log inp gen tools) c n) ->
  sound others (Env (Component (update_content cur v log) inp gen tools) c n).
Proof.
  intros (Ho & Hc & Hs). unfold sound, update_content; cbn in *.
  pose proof (update_content_preserves cur v) as Hp. cbn in Hp.
  repeat split.
  - apply ordered_map; [intros m; split; apply Hp | assumption].
  - apply (call_ok_map _ log c); [intros m; apply Hp | intros m; split; apply Hp |].
    exact Hc.
  - apply (call_ok_map _ log c); [intros m; apply Hp | intros m; split; apply Hp |].
    exact Hc.
  - eapply Forall_impl; [|exact Hs]. intros a.
    apply call_ok_map; [intros m; apply Hp | intros m; split; apply Hp].
Qed.

Lemma Map_get_set_same {V : Type} (m : Map V) (k : string) (v : V) :
  Map_get (Map_set m (str k) v) (str k) = Some v.
Proof.
  induction m as [|[k0 v0] m IH]; cbn.
  - rewrite String.eqb_refl. reflexivity.
  - destruct (same_key k0 (str k)) eqn:E; cbn; rewrite E; [reflexivity|exact IH].
Qed.

Lemma Map_get_set_other {V : Type} (m : Map V) (k k' : jsval) (v : V) :
  k <> k' -> Map_get (Map_set m k v) k' = Map_get m k'.
Proof.
  intros Hne. induction m as [|[k0 v0] m IH]; cbn.
  - destruct (same_key k k') eqn:E; [|reflexivity].
    apply same_key_eq in E. contradiction.
  - destruct (same_key k0 k) eqn:E; cbn.
    + destruct (same_key k0 k') eqn:E'; [|reflexivity].
      apply same_key_eq in E, E'. congruence.
    + destruct (same_key k0 k'); [reflexivity|exact IH].
Qed.

(** *** Tool events and the trace of a log *)

Lemma uses_app (a b : list tool_event) : uses (a ++ b) = (uses a ++ uses b)%list.
Proof.
  induction a as [|[k n i|k c i] a IH]; cbn; [reflexivity| |]; rewrite IH; reflexivity.
Qed.

Lemma results_app (a b : list tool_event) :
  results (a ++ b) = (results a ++ results b)%list.
Proof.
  induction a as [|[k n i|k c i] a IH]; cbn; [reflexivity| |]; rewrite IH; reflexivity.
Qed.

Lemma In_results_split (k : string) (evs : list tool_event) :
  In k (results evs) ->
  exists before content is_error after,
    evs = (before ++ Res k content is_error :: after)%list.
Proof.
  induction evs as [|[k0 n i|k0 c i] evs IH]; cbn; [contradiction| |].
  - intros H. destruct (IH H) as (b & c & ie & a & ->).
    exists (Use k0 n i :: b), c, ie, a. reflexivity.
  - intros [->|H].
    + exists [], c, i, evs. reflexivity.
    + destruct (IH H) as (b & c' & ie & a & ->).
      exists (Res k0 c i :: b), c', ie, a. reflexivity.
Qed.

Lemma In_uses_split (k : string) (evs : list tool_event) :
  In k (uses evs) ->
  exists before name input after,
    evs = (before ++ Use k name input :: after)%list.
Proof.
  induction evs as [|[k0 n i|k0 c i] evs IH]; cbn; [contradiction| |].
  - intros [->|H].
    + exists [], n, i, evs. reflexivity.
    + destruct (IH H) as (b & n' & i' & a & ->).
      exists (Use k0 n i :: b), n', i', a. reflexivity.
  - intros H. destruct (IH H) as (b & n' & i' & a & ->).
    exists (Res k0 c i :: b), n', i', a. reflexivity.
Qed.

Lemma results_follow_prefix (a b : list tool_event) :
  results_follow (a ++ b) -> results_follow a.
Proof.
  intros H before k c i after Heq. apply (H before k c i (after ++ b)%list).
  rewrite Heq, <- app_assoc. reflexivity.
Qed.

Lemma tool_trace_app (a b : list Msg.t) :
  tool_trace (a ++ b) = (tool_trace a ++ tool_trace b)%list.
Proof.
  induction a as [|m a IH]; cbn; [reflexivity|].
  destruct (Msg.toolId m); cbn; rewrite IH; reflexivity.
Qed.

Lemma tool_trace_silent (l : list Msg.t) :
  Forall (fun x => Msg.toolId x = None) l -> tool_trace l = [].
Proof.
  induction 1 as [|m l Hm _ IH]; cbn; [reflexivity|]. rewrite Hm. exact IH.
Qed.

Lemma tool_trace_split (log : list Msg.t) (t1 t2 : list (message_type * jsval))
    (x : message_type * jsval) :
  tool_trace log = (t1 ++ x :: t2)%list ->
  exists l1 m l2,
    log = (l1 ++ m :: l2)%list /\ tool_trace l1 = t1 /\
    (Msg.type m, Msg.toolId m) = x /\ tool_trace l2 = t2.
Proof.
  revert t1. induction log as [|m log IH]; intros t1; cbn.
  - intros H. destruct t1; discriminate.
  - destruct (Msg.toolId m) as [j|] eqn:Hid.
    + destruct t1 as [|y t1]; cbn.
      * intros [= <- <-]. exists [], m, log. rewrite Hid. repeat split.
      * intros [= <- H]. destruct (IH t1 H) as (l1 & m' & l2 & -> & H1 & H2 & H3).
        exists (m :: l1), m', l2. cbn. rewrite Hid, H1. repeat split; assumption.
    + intros H. destruct (IH t1 H) as (l1 & m' & l2 & -> & H1 & H2 & H3).
      exists (m :: l1), m', l2. cbn. rewrite Hid. repeat split; assumption.
Qed.

Lemma count_trace (ty : message_type) (k : string) (log : list Msg.t) :
  count (fun m => andb (message_type_eqb (Msg.type m) ty)
                       (same_key (Msg.toolId m) (str k))) log
  = List.length (filter (key_is ty k) (tool_trace log)).
Proof.
  unfold count. induction log as [|m log IH]; cbn; [reflexivity|].
  destruct (Msg.toolId m) as [j|] eqn:Hid; cbn.
  - unfold key_is at 1. cbn.
    destruct (_ && _)%bool; cbn; try f_equal; exact IH.
  - rewrite andb_false_r. exact IH.
Qed.

Lemma count_uses (k : string) (evs : list tool_event) :
  List.length (filter (key_is type_tool_use k) (map event_key evs))
  = count_occ string_dec (uses evs) k.
Proof.
  induction evs as [|[k0 n i|k0 c i] evs IH]; cbn; [reflexivity| |].
  - unfold key_is at 1. cbn.
    destruct (String.eqb_spec k0 k), (string_dec k0 k); try contradiction; cbn;
      try f_equal; exact IH.
  - exact IH.
Qed.

Lemma count_results (k : string) (evs : list tool_event) :
  List.length (filter (key_is type_tool_result k) (map event_key evs))
  = count_occ string_dec (results evs) k.
Proof.
  induction evs as [|[k0 n i|k0 c i] evs IH]; cbn; [reflexivity| |].
  - exact IH.
  - unfold key_is at 1. cbn.
    destruct (String.eqb_spec k0 k), (string_dec k0 k); try contradiction; cbn;
      try f_equal; exact IH.
Qed.

Section Facts.
Variable clock : nat -> Z.
Variable JSON_parse : string -> option json.

Local Abbreviation on_data := (Enhanced.on_data clock JSON_parse).
Local Abbreviation on_line := (Enhanced.on_line clock JSON_parse).
Local Abbreviation handle_parsed := (Enhanced.handle_parsed clock).
Local Abbreviation decodes := (Spec.decodes JSON_parse).

Lemma addMessage_spec (m : Msg.t) (e : env) :
  exists i ts n,
    Enhanced.addMessage clock m e
    = (Normal tt,
       Env (Component (messages (ui e) ++ [Msg.with_id_timestamp i ts m])
                      (input (ui e)) (isGenerating (ui e)) (toolExecutions (ui e)))
           (me e) n) /\
    (Msg.id m <> "" -> i = Msg.id m).
Proof.
  unfold Enhanced.addMessage.
  destruct (String.eqb_spec (Msg.id m) ""); destruct (Msg.timestamp m =? 0)%Z;
    cbn; eexists _, _, _; (split; [reflexivity|]); intros H; congruence.
Qed.

Lemma on_line_data (d : string) (e : env) :
  d <> "[DONE]" -> on_line (data_line d) e = on_data d e.
Proof.
  intros H. unfold Enhanced.on_line, data_line. cbn.
  destruct (String.eqb_spec d "[DONE]"); [contradiction | reflexivity].
Qed.

Lemma on_line_decodes (line : string) (parsed : json) (e : env) :
  decodes line parsed ->
  on_line line e = try_catch (handle_parsed parsed) (fun _ => ret tt) e.
Proof.
  intros (d & -> & Hd & Hp). rewrite on_line_data by assumption.
  unfold Enhanced.on_data. rewrite Hp. reflexivity.
Qed.

Lemma on_data_normal (d : string) (e : env) : fst (on_data d e) = Normal tt.
Proof. unfold Enhanced.on_data. apply try_catch_ret_normal. Qed.

Lemma on_line_normal (line : string) (e : env) : fst (on_line line e) = Normal tt.
Proof.
  unfold Enhanced.on_line.
  destruct (startsWith "data: " line); [|reflexivity].
  destruct (slice 6 line =? "[DONE]"); [reflexivity|apply on_data_normal].
Qed.

Lemma forEach_on_line_normal (lines : list string) (e : env) :
  fst (forEach on_line lines e) = Normal tt.
Proof.
  revert e. induction lines as [|l ls IH]; intros e; [reflexivity|].
  cbn [forEach]. unfold bind.
  pose proof (on_line_normal l e) as H.
  destruct (on_line l e) as [[[]|err] e1]; cbn in H; [apply IH | discriminate].
Qed.

Lemma on_line_malformed (data : string) (e : env) :
  data <> "[DONE]" -> JSON_parse data = None ->
  on_line (data_line data) e = (Normal tt, e).
Proof.
  intros Hd Hp. rewrite on_line_data by assumption.
  unfold Enhanced.on_data. rewrite Hp. reflexivity.
Qed.

Lemma handle_unmatched_result
    (parsed item : json) (k content is_error : jsval) (e : env) :
  envelope "user" [item] parsed ->
  tool_result_item k content is_error item ->
  Map_get (currentToolExecutions (me e)) k = None ->
  handle_parsed parsed e = (Normal tt, e).
Proof.
  intros (Hty & data & msg & Hdata & Hrole & Hmsg & Hcontent)
         (Hity & Hik & _ & _) Hget.
  unfold Enhanced.handle_parsed.
  assert (Hnn : parsed <> JNull) by (eapply field_not_null; exact Hdata).
  rewrite (get_field parsed "type" Hnn), Hty. cbn.
  unfold case_debug. rewrite Hdata, !get_opt_field, Hrole, Hmsg.
  rewrite !get_opt_field, Hcontent. cbn.
  unfold on_user_item.
  rewrite (get_field item "type") by (intros ->; discriminate).
  rewrite Hity, Hik. cbn.
  destruct (truthy k); cbn; [|reflexivity].
  rewrite Hget. reflexivity.
Qed.

(** *** What a tool event does *)

Lemma handle_use (parsed : json) (k name : string) (input : jsval) (e : env) :
  encodes (Use k name input) parsed ->
  exists m te n,
    handle_parsed parsed e
    = (Normal tt,
       Env (Component (messages (ui e) ++ [m]) (Enhanced.input (ui e))
              (isGenerating (ui e))
              (Map_set (toolExecutions (ui e)) (str k) te))
           (Call (phase_of (me e)) (currentAssistantMessage (me e))
              (Map_set (currentToolExecutions (me e)) (str k) te))
           n) /\
    Msg.type m = type_tool_use /\ Msg.toolId m = str k /\
    Msg.toolName m = str name /\ Msg.toolInput m = input /\
    ToolExecution.isComplete te = false /\
    ToolExecution.name te = str name /\ ToolExecution.input te = input.
Proof.
  intros (item & (Hty & data & msg & Hdata & Hrole & Hmsg & Hcontent)
               & (Hity & Hik & Hin & Hii)).
  unfold Enhanced.handle_parsed.
  assert (Hnn : parsed <> JNull) by (eapply field_not_null; exact Hdata).
  rewrite (get_field parsed "type" Hnn), Hty. cbn.
  unfold case_debug. rewrite Hdata, !get_opt_field, Hrole, Hmsg.
  rewrite !get_opt_field, Hcontent. cbn.
  unfold on_assistant_item.
  rewrite (get_field item "type") by (intros ->; discriminate).
  rewrite Hity, Hik, Hin, Hii. cbn.
  match goal with
  | |- context [Enhanced.addMessage clock ?m ?e0] =>
      destruct (addMessage_spec m e0) as (i & ts & n & Heq & Hi)
  end.
  rewrite Heq. cbn.
  eexists _, _, _. split; [reflexivity|]. cbn. repeat split.
Qed.

Lemma handle_result (parsed : json) (k : string) (content is_error : jsval)
    (te : ToolExecution.t) (e : env) :
  encodes (Res k content is_error) parsed ->
  k <> "" ->
  Map_get (currentToolExecutions (me e)) (str k) = Some te ->
  exists m extra te' n,
    try_catch (handle_parsed parsed) (fun _ => ret tt) e
    = (Normal tt,
       Env (Component (messages (ui e) ++ m :: extra) (Enhanced.input (ui e))
              (isGenerating (ui e))
              (Map_set (toolExecutions (ui e)) (str k) te'))
           (Call (phase_of (me e)) (currentAssistantMessage (me e))
              (Map_set (currentToolExecutions (me e)) (str k) te'))
           n) /\
    Msg.type m = type_tool_result /\ Msg.toolId m = str k /\
    Msg.toolName m = ToolExecution.name te /\
    Msg.toolInput m = ToolExecution.input te /\
    Msg.toolResult m = content /\
    Forall (fun x => Msg.toolId x = None) extra /\
    ToolExecution.isComplete te' = true /\
    ToolExecution.name te' = ToolExecution.name te /\
    ToolExecution.result te' = content.
Proof.
  intros (item & (Hty & data & msg & Hdata & Hrole & Hmsg & Hcontent)
               & (Hity & Hik & Hic & Hie)) Hk Hget.
  unfold Enhanced.handle_parsed.
  assert (Hnn : parsed <> JNull) by (eapply field_not_null; exact Hdata).
  cbn [try_catch bind lift].
  rewrite (get_field parsed "type" Hnn), Hty. cbn.
  unfold case_debug. rewrite Hdata, !get_opt_field, Hrole, Hmsg.
  rewrite !get_opt_field, Hcontent. cbn.
  unfold on_user_item.
  rewrite (get_field item "type") by (intros ->; discriminate).
  rewrite Hity, Hik, Hic, Hie. cbn.
  destruct (String.eqb_spec k "") as [|_]; [contradiction|]. cbn.
  rewrite Hget. cbn.
  match goal with
  | |- context [Enhanced.addMessage clock ?m ?e0] =>
      destruct (addMessage_spec m e0) as (i & ts & n & Heq & Hi)
  end.
  rewrite Heq. clear Heq. cbn.
  destruct (name_toLowerCase (ToolExecution.name te)) as [lowered|err]; cbn.
  - destruct (lowered =? "todowrite"); cbn.
    + destruct (truthy (get_opt (ToolExecution.input te) "todos")); cbn.
      * match goal with
        | |- context [Enhanced.addMessage clock ?m ?e0] =>
            destruct (addMessage_spec m e0) as (i' & ts' & n' & Heq & Hi')
        end.
        rewrite Heq. clear Heq. cbn. rewrite <- app_assoc. cbn [app].
        eexists _, [_], _, _. split; [reflexivity|]. cbn.
        repeat split. constructor; [reflexivity|constructor].
      * eexists _, [], _, _. split; [reflexivity|]. cbn. repeat split. constructor.
    + eexists _, [], _, _. split; [reflexivity|]. cbn. repeat split. constructor.
  - eexists _, [], _, _. split; [reflexivity|]. cbn. repeat split. constructor.
Qed.

(** The result of an invocation the table has a record of, whatever the
    state of the record: a [tool_result] message is appended. *)
Lemma handle_recorded_result
    (parsed item : json) (k content is_error : jsval)
    (te : ToolExecution.t) (e : env) :
  envelope "user" [item] parsed ->
  tool_result_item k content is_error item ->
  truthy k = true ->
  Map_get (currentToolExecutions (me e)) k = Some te ->
  exists m extra e',
    try_catch (handle_parsed parsed) (fun _ => ret tt) e = (Normal tt, e') /\
    messages (ui e') = (messages (ui e) ++ m :: extra)%list /\
    Msg.type m = type_tool_result /\ Msg.toolId m = k /\
    Msg.toolName m = ToolExecution.name te /\
    Msg.toolResult m = content.
Proof.
  intros (Hty & data & msg & Hdata & Hrole & Hmsg & Hcontent)
         (Hity & Hik & Hic & Hie) Hk Hget.
  unfold Enhanced.handle_parsed.
  assert (Hnn : parsed <> JNull) by (eapply field_not_null; exact Hdata).
  cbn [try_catch bind lift].
  rewrite (get_field parsed "type" Hnn), Hty. cbn.
  unfold case_debug. rewrite Hdata, !get_opt_field, Hrole, Hmsg.
  rewrite !get_opt_field, Hcontent. cbn.
  unfold on_user_item.
  rewrite (get_field item "type") by (intros ->; discriminate).
  rewrite Hity, Hik, Hic, Hie. cbn. rewrite Hk. cbn.
  rewrite Hget. cbn.
  match goal with
  | |- context [Enhanced.addMessage clock ?m ?e0] =>
      destruct (addMessage_spec m e0) as (i & ts & n & Heq & Hi)
  end.
  rewrite Heq. clear Heq. cbn.
  destruct (name_toLowerCase (ToolExecution.name te)) as [lowered|err]; cbn.
  - destruct (lowered =? "todowrite"); cbn.
    + destruct (truthy (get_opt (ToolExecution.input te) "todos")); cbn.
      * match goal with
        | |- context [Enhanced.addMessage clock ?m ?e0] =>
            destruct (addMessage_spec m e0) as (i' & ts' & n' & Heq & Hi')
        end.
        rewrite Heq. clear Heq. cbn. rewrite <- app_assoc. cbn [app].
        eexists _, [_], _. split; [reflexivity|]. cbn. repeat split.
      * eexists _, [], _. split; [reflexivity|]. cbn. repeat split.
    + eexists _, [], _. split; [reflexivity|]. cbn. repeat split.
  - eexists _, [], _. split; [reflexivity|]. cbn. repeat split.
Qed.

(** A run of tool events whose results follow their starts: what it adds
    to the log, and what it leaves in the table of the call. *)
Lemma tool_run (evs : list tool_event) :
  forall (lines : list string) (e : env),
  Spec.carries JSON_parse lines evs ->
  results_follow evs -> NoDup (uses evs) -> ~ In "" (uses evs) ->
  exists added tools' table' n,
    forEach on_line lines e
    = (Normal tt,
       Env (Component (messages (ui e) ++ added) (Enhanced.input (ui e))
              (isGenerating (ui e)) tools')
           (Call (phase_of (me e)) (currentAssistantMessage (me e)) table')
           n) /\
    tool_trace added = map event_key evs /\
    (forall k, In k (uses evs) ->
       exists te, Map_get table' (str k) = Some te /\
                  (ToolExecution.isComplete te = true <-> In k (results evs))).
Proof.
  induction evs as [|ev evs0 IH] using rev_ind; intros lines e Hc Hf Hnd Hne.
  - inversion Hc; subst. exists [], (toolExecutions (ui e)),
      (currentToolExecutions (me e)), (ticks e).
    destruct e as [[log inp gen tools] [ph cur table] t]. cbn.
    rewrite app_nil_r. repeat split. intros k [].
  - apply Forall2_app_inv_r in Hc.
    destruct Hc as (lines0 & last & Hc0 & Hlast & ->).
    inversion Hlast as [|line ev' l1 l2 (parsed & Hdec & Henc) Htail]; subst.
    inversion Htail; subst.
    rewrite uses_app in Hnd, Hne.
    assert (Hnd0 : NoDup (uses evs0)) by (eapply NoDup_app_remove_r; exact Hnd).
    assert (Hne0 : ~ In "" (uses evs0)).
    { intros H. apply Hne. apply in_or_app. left. exact H. }
    destruct (IH lines0 e Hc0 (results_follow_prefix _ _ Hf) Hnd0 Hne0)
      as (added & tools1 & table1 & n1 & Hrun & Htrace & Htable).
    rewrite forEach_app. cbn [bind]. rewrite Hrun. cbn [forEach bind].
    rewrite (on_line_decodes line parsed _ Hdec).
    destruct ev as [k name input | k content is_error].
    + (* the start of invocation k *)
      destruct (handle_use parsed k name input
                  (Env (Component (messages (ui e) ++ added) (Enhanced.input (ui e))
                          (isGenerating (ui e)) tools1)
                       (Call (phase_of (me e)) (currentAssistantMessage (me e)) table1)
                       n1) Henc)
        as (m & te & n & Heq & Hty & Hid & _ & _ & Hcomplete & _).
      rewrite (try_catch_normal _ _ _ _ _ Heq). cbn.
      exists (added ++ [m])%list. eexists _, _, _.
      split; [rewrite <- app_assoc; reflexivity|].
      split.
      * rewrite tool_trace_app, map_app, Htrace. cbn. rewrite Hid, Hty. reflexivity.
      * intros k' Hin. rewrite uses_app in Hin. cbn in Hin.
        rewrite results_app. cbn. rewrite app_nil_r.
        destruct (string_dec k k') as [<-|Hkk].
        -- exists te. split; [apply Map_get_set_same|].
           rewrite Hcomplete. split; [discriminate|]. intros Hres. exfalso.
           destruct (In_results_split k evs0 Hres) as (b & c & ie & a & Hsplit).
           assert (Hb : In k (uses b)).
           { apply (Hf b k c ie (a ++ [Use k name input])%list).
             rewrite Hsplit, <- app_assoc. reflexivity. }
           cbn in Hnd. apply NoDup_remove_2 in Hnd. apply Hnd.
           rewrite app_nil_r, Hsplit, uses_app. apply in_or_app. left. exact Hb.
        -- rewrite Map_get_set_other by (unfold str; congruence).
           apply Htable. apply in_app_or in Hin. destruct Hin as [H|[H|[]]];
             [exact H | contradiction].
    + (* the result of invocation k *)
      assert (Hk : In k (uses evs0)).
      { apply (Hf evs0 k content is_error []). reflexivity. }
      destruct (Htable k Hk) as (te & Hget & _).
      assert (Hkne : k <> "") by (intros ->; apply Hne0; exact Hk).
      destruct (handle_result parsed k content is_error te
                  (Env (Component (messages (ui e) ++ added) (Enhanced.input (ui e))
                          (isGenerating (ui e)) tools1)
                       (Call (phase_of (me e)) (currentAssistantMessage (me e)) table1)
                       n1) Henc Hkne Hget)
        as (m & extra & te' & n & Heq & Hty & Hid & _ & _ & _ & Hextra & Hcomplete & _).
      rewrite Heq. cbn.
      exists (added ++ m :: extra)%list. eexists _, _, _.
      split; [rewrite <- app_assoc; reflexivity|].
      split.
      * rewrite tool_trace_app, map_app, Htrace. cbn. rewrite Hid, Hty.
        rewrite (tool_trace_silent extra Hextra). reflexivity.
      * intros k' Hin. rewrite uses_app in Hin. cbn in Hin. rewrite app_nil_r in Hin.
        rewrite results_app. cbn.
        destruct (string_dec k k') as [<-|Hkk].
        -- exists te'. split; [apply Map_get_set_same|].
           rewrite Hcomplete. split; [|reflexivity]. intros _.
           apply in_or_app. right. left. reflexivity.
        -- rewrite Map_get_set_other by (unfold str; congruence).
           destruct (Htable k' Hin) as (te0 & Hget0 & Hiff).
           exists te0. split; [exact Hget0|]. rewrite Hiff. split.
           ++ intros H. apply in_or_app. left. exact H.
           ++ intros H. apply in_app_or in H. destruct H as [H|[H|[]]];
                [exact H | contradiction].
Qed.

(** *** Every piece of [handleSubmit] keeps the invariant *)

Section Keeps.
Variable others : list call.

Lemma keeps_Date_now : keeps (sound others) (Date_now clock).
Proof. intros e H. exact H. Qed.

Lemma keeps_setIsGenerating (b : bool) : keeps (sound others) (setIsGenerating b).
Proof. intros e H. exact H. Qed.

Lemma keeps_setInput (s : string) : keeps (sound others) (setInput s).
Proof. intros e H. exact H. Qed.

Lemma keeps_setToolExecutions (f : Map ToolExecution.t -> Map ToolExecution.t) :
  keeps (sound others) (setToolExecutions f).
Proof. intros e H. exact H. Qed.

Lemma keeps_addMessage (m : Msg.t) :
  (Msg.type m = type_tool_result -> Msg.toolId m = None) ->
  keeps (sound others) (Enhanced.addMessage clock m).
Proof.
  intros Hm e H. unfold exec.
  destruct (addMessage_spec m e) as (i & ts & n & Heq & _). rewrite Heq. cbn.
  destruct e as [[log inp gen tools] c t]. cbn in *.
  eapply sound_snoc; [exact H|]. cbn. intros Ht Hid. elim Hid. auto.
Qed.

Ltac keeps_step :=
  first
    [ apply keeps_ret
    | apply keeps_Date_now
    | apply keeps_setIsGenerating
    | apply keeps_setInput
    | apply keeps_setToolExecutions
    | apply keeps_lift
    | apply keeps_throw
    | apply keeps_addMessage; cbn; discriminate
    | apply keeps_bind; [|intros ?]
    | apply keeps_if ].

Lemma keeps_case_init (parsed : json) :
  keeps (sound others) (Enhanced.case_init clock parsed).
Proof. unfold Enhanced.case_init. repeat keeps_step. Qed.

Lemma keeps_case_result (parsed : json) :
  keeps (sound others) (Enhanced.case_result clock parsed).
Proof. unfold Enhanced.case_result. repeat keeps_step. Qed.

Lemma keeps_case_error (parsed : json) :
  keeps (sound others) (Enhanced.case_error clock parsed).
Proof. unfold Enhanced.case_error. repeat keeps_step. Qed.

Lemma keeps_on_failure (err : js_error) :
  keeps (sound others) (Enhanced.on_failure clock err).
Proof. unfold Enhanced.on_failure. repeat keeps_step. Qed.

Lemma keeps_case_text (parsed : json) :
  keeps (sound others) (Enhanced.case_text clock parsed).
Proof.
  intros e H. unfold exec, Enhanced.case_text. cbn.
  destruct e as [[log inp gen tools] [ph cur table] t]. cbn in *.
  destruct cur as [c|]; cbn.
  - apply sound_update_content. exact H.
  - match goal with
    | |- context [Enhanced.addMessage clock ?m ?e0] =>
        destruct (addMessage_spec m e0) as (i & ts & n & Heq & Hi)
    end.
    rewrite Heq. cbn. cbn in Hi. rewrite Hi by discriminate.
    apply sound_update_content.
    destruct H as (Ho & [Hc1 Hc2] & Hs). unfold sound; cbn in *. repeat split.
    + apply ordered_snoc; [assumption|]. cbn. discriminate.
    + intros cur' [= <-]. eexists. split; [apply in_or_app; right; left; reflexivity|].
      reflexivity.
    + intros k te Hin. apply has_use_app. eapply Hc2. exact Hin.
    + eapply Forall_impl; [|exact Hs]. intros a. apply call_ok_app.
Qed.

Ltac use_addMessage_spec :=
  match goal with
  | |- context [Enhanced.addMessage clock ?m ?e0] =>
      let i := fresh "i" in
      let ts := fresh "ts" in
      let n := fresh "n" in
      let Heq := fresh "Heq" in
      let Hi := fresh "Hi" in
      destruct (addMessage_spec m e0) as (i & ts & n & Heq & Hi);
      rewrite Heq; clear Heq; cbn; cbn in Hi
  end.

Lemma keeps_on_assistant_item (item : json) :
  keeps (sound others) (Enhanced.on_assistant_item clock item).
Proof.
  intros e H. unfold exec, Enhanced.on_assistant_item. cbn.
  destruct (get (Some item) "type") as [ty|err]; cbn; [|exact H].
  destruct (is_str ty "tool_use"); cbn; [|exact H].
  use_addMessage_spec.
  destruct e as [[log inp gen tools] [ph cur table] t]. cbn in *.
  destruct H as (Ho & [Hc1 Hc2] & Hs). unfold sound; cbn. repeat split.
  - apply ordered_snoc; [assumption|]. cbn. discriminate.
  - intros c Hc. destruct (Hc1 c Hc) as (m & Hin & Hid).
    exists m. split; [apply in_or_app; left|]; assumption.
  - intros k te Hin. apply In_Map_set in Hin. destruct Hin as [Hin| ->].
    + apply has_use_app. eapply Hc2. exact Hin.
    + eexists. split; [apply in_or_app; right; left; reflexivity|].
      cbn. split; reflexivity.
  - eapply Forall_impl; [|exact Hs]. intros a. apply call_ok_app.
Qed.

Lemma keeps_on_user_item (item : json) :
  keeps (sound others) (Enhanced.on_user_item clock item).
Proof.
  intros e H. unfold exec, Enhanced.on_user_item. cbn.
  destruct (get (Some item) "type") as [ty|err]; cbn; [|exact H].
  destruct (is_str ty "tool_result" && truthy (field item "tool_use_id"));
    cbn; [|exact H].
  destruct (Map_get (currentToolExecutions (me e)) (field item "tool_use_id"))
    as [te|] eqn:Hget; cbn; [|exact H].
  use_addMessage_spec.
  destruct e as [[log inp gen tools] [ph cur table] t]. cbn in *.
  assert (Huse : has_use (field item "tool_use_id") log).
  { destruct H as (_ & [_ Hc2] & _). cbn in Hc2.
    eapply Hc2. apply Map_get_In. exact Hget. }
  match goal with
  | |- context [match name_toLowerCase _ with
                | Normal _ => _
                | Thrown err => (Thrown err, ?E2)
                end] => assert (H2 : sound others E2)
  end.
  { destruct H as (Ho & [Hc1 Hc2] & Hs). unfold sound; cbn in *. repeat split.
    - apply ordered_snoc; [assumption|]. cbn. intros _ _. exact Huse.
    - intros c Hc. destruct (Hc1 c Hc) as (m & Hin & Hid).
      exists m. split; [apply in_or_app; left|]; assumption.
    - intros k te' Hin. apply In_Map_set in Hin. destruct Hin as [Hin| ->].
      + apply has_use_app. eapply Hc2. exact Hin.
      + apply has_use_app. exact Huse.
    - eapply Forall_impl; [|exact Hs]. intros a. apply call_ok_app. }
  destruct (name_toLowerCase (ToolExecution.name te)) as [lowered|err]; cbn;
    [|exact H2].
  destruct (lowered =? "todowrite"); cbn; [|exact H2].
  destruct (truthy (get_opt (ToolExecution.input te) "todos")); cbn; [|exact H2].
  use_addMessage_spec.
  eapply sound_snoc; [exact H2|]. cbn. intros _ Hid. elim Hid. reflexivity.
Qed.

Lemma keeps_case_debug (parsed : json) :
  keeps (sound others) (Enhanced.case_debug clock parsed).
Proof.
  unfold Enhanced.case_debug.
  apply keeps_bind; [|intros _]; apply keeps_if; try apply keeps_ret;
    destruct (as_array _); try apply keeps_ret; apply keeps_forEach.
  - apply keeps_on_assistant_item.
  - apply keeps_on_user_item.
Qed.

Lemma keeps_handle_parsed (parsed : json) :
  keeps (sound others) (Enhanced.handle_parsed clock parsed).
Proof.
  unfold Enhanced.handle_parsed.
  apply keeps_bind; [apply keeps_lift|intros ty].
  repeat apply keeps_if.
  - apply keeps_case_init.
  - apply keeps_case_text.
  - apply keeps_case_result.
  - apply keeps_case_debug.
  - apply keeps_case_error.
  - apply keeps_ret.
Qed.

Lemma keeps_on_line (line : string) : keeps (sound others) (on_line line).
Proof.
  unfold Enhanced.on_line, Enhanced.on_data.
  repeat apply keeps_if; try apply keeps_ret; try apply keeps_setIsGenerating.
  apply keeps_try_catch; [|intros _; apply keeps_ret].
  destruct (JSON_parse _); [apply keeps_handle_parsed | apply keeps_throw].
Qed.

Lemma keeps_enter (p : phase) : keeps (sound others) (enter p).
Proof.
  intros e (Ho & [H1 H2] & Hs). unfold exec, sound. cbn. repeat split; assumption.
Qed.

Lemma keeps_on_read (chunk : string) :
  keeps (sound others) (Enhanced.on_read clock JSON_parse chunk).
Proof.
  unfold Enhanced.on_read, Enhanced.on_chunk.
  apply keeps_try_catch.
  - apply keeps_forEach. apply keeps_on_line.
  - intros err. apply keeps_bind; [apply keeps_on_failure|intros _; apply keeps_enter].
Qed.

Lemma keeps_on_fetch (o : fetch_outcome) :
  keeps (sound others) (Enhanced.on_fetch clock o).
Proof.
  unfold Enhanced.on_fetch. destruct o as [err|ok status has_reader].
  - apply keeps_bind; [apply keeps_on_failure|intros _; apply keeps_enter].
  - repeat apply keeps_if;
      try (apply keeps_bind; [apply keeps_on_failure|intros _; apply keeps_enter]).
    intros e (Ho & _ & Hs). unfold exec, sound. cbn. repeat split; try assumption.
    + intros cur [=].
    + intros k te [].
Qed.

Lemma keeps_when_in (p : phase) (m : M unit) :
  keeps (sound others) m -> keeps (sound others) (when_in p m).
Proof.
  intros Hm. unfold when_in. intros e H. unfold exec. cbn.
  destruct p, (phase_of (me e)); try exact H; apply Hm; exact H.
Qed.

Lemma keeps_handleSubmit_begin (trim : string -> string)
    (currentProject : option string) :
  keeps (sound others) (Enhanced.handleSubmit_begin clock trim currentProject).
Proof.
  unfold Enhanced.handleSubmit_begin. intros e H. unfold exec. cbn.
  destruct (_ || _ || _)%bool; cbn.
  - apply (keeps_enter Returned e H).
  - use_addMessage_spec.
    destruct e as [[log inp gen tools] c t]. cbn in *.
    eapply sound_snoc; [exact H|]. cbn. discriminate.
Qed.

End Keeps.

(** *** No piece of the read loop appends a [debug] message *)

Section NoDebug.

Lemma quiet_untouched {A : Type} (m : M A) :
  (forall e, messages (ui (exec m e)) = messages (ui e)) -> keeps no_debug m.
Proof. intros H e He. unfold no_debug. rewrite H. exact He. Qed.

Lemma quiet_addMessage (m : Msg.t) :
  Msg.type m <> type_debug -> keeps no_debug (Enhanced.addMessage clock m).
Proof.
  intros Hm e He. unfold exec, no_debug.
  destruct (addMessage_spec m e) as (i & ts & n & Heq & _). rewrite Heq. cbn.
  apply Forall_app. split; [exact He|]. constructor; [exact Hm|constructor].
Qed.

Lemma quiet_update_content (cur : option Msg.t) (v : jsval) :
  keeps no_debug (setMessages (update_content cur v)).
Proof.
  intros e He. unfold exec, no_debug. cbn. unfold update_content.
  apply Forall_map. eapply Forall_impl; [|exact He]. intros m Hm.
  rewrite (proj1 (proj2 (update_content_preserves cur v m))). exact Hm.
Qed.

Ltac quiet :=
  repeat first
    [ apply keeps_ret
    | apply keeps_lift
    | apply keeps_throw
    | apply quiet_update_content
    | apply quiet_addMessage; cbn; discriminate
    | apply quiet_untouched; intros ?; reflexivity
    | apply keeps_bind; [|intros ?]
    | apply keeps_try_catch; [|intros ?]
    | apply keeps_if
    | apply keeps_forEach; intros ?
    | match goal with
      | |- keeps _ (match ?x with _ => _ end) => destruct x
      end ].

Lemma quiet_handle_parsed (parsed : json) :
  keeps no_debug (handle_parsed parsed).
Proof.
  unfold Enhanced.handle_parsed, Enhanced.case_init, Enhanced.case_text,
    Enhanced.case_result, Enhanced.case_debug, Enhanced.case_error,
    Enhanced.on_assistant_item, Enhanced.on_user_item.
  quiet.
Qed.

Lemma quiet_on_line (line : string) : keeps no_debug (on_line line).
Proof.
  unfold Enhanced.on_line, Enhanced.on_data.
  repeat apply keeps_if; try (apply quiet_untouched; intros ?; reflexivity);
    try apply keeps_ret.
  apply keeps_try_catch; [|intros _; apply keeps_ret].
  destruct (JSON_parse _); [apply quiet_handle_parsed | apply keeps_throw].
Qed.

End NoDebug.

(** *** The component keeps its invariant *)

Section World.
Variable trim : string -> string.

Local Abbreviation step := (Enhanced.step clock JSON_parse trim).
Local Abbreviation reachable := (Enhanced.reachable clock JSON_parse trim).

Lemma Forall_set_nth {A : Type} (P : A -> Prop) (i : nat) (x : A) (l : list A) :
  Forall P l -> P x -> Forall P (set_nth i x l).
Proof.
  intros Hl Hx. revert i. induction Hl as [|y l Hy Hl IH]; intros [|i]; cbn;
    constructor; auto.
Qed.

Lemma run_call_ok (i : nat) (m : M unit) (w : world) :
  (forall others, keeps (sound others) m) ->
  world_ok w -> world_ok (run_call i m w).
Proof.
  intros Hm [Ho Hc]. unfold run_call.
  destruct (nth_error (calls w) i) as [c|] eqn:Hnth; [|split; assumption].
  assert (Hs : sound (calls w) (Env (page w) c (readings w))).
  { unfold sound. cbn. repeat split; try assumption.
    - eapply (proj1 (Forall_forall _ _) Hc). eapply nth_error_In. exact Hnth.
    - eapply (proj1 (Forall_forall _ _) Hc). eapply nth_error_In. exact Hnth. }
  apply (Hm (calls w)) in Hs. unfold exec in Hs.
  destruct Hs as (Ho' & Hc' & Hs'). split; cbn; [assumption|].
  apply Forall_set_nth; assumption.
Qed.

Lemma step_ok (w : world) (a : action) : world_ok w -> world_ok (step w a).
Proof.
  intros H. destruct a; cbn [Enhanced.step].
  - exact H.
  - apply run_call_ok.
    + intros others. apply keeps_handleSubmit_begin.
    + destruct H as [Ho Hc]. split; cbn; [assumption|].
      apply Forall_app. split; [assumption|]. constructor; [|constructor].
      split; cbn; [intros cur [=] | intros k te []].
  - apply run_call_ok; [|exact H]. intros others.
    apply keeps_when_in, keeps_on_fetch.
  - apply run_call_ok; [|exact H]. intros others.
    apply keeps_when_in, keeps_on_read.
  - apply run_call_ok; [|exact H]. intros others.
    apply keeps_when_in, keeps_enter.
  - apply run_call_ok; [|exact H]. intros others.
    apply keeps_when_in, keeps_bind; [apply keeps_on_failure|intros _; apply keeps_enter].
  - exact H.
Qed.

Lemma reachable_ok (w : world) : reachable w -> world_ok w.
Proof.
  induction 1 as [|w a _ IH].
  - split; cbn; [apply ordered_nil | constructor].
  - apply step_ok. exact IH.
Qed.

Lemma reachable_run (w : world) (actions : list action) :
  reachable w -> reachable (Enhanced.run clock JSON_parse trim w actions).
Proof.
  revert w. induction actions as [|a actions IH]; intros w H; cbn; [exact H|].
  apply IH. constructor. exact H.
Qed.

Lemma arises_sound (e : env) :
  arises clock JSON_parse trim e -> exists others, sound others e.
Proof.
  intros (w & i & c & Hr & Hnth & ->). exists (calls w).
  destruct (reachable_ok w Hr) as [Ho Hc].
  assert (Hcc : call_ok (messages (page w)) c).
  { eapply (proj1 (Forall_forall _ _) Hc). eapply nth_error_In. exact Hnth. }
  unfold sound. cbn. repeat split; try assumption; apply Hcc.
Qed.

(** *** The order of tool messages (C4) *)

Lemma use_ids_app (a b : list Msg.t) :
  use_ids (a ++ b) = (use_ids a ++ use_ids b)%list.
Proof.
  induction a as [|m a IH]; cbn; [reflexivity|].
  destruct (Msg.type m); cbn; rewrite IH; reflexivity.
Qed.

Lemma In_use_ids (u : Msg.t) (log : list Msg.t) :
  In u log -> Msg.type u = type_tool_use -> In (Msg.toolId u) (use_ids log).
Proof.
  intros Hin Ht. induction log as [|m log IH]; [contradiction|].
  cbn. destruct Hin as [->|Hin].
  - rewrite Ht. left. reflexivity.
  - destruct (Msg.type m); try (apply IH; assumption). right. apply IH. assumption.
Qed.

Lemma ordered_never_before (log : list Msg.t) :
  ordered log -> NoDup (use_ids log) -> never_before log.
Proof.
  intros Ho Hnd before r between u after Heq Hr Hu Hid Hsame.
  destruct (Ho before r (between ++ u :: after)%list Heq Hr Hid)
    as (u0 & Hin0 & Ht0 & Hi0).
  rewrite Heq, use_ids_app in Hnd.
  apply (In_use_ids u0 before Hin0) in Ht0.
  assert (Hin1 : In (Msg.toolId u) (use_ids (r :: between ++ u :: after))).
  { apply In_use_ids; [|exact Hu]. right. apply in_or_app. right. left. reflexivity. }
  rewrite Hi0, Hsame in Ht0.
  revert Hnd Ht0 Hin1. generalize (use_ids before) (use_ids (r :: between ++ u :: after)).
  intros l1 l2 Hnd H1 H2. induction l1 as [|x l1 IH]; [contradiction|].
  cbn in Hnd. inversion Hnd as [|? ? Hx Hnd']; subst.
  destruct H1 as [->|H1]; [|apply IH; assumption].
  apply Hx. apply in_or_app. right. exact H2.
Qed.

(** *** Text events (C1) *)

Lemma update_content_content (c : Msg.t) (v : jsval) (log : list Msg.t)
    (m : Msg.t) :
  In m (update_content (Some c) v log) -> Msg.id m = Msg.id c ->
  Msg.content m = v.
Proof.
  unfold update_content. intros Hin Hid. apply in_map_iff in Hin.
  destruct Hin as (m0 & <- & _).
  destruct (String.eqb_spec (Msg.id m0) (Msg.id c)) as [E|E]; [reflexivity|].
  contradiction.
Qed.

Lemma update_content_keeps (cur : option Msg.t) (v : jsval) (log : list Msg.t)
    (m : Msg.t) :
  In m log ->
  exists m', In m' (update_content cur v log) /\ Msg.id m' = Msg.id m.
Proof.
  intros Hin. eexists. split; [unfold update_content; apply in_map; exact Hin|].
  apply (update_content_preserves cur v m).
Qed.

Lemma exec_forEach_snoc (before : list string) (line : string) (e : env) :
  exec (forEach on_line (before ++ [line])) e
  = exec (on_line line) (exec (forEach on_line before) e).
Proof.
  unfold exec. rewrite forEach_app. cbn.
  pose proof (forEach_on_line_normal before e) as Hn.
  destruct (forEach on_line before e) as [[[]|err] e1]; cbn in *; [|discriminate].
  destruct (on_line line e1) as [[[]|err] e2]; reflexivity.
Qed.

Lemma handle_text (parsed : json) (e : env) :
  field parsed "type" = str "text" ->
  handle_parsed parsed e = Enhanced.case_text clock parsed e.
Proof.
  intros Hty. unfold Enhanced.handle_parsed.
  rewrite get_field by (intros ->; discriminate). rewrite Hty. reflexivity.
Qed.

Lemma case_text_full (others : list call) (parsed : json) (s : string) (e : env) :
  sound others e ->
  field parsed "fullText" = str s -> s <> "" ->
  exists e', Enhanced.case_text clock parsed e = (Normal tt, e') /\
  exists cur,
    currentAssistantMessage (me e') = Some cur /\
    (exists m, In m (messages (ui e')) /\ Msg.id m = Msg.id cur) /\
    (forall m, In m (messages (ui e')) -> Msg.id m = Msg.id cur ->
               Msg.content m = str s).
Proof.
  intros (_ & [Hreg _] & _) Hfull Hs.
  assert (Hor : or_else (field parsed "fullText") (field parsed "text") = str s).
  { rewrite Hfull. unfold or_else. cbn.
    destruct (String.eqb_spec s ""); [contradiction|reflexivity]. }
  unfold Enhanced.case_text. rewrite Hor. cbn.
  destruct e as [[log inp gen tools] [ph cur table] t]. cbn in *.
  destruct cur as [c|]; cbn.
  - eexists. split; [reflexivity|]. exists c. cbn. split; [reflexivity|]. split.
    + destruct (Hreg c eq_refl) as (m & Hin & Hid).
      destruct (update_content_keeps (Some c) (str s) log m Hin) as (m' & Hin' & Hid').
      exists m'. split; [assumption|congruence].
    + apply update_content_content.
  - match goal with
    | |- context [Enhanced.addMessage clock ?m ?e0] =>
        destruct (addMessage_spec m e0) as (i & ts & n & Heq & Hi)
    end.
    rewrite Heq. cbn. cbn in Hi. rewrite Hi by discriminate.
    eexists. split; [reflexivity|]. eexists. cbn. split; [reflexivity|]. split.
    + match goal with
      | |- context [update_content ?c ?v (?l ++ [?x])] =>
          destruct (update_content_keeps c v (l ++ [x]) x) as (m' & Hin' & Hid')
      end.
      { apply in_or_app. right. left. reflexivity. }
      exists m'. split; [exact Hin'|]. rewrite Hid'. reflexivity.
    + apply update_content_content.
Qed.

End World.
End Facts.
End EnhancedFacts.

(* ===================================================================== *)
(** ** Properties of the text-only session component                      *)
(* ===================================================================== *)

Module BasicFacts.
Import Basic Spec.

Lemma set_content_ids (target : string) (c : value) (log : list Message) :
  map id (set_content target c log) = map id log.
Proof.
  unfold set_content. rewrite map_map. apply map_ext. intros m.
  destruct (id m =? target); reflexivity.
Qed.

Lemma set_content_content (target : string) (c : value) (log : list Message)
    (m : Message) :
  In m (set_content target c log) -> id m = target -> content m = c.
Proof.
  unfold set_content. intros Hin Hid. apply in_map_iff in Hin.
  destruct Hin as (m0 & <- & _).
  destruct (String.eqb_spec (id m0) target) as [E|E]; [reflexivity|contradiction].
Qed.

Section Facts.
Variable JSON_parse : string -> option json.

Local Abbreviation on_line := (Basic.on_line JSON_parse).
Local Abbreviation on_lines := (Basic.on_lines JSON_parse).

(** A line changes neither the ids in the log nor the id the call
    writes to. *)
Lemma on_line_ids (s : state) (line : string) :
  assistantMessageId (on_line s line) = assistantMessageId s /\
  map id (messages (on_line s line)) = map id (messages s).
Proof.
  unfold Basic.on_line, Basic.on_data.
  destruct (startsWith "data: " line); [|auto].
  destruct (slice 6 line =? "[DONE]"); [auto|].
  destruct (JSON_parse (slice 6 line)) as [parsed|]; [|auto].
  destruct parsed; auto;
    repeat match goal with
           | |- context [if ?b then _ else _] => destruct b
           end; cbn; auto using set_content_ids.
Qed.

Lemma on_lines_ids (lines : list string) (s : state) :
  assistantMessageId (on_lines s lines) = assistantMessageId s /\
  map id (messages (on_lines s lines)) = map id (messages s).
Proof.
  revert s. induction lines as [|l lines IH]; intros s; cbn; [auto|].
  destruct (IH (on_line s l)) as [H1 H2]. destruct (on_line_ids s l) as [H3 H4].
  unfold Basic.on_lines in *. split; congruence.
Qed.

Lemma on_line_full_text (s : state) (line : string) (parsed : json)
    (full : string) :
  decodes JSON_parse line parsed ->
  field parsed "type" = str "text" ->
  field parsed "fullText" = str full -> full <> "" ->
  accumulatedText (on_line s line) = Val (str full) /\
  (forall m, In m (messages (on_line s line)) ->
             id m = assistantMessageId (on_line s line) ->
             content m = Val (str full)).
Proof.
  intros (d & -> & Hd & Hp) Hty Hfull Hne.
  unfold Basic.on_line, data_line. cbn.
  destruct (String.eqb_spec d "[DONE]"); [contradiction|].
  unfold Basic.on_data. rewrite Hp.
  destruct parsed; try discriminate.
  rewrite Hty, Hfull. cbn.
  destruct (String.eqb_spec full ""); [contradiction|]. cbn.
  split; [reflexivity|]. apply set_content_content.
Qed.

End Facts.
End BasicFacts.

(* ===================================================================== *)
(** ** Properties of the server                                           *)
(* ===================================================================== *)

Module ServerFacts.
Import Server Wire.

Lemma append_assoc (a b c : string) : (a ++ b) ++ c = a ++ (b ++ c).
Proof. induction a as [|x a IH]; cbn; [reflexivity|]. rewrite IH. reflexivity. Qed.

Lemma append_nil_r (a : string) : a ++ "" = a.
Proof. induction a as [|x a IH]; cbn; [reflexivity|]. rewrite IH. reflexivity. Qed.

Lemma length_append (a b : string) :
  String.length (a ++ b) = String.length a + String.length b.
Proof. induction a as [|x a IH]; cbn; [reflexivity|]. rewrite IH. reflexivity. Qed.

Lemma texts_app (a b : list json) : texts (a ++ b) = texts a ++ texts b.
Proof.
  induction a as [|x a IH]; cbn; [reflexivity|].
  rewrite IH. symmetry. apply append_assoc.
Qed.

(** When the texts are strings, the join is their concatenation. *)
Lemma texts_of_strings (evs : list json) (ss : list string) :
  Forall2 (fun ev s => field ev "text" = str s) evs ss ->
  texts evs = String.concat "" ss.
Proof.
  induction 1 as [|ev s evs ss Hev Hrest IH]; cbn; [reflexivity|].
  rewrite Hev, IH. cbn. destruct ss; [apply append_nil_r | reflexivity].
Qed.

Lemma text_events_app (a b : list record) :
  text_events (a ++ b) = (text_events a ++ text_events b)%list.
Proof.
  induction a as [|[p|] a IH]; cbn; [reflexivity| |exact IH].
  destruct (is_str (field p "type") "text"); cbn; rewrite IH; reflexivity.
Qed.

Lemma joined_snoc (evs : list json) (ev : json) :
  joined evs ->
  field ev "fullText" = str (texts (evs ++ [ev])) ->
  joined (evs ++ [ev]).
Proof.
  intros H Hev n x Hn.
  destruct (Nat.lt_ge_cases n (List.length evs)) as [Hlt|Hge].
  - rewrite nth_error_app1 in Hn by assumption.
    rewrite firstn_app.
    replace (S n - List.length evs) with 0 by lia.
    cbn [firstn]. rewrite app_nil_r. apply H. exact Hn.
  - rewrite nth_error_app2 in Hn by assumption.
    destruct (n - List.length evs) as [|d] eqn:Hd; cbn in Hn.
    + injection Hn as <-. rewrite firstn_all2; [exact Hev|].
      rewrite length_app. cbn. lia.
    + destruct d; discriminate.
Qed.

Lemma coherent_other (p : progress) (payload : json) :
  is_str (field payload "type") "text" = false ->
  coherent p ->
  coherent (Progress (write (Data payload) (res p)) (fullResponse p)).
Proof.
  intros Hty [H1 H2]. unfold coherent. cbn.
  rewrite text_events_app. cbn. rewrite Hty, app_nil_r. split; assumption.
Qed.

Lemma coherent_text (p : progress) (payload : json) (text : jsval) :
  field payload "type" = str "text" ->
  field payload "text" = text ->
  field payload "fullText" = str (fullResponse p ++ to_string text) ->
  coherent p ->
  coherent (Progress (write (Data payload) (res p))
                     (fullResponse p ++ to_string text)).
Proof.
  intros Hty Htext Hfull [H1 H2]. unfold coherent. cbn.
  rewrite text_events_app. cbn. rewrite Hty. cbn.
  assert (Hjoin : texts (text_events (written (res p)) ++ [payload])
                  = fullResponse p ++ to_string text).
  { rewrite texts_app. cbn. rewrite Htext, H1, append_nil_r. reflexivity. }
  split.
  - symmetry. exact Hjoin.
  - apply joined_snoc; [exact H2|]. rewrite Hjoin. exact Hfull.
Qed.

Lemma on_chunk_coherent (sessionId : jsval) (chunk : json) (p p' : progress) :
  coherent p -> on_chunk sessionId chunk p = Normal p' -> coherent p'.
Proof.
  intros Hp. unfold on_chunk.
  destruct (get (Some chunk) "type") as [ty|err]; [|discriminate].
  destruct (_ && _)%bool.
  { intros [= <-]. apply coherent_other; [reflexivity|exact Hp]. }
  destruct (is_str ty "assistant").
  { destruct (get (field chunk "message") "content") as [content|err]; [|discriminate].
    destruct (_ && _)%bool; [|intros [= <-]; exact Hp].
    intros [= <-].
    apply coherent_text; try exact Hp; try reflexivity;
      cbn;
      repeat match goal with
             | |- context [match ?t with Some _ => _ | None => _ end] =>
                 destruct t; cbn
             end; reflexivity. }
  destruct (is_str ty "result").
  { intros [= <-]. apply coherent_other; [reflexivity|exact Hp]. }
  destruct (is_str ty "text").
  { intros [= <-].
    apply coherent_text; try exact Hp; try reflexivity;
      cbn;
      repeat match goal with
             | |- context [match ?t with Some _ => _ | None => _ end] =>
                 destruct t; cbn
             end; reflexivity. }
  destruct (is_str ty "tool_use").
  { intros [= <-]. apply coherent_other; [reflexivity|exact Hp]. }
  destruct (is_str ty "tool_result").
  { intros [= <-]. apply coherent_other; [reflexivity|exact Hp]. }
  intros [= <-]. apply coherent_other; [reflexivity|exact Hp].
Qed.

Lemma iterate_coherent (sessionId : jsval) (cs : list json)
    (fail : option js_error) (p : progress) :
  coherent p -> coherent (fst (iterate sessionId cs fail p)).
Proof.
  revert p. induction cs as [|c cs IH]; intros p Hp; cbn; [exact Hp|].
  destruct (on_chunk sessionId c p) as [p'|err] eqn:E; [|exact Hp].
  apply IH. eapply on_chunk_coherent; eassumption.
Qed.

Lemma attempt_coherent (message sessionId : jsval) (b : backend) :
  coherent (fst (attempt message sessionId b)).
Proof.
  assert (H0 : coherent (Progress fresh "")).
  { split; [reflexivity|]. intros [|n] ev H; discriminate. }
  unfold attempt. destruct (message_substring message); [exact H0|].
  apply iterate_coherent. exact H0.
Qed.

Lemma api_chat_text_events (message sessionId : jsval) (b : backend) :
  truthy message = true ->
  text_events (written (api_chat message sessionId b))
  = text_events (written (res (fst (attempt message sessionId b)))).
Proof.
  intros Ht. unfold api_chat. rewrite Ht. cbn.
  destruct (attempt message sessionId b) as [p [e|]]; cbn;
    rewrite !text_events_app; cbn; rewrite ?app_nil_r; reflexivity.
Qed.

Lemma firstn_le_prefix {A : Type} (i j : nat) (l : list A) :
  i <= j -> exists rest, firstn j l = (firstn i l ++ rest)%list.
Proof.
  revert j l. induction i as [|i IH]; intros j l Hij.
  - exists (firstn j l). reflexivity.
  - destruct j as [|j]; [lia|]. destruct l as [|x l].
    + exists []. reflexivity.
    + destruct (IH j l) as (rest & Hr); [lia|].
      exists rest. cbn. rewrite Hr. reflexivity.
Qed.

Lemma iterate_failure (sessionId : jsval) (cs : list json) (err : js_error)
    (p : progress) :
  snd (iterate sessionId cs (Some err) p) <> None.
Proof.
  revert p. induction cs as [|c cs IH]; intros p; cbn; [discriminate|].
  destruct (on_chunk sessionId c p); [apply IH|discriminate].
Qed.

Lemma fold_write_snoc (payloads : list json) (last : json) (r : response) :
  written (fold_left (fun r chunk => write (Data chunk) r) (payloads ++ [last]) r)
  = (written (fold_left (fun r chunk => write (Data chunk) r) payloads r)
     ++ [Data last])%list.
Proof. rewrite fold_left_app. reflexivity. Qed.

Lemma fold_write_status (payloads : list json) (r : response) :
  statusCode (fold_left (fun r chunk => write (Data chunk) r) payloads r)
  = statusCode r /\
  body (fold_left (fun r chunk => write (Data chunk) r) payloads r) = body r.
Proof.
  revert r. induction payloads as [|x l IH]; intros r; cbn; [auto|].
  destruct (IH (write (Data x) r)) as [H1 H2]. split; assumption.
Qed.

Lemma on_chunk_status (sessionId : jsval) (chunk : json) (p p' : progress) :
  on_chunk sessionId chunk p = Normal p' ->
  statusCode (res p') = statusCode (res p) /\ body (res p') = body (res p) /\
  ended (res p') = ended (res p).
Proof.
  unfold on_chunk.
  destruct (get (Some chunk) "type") as [ty|err]; [|discriminate].
  repeat match goal with
         | |- context [if ?b then _ else _] => destruct b
         | |- context [match get ?x ?k with _ => _ end] => destruct (get x k)
         end; try discriminate; intros [= <-]; repeat split.
Qed.

Lemma iterate_status (sessionId : jsval) (cs : list json)
    (fail : option js_error) (p : progress) :
  statusCode (res (fst (iterate sessionId cs fail p))) = statusCode (res p) /\
  body (res (fst (iterate sessionId cs fail p))) = body (res p).
Proof.
  revert p. induction cs as [|c cs IH]; intros p; cbn; [auto|].
  destruct (on_chunk sessionId c p) as [p'|err] eqn:E; [|auto].
  destruct (on_chunk_status _ _ _ _ E) as (H1 & H2 & _).
  destruct (IH p') as [H3 H4]. split; congruence.
Qed.

(** The loop writes data records only. *)
Lemma on_chunk_writes_data (sessionId : jsval) (chunk : json) (p p' : progress) :
  on_chunk sessionId chunk p = Normal p' ->
  exists payloads,
    written (res p') = (written (res p) ++ map Data payloads)%list.
Proof.
  unfold on_chunk.
  destruct (get (Some chunk) "type") as [ty|err]; [|discriminate].
  repeat match goal with
         | |- context [if ?b then _ else _] => destruct b
         | |- context [match get ?x ?k with _ => _ end] => destruct (get x k)
         end; try discriminate; intros [= <-]; cbn;
    first [ eexists [_]; reflexivity
          | exists []; cbn; rewrite app_nil_r; reflexivity ].
Qed.

Lemma iterate_writes_data (sessionId : jsval) (cs : list json)
    (fail : option js_error) (p : progress) :
  exists payloads,
    written (res (fst (iterate sessionId cs fail p)))
    = (written (res p) ++ map Data payloads)%list.
Proof.
  revert p. induction cs as [|c cs IH]; intros p; cbn.
  - exists []. cbn. rewrite app_nil_r. reflexivity.
  - destruct (on_chunk sessionId c p) as [p'|err] eqn:E.
    + destruct (on_chunk_writes_data _ _ _ _ E) as (d1 & H1).
      destruct (IH p') as (d2 & H2).
      exists (d1 ++ d2)%list. rewrite H2, H1, map_app, app_assoc. reflexivity.
    + exists []. cbn. rewrite app_nil_r. reflexivity.
Qed.

(** What the [try] block has done to the response when it ends or
    raises: it wrote data records, and set neither a status nor a body. *)
Lemma attempt_response (message sessionId : jsval) (b : backend) :
  statusCode (res (fst (attempt message sessionId b))) = 200%Z /\
  body (res (fst (attempt message sessionId b))) = None /\
  exists payloads,
    written (res (fst (attempt message sessionId b))) = map Data payloads.
Proof.
  unfold attempt. destruct (message_substring message).
  - repeat split. exists []. reflexivity.
  - destruct (iterate_status sessionId (chunks b) (failure b) (Progress fresh ""))
      as [H1 H2].
    destruct (iterate_writes_data sessionId (chunks b) (failure b)
                (Progress fresh "")) as (ds & H3).
    repeat split; try assumption. exists ds. exact H3.
Qed.

(** The event of the [catch] is an [error] event with the message of
    what was raised. *)
Lemma error_event_reports (e : js_error) : reports e (error_event e).
Proof. split; reflexivity. Qed.

(** The response to a request that passed the validation and reached the
    [try] block. *)
Lemma api_chat_stream (message sessionId : jsval) (b : backend) :
  truthy message = true ->
  statusCode (api_chat message sessionId b) = 200%Z /\
  body (api_chat message sessionId b) = None /\
  ended (api_chat message sessionId b) = true /\
  match snd (attempt message sessionId b) with
  | Some e =>
      written (api_chat message sessionId b)
      = (written (res (fst (attempt message sessionId b)))
         ++ [Data (error_event e); Done])%list
  | None =>
      written (api_chat message sessionId b)
      = (written (res (fst (attempt message sessionId b))) ++ [Done])%list
  end.
Proof.
  intros Hm. unfold api_chat. rewrite Hm. cbn [negb].
  destruct (attempt_response message sessionId b) as (H1 & H2 & _).
  destruct (attempt message sessionId b) as [p [e|]]; cbn in *;
    repeat split; try assumption; rewrite <- ?app_assoc; reflexivity.
Qed.

Section Handler.
Variable clock : nat -> Z.
Variable random : nat -> string.
Variable basename : string -> string.
Variable invalid_path : json -> string.
Variable slug : string -> string.

Local Abbreviation project_id := (ApiChat.project_id basename invalid_path slug).
Local Abbreviation post :=
  (ApiChat.post clock random basename invalid_path slug).

(** Lines 215-217 raise exactly on a project path that is truthy and not
    a string. *)
Lemma project_id_cases (projectPath : jsval) :
  if orb (negb (truthy projectPath)) (is_string projectPath)
  then exists projectId, project_id projectPath = Normal projectId
  else exists err, project_id projectPath = Thrown err.
Proof.
  unfold ApiChat.project_id.
  destruct projectPath as [[| [] | n | p | items | fields]|]; cbn;
    try (eexists; reflexivity).
  - destruct (n =? 0)%Z; cbn; eexists; reflexivity.
  - destruct (p =? ""); cbn; eexists; reflexivity.
Qed.

(** A request that is not accepted is answered at once, with an error
    status and a JSON body, and leaves the registry as it was. *)
Lemma post_refused (request : jsval) (b : backend) (st : Sessions.store) :
  accepted request = false ->
  written (fst (post request b st)) = [] /\
  body (fst (post request b st)) <> None /\
  ended (fst (post request b st)) = true /\
  (statusCode (fst (post request b st)) = 400%Z \/
   statusCode (fst (post request b st)) = 500%Z) /\
  snd (post request b st) = st.
Proof.
  unfold accepted, ApiChat.post. intros Hacc.
  destruct request as [j|]; [|cbn; repeat split; [discriminate | right; reflexivity]].
  destruct (ApiChat.destructure (Some j)) as [fields|err] eqn:Hd.
  - assert (Hf : forall k, get_opt (Some j) k = field fields k).
    { intros k. destruct j; cbn in Hd; try discriminate;
        injection Hd as <-; reflexivity. }
    rewrite !Hf in Hacc.
    destruct (truthy (field fields "message")); cbn [negb andb] in *.
    + pose proof (project_id_cases (field fields "projectPath")) as Hp.
      rewrite Hacc in Hp. destruct Hp as (err & ->).
      cbn. repeat split; [discriminate | right; reflexivity].
    + cbn. repeat split; [discriminate | left; reflexivity].
  - cbn. repeat split; [discriminate | right; reflexivity].
Qed.

(** A request that is accepted reaches the [try] block, with its message
    and the session the handler settled on. *)
Lemma post_accepted (request : jsval) (b : backend) (st : Sessions.store) :
  accepted request = true ->
  truthy (get_opt request "message") = true /\
  exists sessionId,
    fst (post request b st) = api_chat (get_opt request "message") sessionId b.
Proof.
  unfold accepted, ApiChat.post. intros Hacc.
  destruct request as [j|]; [|discriminate].
  destruct (ApiChat.destructure (Some j)) as [fields|err] eqn:Hd.
  - assert (Hf : forall k, get_opt (Some j) k = field fields k).
    { intros k. destruct j; cbn in Hd; try discriminate;
        injection Hd as <-; reflexivity. }
    rewrite !Hf in *.
    destruct (truthy (field fields "message")); cbn [negb andb] in *;
      [|discriminate].
    split; [reflexivity|].
    pose proof (project_id_cases (field fields "projectPath")) as Hp.
    rewrite Hacc in Hp. destruct Hp as (projectId & ->).
    eexists. reflexivity.
  - destruct j; cbn in Hd; discriminate.
Qed.

End Handler.

(** A failure of the backend makes the [try] block raise. *)
Lemma attempt_failure (message sessionId : jsval) (b : backend) :
  failure b <> None -> snd (attempt message sessionId b) <> None.
Proof.
  unfold attempt. destruct (message_substring message); [discriminate|].
  destruct (failure b) as [err|]; [|contradiction]. intros _.
  apply iterate_failure.
Qed.

End ServerFacts.

(* ===================================================================== *)
(** ** The claims                                                         *)
(* ===================================================================== *)

Module Claims.
Import Enhanced Spec.

Section Client.
Variable clock : nat -> Z.
Variable JSON_parse : string -> option json.
Variable trim : string -> string.

Local Abbreviation on_line := (Enhanced.on_line clock JSON_parse).
Local Abbreviation on_chunk := (Enhanced.on_chunk clock JSON_parse).
Local Abbreviation step := (Enhanced.step clock JSON_parse trim).
Local Abbreviation decodes := (Spec.decodes JSON_parse).

(** C2 (as the code has it): a [tool_result] event whose invocation has
    no record at all in the table of the call, neither a pending nor a
    completed one, is dropped: nothing is raised, and neither the log nor
    anything else changes.  Only the absence of a record has this effect:
    when the table holds a record of the invocation, pending or already
    completed, nothing is raised either and a [tool_result] message with
    the tool name of the record is appended, so that a result delivered a
    second time is shown a second time. *)
Theorem unmatched_tool_result_is_dropped
    (line : string) (parsed item : json) (k content is_error : jsval) (e : env) :
  decodes line parsed ->
  envelope "user" [item] parsed ->
  tool_result_item k content is_error item ->
  (Map_get (currentToolExecutions (me e)) k = None ->
   on_line line e = (Normal tt, e)) /\
  (forall te : ToolExecution.t,
     truthy k = true ->
     Map_get (currentToolExecutions (me e)) k = Some te ->
     fst (on_line line e) = Normal tt /\
     exists m extra,
       messages (ui (exec (on_line line) e))
       = (messages (ui e) ++ m :: extra)%list /\
       Msg.type m = type_tool_result /\ Msg.toolId m = k /\
       Msg.toolName m = ToolExecution.name te).
Proof.
  intros Hdec Henv Hitem.
  pose proof (EnhancedFacts.on_line_decodes clock JSON_parse line parsed e Hdec)
    as Hline.
  split.
  - intros Hget. rewrite Hline. apply EnhancedFacts.try_catch_normal.
    eapply EnhancedFacts.handle_unmatched_result; eassumption.
  - intros te Hk Hget.
    destruct (EnhancedFacts.handle_recorded_result clock parsed item k content
                is_error te e Henv Hitem Hk Hget)
      as (m & extra & e' & Heq & Hlog & Hty & Hid & Hname & _).
    unfold exec. rewrite Hline, Heq. cbn [fst snd].
    split; [reflexivity|]. exists m, extra. repeat split; assumption.
Qed.

(** C5: the end marker a second time changes nothing: the state stays
    idle, no message is appended, nothing is raised; on a line and on the
    record the server writes. *)
Theorem done_is_idempotent (e : env) :
  let once := exec (on_line DONE) e in
  fst (on_line DONE once) = Normal tt /\
  isGenerating (ui once) = false /\
  exec (on_line DONE) once = once /\
  fst (on_chunk DONE_record (exec (on_chunk DONE_record) e)) = Normal tt /\
  isGenerating (ui (exec (on_chunk DONE_record) e)) = false /\
  exec (on_chunk DONE_record) (exec (on_chunk DONE_record) e)
  = exec (on_chunk DONE_record) e.
Proof. cbn. repeat split. Qed.

(** C6: a line whose payload is not JSON raises nothing and appends
    nothing, and the lines around it are processed as if it were not
    there. *)
Theorem malformed_frame_is_skipped
    (data : string) (before after : list string) (e : env) :
  data <> "[DONE]" -> JSON_parse data = None ->
  on_line (data_line data) e = (Normal tt, e) /\
  forEach on_line (before ++ data_line data :: after) e
  = forEach on_line (before ++ after) e /\
  fst (forEach on_line (before ++ data_line data :: after) e) = Normal tt.
Proof.
  intros Hd Hp.
  pose proof (EnhancedFacts.on_line_malformed clock JSON_parse data) as Hbad.
  split; [apply Hbad; assumption|]. split.
  - rewrite !EnhancedFacts.forEach_app. cbn [bind].
    destruct (forEach on_line before e) as [[[]|err] e1]; [|reflexivity].
    cbn [forEach bind]. rewrite Hbad by assumption. reflexivity.
  - apply EnhancedFacts.forEach_on_line_normal.
Qed.

(** C9 (as the code has it): [stop] sets the state to idle, whatever the
    stream does, and touches nothing else: the log stays, and every call
    of [handleSubmit] stays where it is, a reading one in its read
    loop. *)
Theorem stop_sets_idle_only (w : world) :
  let w' := step w ClickStop in
  isGenerating (page w') = false /\
  messages (page w') = messages (page w) /\
  calls w' = calls w /\
  forall s : Basic.state,
    Basic.isGenerating (Basic.stop s) = false /\
    Basic.messages (Basic.stop s) = Basic.messages s /\
    Basic.accumulatedText (Basic.stop s) = Basic.accumulatedText s.
Proof. cbn. repeat split. Qed.

(** C8 (as the code has it): the server writes, for a chunk it has no
    branch for, a [debug] event that wraps the chunk; the client has no
    case for an event whose type is none of [init], [text], [result],
    [debug], [error] and drops it, and it drops the [debug] event of the
    server too unless the wrapped chunk is a user message; no line makes
    it append a [debug] message. *)
Theorem unknown_event_is_forwarded_then_dropped
    (sessionId : string) (chunk : json) (p : Server.progress)
    (line : string) (parsed : json) (e : env) :
  chunk <> JNull ->
  Wire.branched chunk = false ->
  decodes line parsed ->
  Server.on_chunk sessionId chunk p
  = Normal (Server.Progress
              (Server.write
                 (Server.Data (object [("type", str "debug"); ("data", Some chunk)]))
                 (Server.res p))
              (Server.fullResponse p)) /\
  ((forall t, In t handled_types -> is_str (field parsed "type") t = false) ->
   on_line line e = (Normal tt, e)) /\
  (parsed = object [("type", str "debug"); ("data", Some chunk)] ->
   is_str (field chunk "type") "user" = false ->
   on_line line e = (Normal tt, e)) /\
  (forall any : string, no_debug e -> no_debug (exec (on_line any) e)).
Proof.
  intros Hnn Hbr Hdec. split; [|split; [|split]];
    [| | |intros any; apply EnhancedFacts.quiet_on_line].
  - unfold Server.on_chunk. rewrite (EnhancedFacts.get_field chunk "type" Hnn).
    unfold Wire.branched in Hbr. cbn in Hbr.
    apply orb_false_elim in Hbr. destruct Hbr as [H1 H2]. rewrite H1.
    repeat (apply orb_false_elim in H2; destruct H2 as [-> H2]).
    reflexivity.
  - intros Hty.
    rewrite (EnhancedFacts.on_line_decodes clock JSON_parse line parsed e Hdec).
    unfold Enhanced.handle_parsed. cbn [try_catch bind lift].
    destruct parsed; try reflexivity.
    unfold get. cbn.
    rewrite !Hty by (cbn; auto 10). reflexivity.
  - intros -> Huser.
    rewrite (EnhancedFacts.on_line_decodes clock JSON_parse line _ e Hdec).
    unfold Wire.branched in Hbr. cbn in Hbr.
    apply orb_false_elim in Hbr. destruct Hbr as [_ H2].
    apply orb_false_elim in H2. destruct H2 as [Hassistant _].
    unfold Enhanced.handle_parsed, get. cbn.
    unfold case_debug. cbn. rewrite !EnhancedFacts.get_opt_field.
    rewrite Hassistant, Huser. reflexivity.
Qed.

(** C1 (as the code has it): when the last [text] event of a run of lines
    carries a non-empty [fullText], the assistant message the call writes
    to is in the log and its content is exactly that [fullText], whatever
    the lines before it did; in the text-only component as well. *)
Theorem full_text_replaces_content
    (before : list string) (line : string) (parsed : json) (full : string)
    (e : env) (s : Basic.state) :
  arises clock JSON_parse trim e ->
  decodes line parsed ->
  field parsed "type" = str "text" ->
  field parsed "fullText" = str full ->
  full <> "" ->
  (let e' := exec (forEach on_line (before ++ [line])) e in
   exists cur,
     currentAssistantMessage (me e') = Some cur /\
     (exists m, In m (messages (ui e')) /\ Msg.id m = Msg.id cur) /\
     (forall m, In m (messages (ui e')) -> Msg.id m = Msg.id cur ->
                Msg.content m = str full)) /\
  (let s' := Basic.on_lines JSON_parse s (before ++ [line]) in
   Basic.accumulatedText s' = Basic.Val (str full) /\
   Basic.assistantMessageId s' = Basic.assistantMessageId s /\
   map Basic.id (Basic.messages s') = map Basic.id (Basic.messages s) /\
   (forall m, In m (Basic.messages s') ->
              Basic.id m = Basic.assistantMessageId s ->
              Basic.content m = Basic.Val (str full))).
Proof.
  intros Harises Hdec Hty Hfull Hne. split.
  - cbn zeta. rewrite (EnhancedFacts.exec_forEach_snoc clock JSON_parse).
    destruct (EnhancedFacts.arises_sound clock JSON_parse trim e Harises)
      as (others & Hsound).
    assert (H1 : sound others (exec (forEach on_line before) e)).
    { apply (EnhancedFacts.keeps_forEach (sound others) on_line before);
        [|exact Hsound].
      intros l. apply EnhancedFacts.keeps_on_line. }
    destruct (EnhancedFacts.case_text_full clock others parsed full _ H1 Hfull Hne)
      as (e' & Heq & Hcur).
    rewrite <- (EnhancedFacts.handle_text clock parsed _ Hty) in Heq.
    assert (Hstep : exec (on_line line) (exec (forEach on_line before) e) = e').
    { unfold exec at 1.
      rewrite (EnhancedFacts.on_line_decodes clock JSON_parse line parsed _ Hdec).
      rewrite (EnhancedFacts.try_catch_normal _ _ _ _ _ Heq). reflexivity. }
    rewrite Hstep. exact Hcur.
  - cbn zeta. unfold Basic.on_lines. rewrite fold_left_app. cbn [fold_left].
    set (s1 := fold_left (Basic.on_line JSON_parse) before s).
    destruct (BasicFacts.on_line_full_text JSON_parse s1 line parsed full
                Hdec Hty Hfull Hne) as [Hacc Hall].
    destruct (BasicFacts.on_line_ids JSON_parse s1 line) as [Hid1 Hids1].
    destruct (BasicFacts.on_lines_ids JSON_parse before s) as [Hid0 Hids0].
    fold s1 in Hid0, Hids0. unfold Basic.on_lines in Hid0, Hids0. fold s1 in Hid0, Hids0.
    repeat split.
    + exact Hacc.
    + congruence.
    + congruence.
    + intros m Hin Hm. apply Hall; [exact Hin|]. congruence.
Qed.

(** C3 (as the code has it): after a run of matched [tool_use] and
    [tool_result] events with pairwise distinct, non-empty invocation ids,
    what was appended to the log holds, for every invocation, exactly one
    [tool_use] message and exactly one [tool_result] message, the first
    before the second; the table of the call still holds the record of the
    invocation, marked complete. *)
Theorem matched_tool_events
    (evs : list tool_event) (lines : list string) (e : env) :
  Spec.carries JSON_parse lines evs ->
  matched evs ->
  exists added tools' table' n,
    forEach on_line lines e
    = (Normal tt,
       Env (Component (messages (ui e) ++ added) (Enhanced.input (ui e))
              (isGenerating (ui e)) tools')
           (Call (phase_of (me e)) (currentAssistantMessage (me e)) table')
           n) /\
    forall k, In k (uses evs) ->
      count (is_use_of k) added = 1 /\
      count (is_result_of k) added = 1 /\
      (exists l1 u l2 r l3,
         added = (l1 ++ u :: l2 ++ r :: l3)%list /\
         is_use_of k u = true /\ is_result_of k r = true) /\
      (exists te, Map_get table' (str k) = Some te /\
                  ToolExecution.isComplete te = true).
Proof.
  intros Hc (Hndu & Hndr & Hall & Hfollow & Hne).
  destruct (EnhancedFacts.tool_run clock JSON_parse evs lines e Hc Hfollow Hndu Hne)
    as (added & tools' & table' & n & Hrun & Htrace & Htable).
  exists added, tools', table', n. split; [exact Hrun|].
  intros k Hk. pose proof (Hall k Hk) as Hr.
  split; [|split; [|split]].
  - unfold is_use_of.
    rewrite (EnhancedFacts.count_trace type_tool_use k added), Htrace,
      EnhancedFacts.count_uses.
    apply NoDup_count_occ'; assumption.
  - unfold is_result_of.
    rewrite (EnhancedFacts.count_trace type_tool_result k added), Htrace,
      EnhancedFacts.count_results.
    apply NoDup_count_occ'; assumption.
  - destruct (EnhancedFacts.In_results_split k evs Hr) as (b & c & ie & a & Hsplit).
    assert (Hb : In k (uses b)) by (eapply Hfollow; exact Hsplit).
    destruct (EnhancedFacts.In_uses_split k b Hb) as (b1 & nm & inp & b2 & Hb12).
    subst b. rewrite Hsplit in Htrace.
    rewrite <- app_assoc in Htrace. cbn [app] in Htrace.
    rewrite map_app in Htrace. cbn [map] in Htrace.
    destruct (EnhancedFacts.tool_trace_split added _ _ _ Htrace)
      as (l1 & u & rest & -> & _ & Hu & Hrest).
    rewrite map_app in Hrest. cbn [map] in Hrest.
    destruct (EnhancedFacts.tool_trace_split rest _ _ _ Hrest)
      as (l2 & r & l3 & -> & _ & Hres & _).
    exists l1, u, l2, r, l3. split; [reflexivity|].
    cbn in Hu, Hres. injection Hu as Hut Hui. injection Hres as Hrt Hri.
    unfold is_use_of, is_result_of. rewrite Hut, Hui, Hrt, Hri. cbn.
    rewrite String.eqb_refl. split; reflexivity.
  - destruct (Htable k Hk) as (te & Hget & Hiff).
    exists te. split; [exact Hget|]. apply Hiff. exact Hr.
Qed.

(** C4: in every log the component can reach, a [tool_result] message
    that references an invocation stands after a [tool_use] message of that
    invocation; and when no invocation id starts twice, no [tool_result]
    message stands before a [tool_use] message of its invocation. *)
Theorem tool_result_follows_tool_use (w : world) :
  Enhanced.reachable clock JSON_parse trim w ->
  ordered (messages (page w)) /\
  (NoDup (use_ids (messages (page w))) -> never_before (messages (page w))).
Proof.
  intros Hr.
  destruct (EnhancedFacts.reachable_ok clock JSON_parse trim w Hr) as [Ho _].
  split; [exact Ho | apply EnhancedFacts.ordered_never_before; exact Ho].
Qed.

End Client.

Lemma streaming_env_arises :
  arises Fixture.clock Fixture.parse Fixture.trim Fixture.streaming_env.
Proof.
  exists Fixture.streaming, 0, (Call Reading None []).
  split; [|split; reflexivity].
  apply EnhancedFacts.reachable_run. constructor.
Qed.

Lemma frame_decodes (text : string) (parsed : json) :
  JsonText.dq text <> "[DONE]" ->
  Fixture.parse (JsonText.dq text) = Some parsed ->
  decodes Fixture.parse (Fixture.frame text) parsed.
Proof. intros H1 H2. exists (JsonText.dq text). repeat split; assumption. Qed.

(** The two [text] events of a short answer: the content ends as the
    last [fullText]. *)
Lemma full_text_replaces_content_witness :
  let e' := exec (forEach (Enhanced.on_line Fixture.clock Fixture.parse)
                    [Fixture.text_Hel; Fixture.text_lo])
                 Fixture.streaming_env in
  exists cur,
    currentAssistantMessage (me e') = Some cur /\
    (exists m, In m (messages (ui e')) /\ Msg.id m = Msg.id cur) /\
    (forall m, In m (messages (ui e')) -> Msg.id m = Msg.id cur ->
               Msg.content m = str "Hello").
Proof.
  refine (proj1 (full_text_replaces_content Fixture.clock Fixture.parse Fixture.trim
            [Fixture.text_Hel] Fixture.text_lo _ "Hello" Fixture.streaming_env
            (Basic.State [] "" true "1" (Basic.Val (str ""))) _ _ _ _ _)).
  - exact streaming_env_arises.
  - apply frame_decodes; [discriminate | vm_compute; reflexivity].
  - reflexivity.
  - reflexivity.
  - discriminate.
Defined.

(** C1 as stated fails: a [text] event with [text] "Hello" and the empty
    string as its [fullText] leaves the content "Hello", not the
    [fullText]. *)
Lemma empty_full_text_gives_way_to_text :
  let parsed := JObj [("type", JStr "text"); ("text", JStr "Hello");
                      ("fullText", JStr "")] in
  let e' := exec (Enhanced.on_line Fixture.clock Fixture.parse
                    Fixture.text_empty_full)
                 Fixture.streaming_env in
  decodes Fixture.parse Fixture.text_empty_full parsed /\
  field parsed "fullText" = str "" /\
  exists m, In m (messages (ui e')) /\ Msg.type m = type_assistant /\
            Msg.content m = str "Hello" /\
            Msg.content m <> field parsed "fullText".
Proof.
  cbn zeta. split; [|split; [reflexivity|]].
  - apply frame_decodes; [discriminate | vm_compute; reflexivity].
  - vm_compute. eexists. split; [right; left; reflexivity|].
    repeat split. discriminate.
Qed.

Lemma scenario_B_carried :
  Spec.carries Fixture.parse [Fixture.tool_use_t1; Fixture.tool_result_t1]
    Fixture.scenario_B.
Proof.
  repeat constructor.
  - eexists. split.
    + apply frame_decodes; [discriminate | vm_compute; reflexivity].
    + eexists. split; [split; [reflexivity|]|].
      * eexists _, _. repeat split; reflexivity.
      * repeat split; reflexivity.
  - eexists. split.
    + apply frame_decodes; [discriminate | vm_compute; reflexivity].
    + eexists. split; [split; [reflexivity|]|].
      * eexists _, _. repeat split; reflexivity.
      * repeat split; reflexivity.
Qed.

Lemma scenario_B_matched : matched Fixture.scenario_B.
Proof.
  unfold matched, Fixture.scenario_B. cbn. repeat split.
  - repeat constructor. intros [].
  - repeat constructor. intros [].
  - auto.
  - intros before k c i after Heq.
    destruct before as [|x [|y [|z before]]]; cbn in Heq.
    + discriminate.
    + injection Heq as <- <- _ _ _. left. reflexivity.
    + injection Heq as _ _ H. discriminate.
    + injection Heq as _ _ H. destruct before; discriminate.
  - intros [H|[]]. discriminate.
Qed.

(** Scenario B, run. *)
Lemma matched_tool_events_witness :
  exists added tools' table' n,
    forEach (Enhanced.on_line Fixture.clock Fixture.parse)
      [Fixture.tool_use_t1; Fixture.tool_result_t1] Fixture.streaming_env
    = (Normal tt,
       Env (Component (messages (ui Fixture.streaming_env) ++ added)
              (Enhanced.input (ui Fixture.streaming_env))
              (isGenerating (ui Fixture.streaming_env)) tools')
           (Call (phase_of (me Fixture.streaming_env))
              (currentAssistantMessage (me Fixture.streaming_env)) table')
           n) /\
    forall k, In k (uses Fixture.scenario_B) ->
      count (is_use_of k) added = 1 /\
      count (is_result_of k) added = 1 /\
      (exists l1 u l2 r l3,
         added = (l1 ++ u :: l2 ++ r :: l3)%list /\
         is_use_of k u = true /\ is_result_of k r = true) /\
      (exists te, Map_get table' (str k) = Some te /\
                  ToolExecution.isComplete te = true).
Proof.
  apply (matched_tool_events Fixture.clock Fixture.parse Fixture.scenario_B).
  - exact scenario_B_carried.
  - exact scenario_B_matched.
Defined.

(** C3 as stated fails: after scenario B the table of the call is not
    empty, it still holds the record of [t1]. *)
Lemma completed_invocation_stays_in_table :
  let e' := exec (forEach (Enhanced.on_line Fixture.clock Fixture.parse)
                    [Fixture.tool_use_t1; Fixture.tool_result_t1])
                 Fixture.streaming_env in
  currentToolExecutions (me e') <> [] /\
  exists te, Map_get (currentToolExecutions (me e')) (str "t1") = Some te.
Proof.
  vm_compute. split; [discriminate|]. eexists. reflexivity.
Qed.

(** The log after scenario B. *)
Lemma tool_result_follows_tool_use_witness :
  let w := Enhanced.run Fixture.clock Fixture.parse Fixture.trim Fixture.streaming
             [ReadChunk 0 Fixture.tool_use_t1; ReadChunk 0 Fixture.tool_result_t1] in
  ordered (messages (page w)) /\
  (NoDup (use_ids (messages (page w))) -> never_before (messages (page w))).
Proof.
  apply (tool_result_follows_tool_use Fixture.clock Fixture.parse Fixture.trim).
  apply EnhancedFacts.reachable_run. apply EnhancedFacts.reachable_run. constructor.
Defined.

Section Wire.
Import Server Wire.

Variable clock : nat -> Z.
Variable random : nat -> string.
Variable basename : string -> string.
Variable invalid_path : json -> string.
Variable slug : string -> string.

Local Abbreviation post :=
  (ApiChat.post clock random basename invalid_path slug).

(** C7: in both variants of the handler, once a request has got as far as
    the stream, a failure of the backend or of the handler itself ends as
    an [error] event, which carries the message of what was raised,
    followed by the end marker, after the data records written until
    then, on a finished response whose status is still 200 and that
    carries no body.  A request that fails before the stream (no body, no
    message, or a project path that [path.basename] raises on; no message
    or no project path in the router variant) is answered with status 400
    or 500 and a JSON body, and no event is written. *)
Theorem failure_after_start_is_an_error_event
    (request message projectPath : jsval) (b : backend) (st : Sessions.store) :
  truthy message = true ->
  truthy projectPath = true ->
  (let r := fst (post request b st) in
   (accepted request = true ->
    statusCode r = 200%Z /\ body r = None /\ ended r = true /\
    exists sessionId,
      let a := attempt (get_opt request "message") sessionId b in
      (failure b <> None -> snd a <> None) /\
      (exists payloads, written (res (fst a)) = map Data payloads) /\
      match snd a with
      | Some e =>
          exists ev,
            written r = (written (res (fst a)) ++ [Data ev; Done])%list /\
            reports e ev
      | None => written r = (written (res (fst a)) ++ [Done])%list
      end) /\
   (accepted request = false ->
    written r = [] /\ body r <> None /\ ended r = true /\
    (statusCode r = 400%Z \/ statusCode r = 500%Z) /\
    snd (post request b st) = st)) /\
  (let r := Routes.chat projectPath message b in
   statusCode r = 200%Z /\ body r = None /\ ended r = true /\
   (exists before, written r = (before ++ [Done])%list) /\
   (failure b <> None \/ Routes.identifyTask_raises message <> None ->
    exists before ev,
      written r = (before ++ [Data ev; Done])%list /\
      field ev "type" = str "error")) /\
  (forall bad sessionId : jsval, truthy bad = false ->
     api_chat bad sessionId b
     = Response 400%Z (Some (object [("error", str "Missing message")])) [] true /\
     written (Routes.chat projectPath bad b) = [] /\
     statusCode (Routes.chat projectPath bad b) = 400%Z /\
     written (Routes.chat bad message b) = [] /\
     statusCode (Routes.chat bad message b) = 400%Z).
Proof.
  intros Hm Hp. split; [|split].
  - cbn zeta. split.
    + intros Hacc.
      destruct (ServerFacts.post_accepted clock random basename invalid_path slug
                  request b st Hacc) as (Hmsg & sessionId & ->).
      destruct (ServerFacts.api_chat_stream _ sessionId b Hmsg)
        as (H1 & H2 & H3 & H4).
      split; [exact H1|]. split; [exact H2|]. split; [exact H3|].
      exists sessionId. cbn zeta.
      split; [apply ServerFacts.attempt_failure|].
      split; [apply ServerFacts.attempt_response|].
      destruct (snd (attempt (get_opt request "message") sessionId b)) as [e|].
      * exists (error_event e). split; [exact H4|].
        apply ServerFacts.error_event_reports.
      * exact H4.
    + apply ServerFacts.post_refused.
  - cbn zeta. unfold Routes.chat. rewrite Hm, Hp. cbn [negb orb].
    destruct (Routes.identifyTask_raises message) as [e|] eqn:Hraise.
    + cbn. repeat split.
      * eexists [_]. reflexivity.
      * intros _. exists [], (Routes.error_event e). split; reflexivity.
    + pose proof (ServerFacts.fold_write_status (Routes.streamChatResponse b) fresh)
        as [H1 H2].
      cbn. repeat split; try assumption.
      * eexists. reflexivity.
      * intros [Hf|Hf]; [|contradiction].
        unfold Routes.streamChatResponse.
        destruct (failure b) as [err|]; [|contradiction].
        rewrite ServerFacts.fold_write_snoc. rewrite <- app_assoc. cbn [app].
        eexists _, _. split; reflexivity.
  - intros bad sessionId Hbad. unfold api_chat, Routes.chat. rewrite Hbad, Hp, Hm. cbn.
    repeat split.
Qed.

(** C10: every [text] event the handler writes carries as [fullText] the
    join, in the order written, of the [text] of all the [text] events up
    to and including it, as [+=] converts them to strings; so the
    [fullText] never gets shorter from one [text] event to a later one. *)
Theorem full_text_is_the_join_of_the_texts
    (message : jsval) (sessionId : string) (b : backend)
    (i j : nat) (ei ej : json) :
  let evs := text_events (written (api_chat message sessionId b)) in
  i <= j ->
  nth_error evs i = Some ei ->
  nth_error evs j = Some ej ->
  field ei "fullText" = str (texts (firstn (S i) evs)) /\
  field ej "fullText" = str (texts (firstn (S j) evs)) /\
  String.length (texts (firstn (S i) evs))
  <= String.length (texts (firstn (S j) evs)).
Proof.
  cbn zeta. intros Hij Hi Hj.
  destruct (truthy message) eqn:Hm.
  - rewrite (ServerFacts.api_chat_text_events message sessionId b Hm) in *.
    destruct (ServerFacts.attempt_coherent message sessionId b) as [_ Hjoin].
    split; [apply Hjoin; exact Hi|]. split; [apply Hjoin; exact Hj|].
    destruct (ServerFacts.firstn_le_prefix (S i) (S j)
                (text_events (written (res (fst (attempt message sessionId b))))))
      as (rest & ->); [lia|].
    rewrite ServerFacts.texts_app, ServerFacts.length_append. lia.
  - unfold api_chat in Hi. rewrite Hm in Hi. cbn in Hi. destruct i; discriminate.
Qed.

End Wire.

(** A backend that fails after two chunks: the stream ends with the
    [error] event and the end marker, the status stays 200.  A request
    whose project path is a number is answered before any stream, with
    an error status and no event. *)
Lemma failure_after_start_is_an_error_event_witness :
  (let r := fst (ApiChat.post Fixture.clock Fixture.random Fixture.basename
                   Fixture.invalid_path toLowerCase
                   Fixture.chat_request Fixture.failing_backend Sessions.empty) in
   Server.statusCode r = 200%Z /\ Server.ended r = true /\
   exists ev,
     Server.written r
     = [Server.Data Fixture.event_Hel; Server.Data Fixture.event_Hello;
        Server.Data ev; Server.Done] /\
     Wire.reports (Error "socket hang up") ev) /\
  (let r := fst (ApiChat.post Fixture.clock Fixture.random Fixture.basename
                   Fixture.invalid_path toLowerCase
                   Fixture.numeric_path_request Fixture.failing_backend
                   Sessions.empty) in
   Server.written r = [] /\ Server.body r <> None /\ Server.ended r = true /\
   (Server.statusCode r = 400%Z \/ Server.statusCode r = 500%Z)).
Proof.
  split.
  - destruct (failure_after_start_is_an_error_event
                Fixture.clock Fixture.random Fixture.basename Fixture.invalid_path
                toLowerCase Fixture.chat_request (str "hi") (str "/home/pa")
                Fixture.failing_backend Sessions.empty eq_refl eq_refl)
      as ((Hstream & _) & _).
    destruct (Hstream eq_refl) as (H1 & _ & H3 & sessionId & _ & _ & H).
    cbn in H. destruct H as (ev & Hw & Hr).
    cbn zeta. split; [exact H1|]. split; [exact H3|].
    exists ev. split; [exact Hw | exact Hr].
  - destruct (failure_after_start_is_an_error_event
                Fixture.clock Fixture.random Fixture.basename Fixture.invalid_path
                toLowerCase Fixture.numeric_path_request (str "hi") (str "/home/pa")
                Fixture.failing_backend Sessions.empty eq_refl eq_refl)
      as ((_ & Hrefused) & _).
    destruct (Hrefused eq_refl) as (H1 & H2 & H3 & H4 & _).
    cbn zeta. split; [exact H1|]. split; [exact H2|]. split; [exact H3 | exact H4].
Defined.

(** The two [text] events of the same backend. *)
Lemma full_text_is_the_join_of_the_texts_witness :
  let evs := Wire.text_events
               (Server.written
                  (Server.api_chat (str "hi") "s1" Fixture.failing_backend)) in
  field Fixture.event_Hel "fullText" = str (Wire.texts (firstn 1 evs)) /\
  field Fixture.event_Hello "fullText" = str (Wire.texts (firstn 2 evs)) /\
  String.length (Wire.texts (firstn 1 evs))
  <= String.length (Wire.texts (firstn 2 evs)).
Proof.
  apply (full_text_is_the_join_of_the_texts (str "hi") "s1"
           Fixture.failing_backend 0 1 Fixture.event_Hel Fixture.event_Hello).
  - apply le_S, le_n.
  - reflexivity.
  - reflexivity.
Defined.

(** Scenario C, run: the log is as before.  Scenario B with its result
    delivered once more: the record of [t1] is completed, and the log gets
    another [tool_result] message. *)
Lemma unmatched_tool_result_is_dropped_witness :
  Enhanced.on_line Fixture.clock Fixture.parse Fixture.tool_result_t9
    Fixture.streaming_env
  = (Normal tt, Fixture.streaming_env) /\
  (let e := exec (forEach (Enhanced.on_line Fixture.clock Fixture.parse)
                    [Fixture.tool_use_t1; Fixture.tool_result_t1])
                 Fixture.streaming_env in
   exists te,
     Map_get (currentToolExecutions (me e)) (str "t1") = Some te /\
     ToolExecution.isComplete te = true /\
     exists m extra,
       messages (ui (exec (Enhanced.on_line Fixture.clock Fixture.parse
                             Fixture.tool_result_t1) e))
       = (messages (ui e) ++ m :: extra)%list /\
       Msg.type m = type_tool_result /\ Msg.toolId m = str "t1" /\
       Msg.toolName m = ToolExecution.name te).
Proof.
  split.
  - refine (proj1 (unmatched_tool_result_is_dropped Fixture.clock Fixture.parse
                     Fixture.tool_result_t9 _ _ (str "t9") (str "late")
                     (Some (JBool false)) Fixture.streaming_env _ _ _) eq_refl).
    + eexists. split; [reflexivity|]. split; [discriminate|]. vm_compute. reflexivity.
    + split; [reflexivity|]. eexists _, _. repeat split; reflexivity.
    + repeat split; reflexivity.
  - cbn zeta. eexists. split; [vm_compute; reflexivity|]. split; [reflexivity|].
    refine (proj2 (proj2 (unmatched_tool_result_is_dropped Fixture.clock
                            Fixture.parse Fixture.tool_result_t1 _ _ (str "t1")
                            (str "a.txt") (Some (JBool false)) _ _ _ _)
                     _ eq_refl _)).
    + eexists. split; [reflexivity|]. split; [discriminate|]. vm_compute. reflexivity.
    + split; [reflexivity|]. eexists _, _. repeat split; reflexivity.
    + repeat split; reflexivity.
    + vm_compute. reflexivity.
Defined.

(** C2 as stated fails: after the result of the unknown invocation [t9]
    the log holds no [tool_result] message. *)
Lemma unmatched_tool_result_appends_nothing :
  ~ exists m,
      In m (messages (ui (exec (Enhanced.on_line Fixture.clock Fixture.parse
                                  Fixture.tool_result_t9)
                               Fixture.streaming_env))) /\
      Msg.type m = type_tool_result.
Proof.
  vm_compute. intros (m & [<-|[]] & H). discriminate.
Qed.

Lemma malformed_frame_is_skipped_witness :
  Enhanced.on_line Fixture.clock Fixture.parse Fixture.truncated_line
    Fixture.streaming_env
  = (Normal tt, Fixture.streaming_env).
Proof.
  apply (malformed_frame_is_skipped Fixture.clock Fixture.parse
           (JsonText.dq "{'type':'text','text':'Hel") [] []
           Fixture.streaming_env).
  - discriminate.
  - vm_compute. reflexivity.
Defined.

(** C9 as stated fails: after [stop] the read loop of the call is still
    open, and the next chunk is processed and lands in the log. *)
Lemma stop_leaves_the_stream_open :
  let stopped := Enhanced.step Fixture.clock Fixture.parse Fixture.trim
                   Fixture.streaming ClickStop in
  let later := Enhanced.step Fixture.clock Fixture.parse Fixture.trim
                 stopped (ReadChunk 0 Fixture.init_line) in
  isGenerating (page stopped) = false /\
  List.length (messages (page later)) = S (List.length (messages (page stopped))).
Proof. vm_compute. split; reflexivity. Qed.

(** The chunk [{"type":"system","subtype":"status"}]: forwarded by the
    server, dropped by the client. *)
Lemma unknown_event_is_forwarded_then_dropped_witness :
  Server.on_chunk "s1" Fixture.status_chunk (Server.Progress Server.fresh "")
  = Normal (Server.Progress
              (Server.write
                 (Server.Data (object [("type", str "debug");
                                       ("data", Some Fixture.status_chunk)]))
                 Server.fresh)
              "") /\
  Enhanced.on_line Fixture.clock Fixture.parse Fixture.status_line
    Fixture.streaming_env
  = (Normal tt, Fixture.streaming_env).
Proof.
  destruct (unknown_event_is_forwarded_then_dropped Fixture.clock Fixture.parse
              "s1" Fixture.status_chunk (Server.Progress Server.fresh "")
              Fixture.status_line
              (object [("type", str "debug"); ("data", Some Fixture.status_chunk)])
              Fixture.streaming_env) as (H1 & _ & H3 & _).
  - discriminate.
  - reflexivity.
  - eexists. split; [reflexivity|]. split; [discriminate|]. vm_compute. reflexivity.
  - split; [exact H1|]. apply H3; reflexivity.
Defined.

(** C8 as stated fails: the client appends no [debug] message for the
    event the server wrote for an unrecognized chunk. *)
Lemma unknown_event_leaves_no_debug_message :
  ~ exists m,
      In m (messages (ui (exec (Enhanced.on_line Fixture.clock Fixture.parse
                                  Fixture.status_line)
                               Fixture.streaming_env))) /\
      Msg.type m = type_debug.
Proof.
  vm_compute. intros (m & [<-|[]] & H). discriminate.
Qed.

End Claims.

(* ===================================================================== *)
(** ** Chunks, lines and records                                          *)
(* ===================================================================== *)

Module Framing.
Import Enhanced Spec.

Lemma append_step (cur : string) (c : ascii) (rest : string) :
  (cur ++ String c "") ++ rest = cur ++ String c rest.
Proof. induction cur as [|x cur IH]; cbn; [reflexivity|]. rewrite IH. reflexivity. Qed.

Lemma split_line (line : string) :
  forall cur rest,
  no_newline line = true ->
  split_lines_aux cur (line ++ rest) = split_lines_aux (cur ++ line) rest.
Proof.
  induction line as [|c line IH]; intros cur rest H; cbn.
  - rewrite ServerFacts.append_nil_r. reflexivity.
  - cbn in H. apply andb_prop in H. destruct H as [Hc Hl].
    destruct (Ascii.eqb c "010"%char); [discriminate|].
    rewrite IH by exact Hl. rewrite append_step. reflexivity.
Qed.

Lemma split_record (line rest : string) :
  no_newline line = true ->
  split_lines (record_of line ++ rest) = line :: "" :: split_lines rest.
Proof.
  intros H. unfold split_lines, record_of.
  rewrite ServerFacts.append_assoc, (split_line line "" _ H). reflexivity.
Qed.

Lemma split_bare (line : string) :
  no_newline line = true -> split_lines line = [line].
Proof.
  intros H. unfold split_lines.
  rewrite <- (ServerFacts.append_nil_r line) at 1.
  rewrite (split_line line "" "" H). reflexivity.
Qed.

Section Facts.
Variable clock : nat -> Z.
Variable JSON_parse : string -> option json.

Local Abbreviation on_line := (Enhanced.on_line clock JSON_parse).
Local Abbreviation on_chunk := (Enhanced.on_chunk clock JSON_parse).

Lemma records_as_lines (lines : list string) (e : env) :
  Forall (fun line => no_newline line = true) lines ->
  on_chunk (records lines) e = forEach on_line lines e.
Proof.
  intros H. revert e. unfold Enhanced.on_chunk.
  induction H as [|line lines Hline _ IH]; intros e.
  - reflexivity.
  - cbn [records]. rewrite (split_record line _ Hline).
    cbn [forEach bind].
    destruct (on_line line e) as [[[]|err] e1]; [|reflexivity].
    exact (IH e1).
Qed.

(** X1: a chunk that holds complete records, each a line followed by a
    blank line, is processed as the lines themselves, one after the
    other: the blank lines between records do nothing. *)
Theorem chunk_of_records (lines : list string) (e : env) :
  Forall (fun line => no_newline line = true) lines ->
  on_chunk (records lines) e = forEach on_line lines e.
Proof. apply records_as_lines. Qed.

(** X2: a record cut in two by the transport is lost.  When the first
    chunk ends inside the JSON text and the second chunk carries the rest,
    neither is processed: the state after both is the state before, as if
    the event had never been sent. *)
Theorem split_record_is_lost (a b : string) (e : env) :
  no_newline a = true -> no_newline b = true ->
  a <> "[DONE]" -> JSON_parse a = None ->
  startsWith "data: " b = false ->
  exec (on_chunk (record_of b)) (exec (on_chunk (data_line a)) e) = e /\
  on_chunk (record_of (data_line (a ++ b))) e
  = forEach on_line [data_line (a ++ b)] e.
Proof.
  intros Ha Hb Hdone Hparse Hstart. split.
  - unfold exec, Enhanced.on_chunk.
    rewrite (split_bare (data_line a)) by exact Ha.
    cbn [forEach bind].
    rewrite (EnhancedFacts.on_line_malformed clock JSON_parse a e Hdone Hparse).
    cbn [snd].
    rewrite <- (ServerFacts.append_nil_r (record_of b)).
    rewrite (split_record b "" Hb). cbn [forEach bind].
    unfold Enhanced.on_line at 1. rewrite Hstart. reflexivity.
  - rewrite <- (ServerFacts.append_nil_r (record_of _)).
    change (record_of (data_line (a ++ b)) ++ "")
      with (records [data_line (a ++ b)]).
    apply records_as_lines. constructor; [|constructor].
    unfold data_line. cbn. clear - Ha Hb.
    induction a as [|c a IH]; cbn in *; [exact Hb|].
    apply andb_prop in Ha. destruct Ha as [-> Ha]. cbn. apply IH. exact Ha.
Qed.

End Facts.

Lemma chunk_of_records_witness :
  Enhanced.on_chunk Fixture.clock Fixture.parse
    (records [Fixture.text_Hel; Fixture.text_lo]) Fixture.streaming_env
  = forEach (Enhanced.on_line Fixture.clock Fixture.parse)
      [Fixture.text_Hel; Fixture.text_lo] Fixture.streaming_env.
Proof.
  apply (chunk_of_records Fixture.clock Fixture.parse).
  repeat constructor.
Defined.

Lemma split_record_is_lost_witness :
  let a := JsonText.dq "{'type':'text','text':'Hel" in
  let b := JsonText.dq "lo','fullText':'Hello'}" in
  exec (Enhanced.on_chunk Fixture.clock Fixture.parse (record_of b))
       (exec (Enhanced.on_chunk Fixture.clock Fixture.parse (data_line a))
             Fixture.streaming_env)
  = Fixture.streaming_env.
Proof.
  refine (proj1 (split_record_is_lost Fixture.clock Fixture.parse
                   (JsonText.dq "{'type':'text','text':'Hel")
                   (JsonText.dq "lo','fullText':'Hello'}")
                   Fixture.streaming_env _ _ _ _ _));
    try reflexivity.
  discriminate.
Defined.

End Framing.

(* ===================================================================== *)
(** ** What a turn of the enhanced component does and does not do         *)
(* ===================================================================== *)

Module Turn.
Import Enhanced Spec.

Lemma get_value (j : json) (k : string) (v : jsval) :
  get (Some j) k = Normal v -> v = field j k.
Proof. destruct j; cbn; intros [= <-]; reflexivity. Qed.

Section Facts.
Variable clock : nat -> Z.
Variable JSON_parse : string -> option json.
Variable trim : string -> string.

Local Abbreviation on_line := (Enhanced.on_line clock JSON_parse).
Local Abbreviation handle_parsed := (Enhanced.handle_parsed clock).
Local Abbreviation decodes := (Spec.decodes JSON_parse).

(** *** The generating flag *)

Section Flag.
Variable g : bool.

Local Abbreviation flag_is := (Spec.flag_is g).

Lemma flag_untouched {A : Type} (m : M A) :
  (forall e, isGenerating (ui (exec m e)) = isGenerating (ui e)) ->
  keeps flag_is m.
Proof. intros H e He. unfold Spec.flag_is. rewrite H. exact He. Qed.

Lemma flag_addMessage (m : Msg.t) : keeps flag_is (Enhanced.addMessage clock m).
Proof.
  apply flag_untouched. intros e. unfold exec.
  destruct (EnhancedFacts.addMessage_spec clock m e) as (i & ts & n & Heq & _).
  rewrite Heq. reflexivity.
Qed.

Ltac flag :=
  repeat first
    [ apply EnhancedFacts.keeps_ret
    | apply EnhancedFacts.keeps_lift
    | apply EnhancedFacts.keeps_throw
    | apply flag_addMessage
    | apply flag_untouched; intros ?; reflexivity
    | apply EnhancedFacts.keeps_bind; [|intros ?]
    | apply EnhancedFacts.keeps_try_catch; [|intros ?]
    | apply EnhancedFacts.keeps_if
    | apply EnhancedFacts.keeps_forEach; intros ?
    | match goal with
      | |- keeps _ (match ?x with _ => _ end) => destruct x
      end ].

Lemma flag_handle_parsed (parsed : json) :
  is_str (field parsed "type") "error" = false ->
  keeps flag_is (handle_parsed parsed).
Proof.
  intros Herr e He. unfold exec, Enhanced.handle_parsed. cbn [bind lift].
  destruct (get (Some parsed) "type") as [ty|err] eqn:Hget; [|exact He].
  apply get_value in Hget. subst ty. rewrite Herr.
  revert e He.
  change (keeps flag_is
            (if is_str (field parsed "type") "init" then case_init clock parsed
             else if is_str (field parsed "type") "text" then case_text clock parsed
             else if is_str (field parsed "type") "result"
                  then case_result clock parsed
             else if is_str (field parsed "type") "debug"
                  then case_debug clock parsed
             else ret tt)).
  unfold Enhanced.case_init, Enhanced.case_text, Enhanced.case_result,
    Enhanced.case_debug, Enhanced.on_assistant_item, Enhanced.on_user_item.
  flag.
Qed.

End Flag.

Lemma idle_set : keeps (flag_is false) (setIsGenerating false).
Proof. intros e _. reflexivity. Qed.

Lemma idle_handle_parsed (parsed : json) :
  keeps (flag_is false) (handle_parsed parsed).
Proof.
  unfold Enhanced.handle_parsed, Enhanced.case_init, Enhanced.case_text,
    Enhanced.case_result, Enhanced.case_debug, Enhanced.case_error,
    Enhanced.on_assistant_item, Enhanced.on_user_item.
  repeat first
    [ apply EnhancedFacts.keeps_ret
    | apply EnhancedFacts.keeps_lift
    | apply idle_set
    | apply flag_addMessage
    | apply flag_untouched; intros ?; reflexivity
    | apply EnhancedFacts.keeps_bind; [|intros ?]
    | apply EnhancedFacts.keeps_try_catch; [|intros ?]
    | apply EnhancedFacts.keeps_if
    | apply EnhancedFacts.keeps_forEach; intros ?
    | match goal with
      | |- keeps _ (match ?x with _ => _ end) => destruct x
      end ].
Qed.

Lemma idle_on_line (any : string) : keeps (flag_is false) (on_line any).
Proof.
  unfold Enhanced.on_line, Enhanced.on_data.
  repeat apply EnhancedFacts.keeps_if; try apply EnhancedFacts.keeps_ret;
    try apply idle_set.
  apply EnhancedFacts.keeps_try_catch; [|intros _; apply EnhancedFacts.keeps_ret].
  destruct (JSON_parse _); [apply idle_handle_parsed | apply EnhancedFacts.keeps_throw].
Qed.

(** X3: only the end marker and an [error] event end the generating
    state.  An event of any other type, a [result] event included, leaves
    the flag as it was; and no line ever turns an idle component back to
    generating. *)
Theorem only_done_and_error_end_generation
    (line : string) (parsed : json) (e : env) :
  decodes line parsed ->
  is_str (field parsed "type") "error" = false ->
  isGenerating (ui (exec (on_line line) e)) = isGenerating (ui e) /\
  (forall any : string,
     isGenerating (ui e) = false ->
     isGenerating (ui (exec (on_line any) e)) = false).
Proof.
  intros Hdec Herr. split.
  - unfold exec.
    rewrite (EnhancedFacts.on_line_decodes clock JSON_parse line parsed e Hdec).
    apply (EnhancedFacts.keeps_try_catch (flag_is (isGenerating (ui e)))
             (handle_parsed parsed) (fun _ => ret tt));
      [apply flag_handle_parsed; exact Herr | intros err e' H; exact H | reflexivity].
  - intros any Hidle. apply (idle_on_line any e Hidle).
Qed.

(** *** What the assistant message shows *)

Lemma is_str_eq (v : jsval) (lit : string) : is_str v lit = true -> v = str lit.
Proof.
  destruct v as [[| | |s| |]|]; cbn; try discriminate.
  intros H. apply String.eqb_eq in H. subst. reflexivity.
Qed.

Lemma exec_try_catch_ret (m : M unit) (e : env) :
  exec (try_catch m (fun _ => ret tt)) e = exec m e.
Proof. unfold exec. cbn. destruct (m e) as [[[]|err] e1]; reflexivity. Qed.

Lemma exec_forEach_app (xs ys : list string) (e : env) :
  exec (forEach on_line (xs ++ ys)) e
  = exec (forEach on_line ys) (exec (forEach on_line xs) e).
Proof.
  unfold exec. rewrite EnhancedFacts.forEach_app. cbn.
  pose proof (EnhancedFacts.forEach_on_line_normal clock JSON_parse xs e) as Hn.
  destruct (forEach on_line xs e) as [[[]|err] e1]; cbn in *; [|discriminate].
  reflexivity.
Qed.

Lemma exec_forEach_cons (x : string) (ys : list string) (e : env) :
  exec (forEach on_line (x :: ys)) e
  = exec (forEach on_line ys) (exec (on_line x) e).
Proof.
  change (x :: ys) with ([x] ++ ys)%list.
  rewrite (exec_forEach_app [x] ys e). f_equal.
  unfold exec. cbn.
  destruct (on_line x e) as [[[]|err] e1]; reflexivity.
Qed.

Lemma startsWith_append (p line : string) :
  startsWith p line = true -> exists rest, line = p ++ rest.
Proof.
  revert line. induction p as [|c p IH]; intros line H; cbn in *.
  - exists line. reflexivity.
  - destruct line as [|d line]; [discriminate|].
    apply andb_prop in H. destruct H as [H1 H2].
    apply Ascii.eqb_eq in H1. subst d.
    destruct (IH _ H2) as [rest ->]. exists rest. reflexivity.
Qed.

(** What a line amounts to. *)
Lemma on_line_cases (line : string) (e : env) :
  exec (on_line line) e = e \/
  exec (on_line line) e = exec (setIsGenerating false) e \/
  exists parsed,
    decodes line parsed /\
    exec (on_line line) e = exec (handle_parsed parsed) e.
Proof.
  unfold Enhanced.on_line.
  destruct (startsWith "data: " line) eqn:Hstart; [|left; reflexivity].
  destruct (String.eqb_spec (slice 6 line) "[DONE]") as [Hd|Hd];
    [right; left; reflexivity|].
  unfold Enhanced.on_data.
  destruct (JSON_parse (slice 6 line)) as [parsed|] eqn:Hp; [|left; reflexivity].
  right. right. exists parsed. split; [|apply exec_try_catch_ret].
  exists (slice 6 line). repeat split; try assumption.
  destruct (startsWith_append _ _ Hstart) as [rest ->]. reflexivity.
Qed.

Lemma no_text_decodes (line : string) (parsed : json) :
  decodes line parsed ->
  no_text JSON_parse line = negb (is_str (field parsed "type") "text").
Proof.
  intros (d & -> & Hd & Hp). unfold no_text, data_line. cbn.
  destruct (String.eqb_spec d "[DONE]"); [contradiction|]. rewrite Hp. reflexivity.
Qed.

(** Properties of the log and of the call's assistant message that every
    event other than [text] keeps: they depend on nothing else, and stay
    true when a message whose id does not start with [assistant-] is
    appended. *)
Section OtherEvents.
Variable P : env -> Prop.
Hypothesis P_same :
  forall e e',
    messages (ui e') = messages (ui e) ->
    currentAssistantMessage (me e') = currentAssistantMessage (me e) ->
    P e -> P e'.
Hypothesis P_more :
  forall e e' m,
    startsWith "assistant-" (Msg.id m) = false ->
    Msg.type m <> type_assistant ->
    messages (ui e') = (messages (ui e) ++ [m])%list ->
    currentAssistantMessage (me e') = currentAssistantMessage (me e) ->
    P e -> P e'.

Lemma other_untouched {A : Type} (m : M A) :
  (forall e, messages (ui (exec m e)) = messages (ui e) /\
             currentAssistantMessage (me (exec m e))
             = currentAssistantMessage (me e)) ->
  keeps P m.
Proof. intros H e He. destruct (H e) as [H1 H2]. exact (P_same e _ H1 H2 He). Qed.

Lemma other_addMessage (m : Msg.t) :
  Msg.id m <> "" -> startsWith "assistant-" (Msg.id m) = false ->
  Msg.type m <> type_assistant ->
  keeps P (Enhanced.addMessage clock m).
Proof.
  intros Hne Hpre Hty e He. unfold exec.
  destruct (EnhancedFacts.addMessage_spec clock m e) as (i & ts & n & Heq & Hi).
  rewrite Heq. cbn [snd].
  apply (P_more e _ (Msg.with_id_timestamp i ts m)); try assumption;
    try reflexivity.
  cbn. rewrite (Hi Hne). exact Hpre.
Qed.

Ltac other :=
  repeat first
    [ apply EnhancedFacts.keeps_ret
    | apply EnhancedFacts.keeps_lift
    | apply EnhancedFacts.keeps_throw
    | apply other_addMessage; cbn; [discriminate | reflexivity | discriminate]
    | apply other_untouched; intros ?; split; reflexivity
    | apply EnhancedFacts.keeps_bind; [|intros ?]
    | apply EnhancedFacts.keeps_try_catch; [|intros ?]
    | apply EnhancedFacts.keeps_if
    | apply EnhancedFacts.keeps_forEach; intros ?
    | match goal with
      | |- keeps _ (match ?x with _ => _ end) => destruct x
      end ].

Lemma other_handle_parsed (parsed : json) :
  is_str (field parsed "type") "text" = false ->
  keeps P (handle_parsed parsed).
Proof.
  intros Htext e He. unfold exec, Enhanced.handle_parsed. cbn [bind lift].
  destruct (get (Some parsed) "type") as [ty|err] eqn:Hget; [|exact He].
  apply get_value in Hget. subst ty. rewrite Htext.
  revert e He.
  change (keeps P
            (if is_str (field parsed "type") "init" then case_init clock parsed
             else if is_str (field parsed "type") "result"
                  then case_result clock parsed
             else if is_str (field parsed "type") "debug"
                  then case_debug clock parsed
             else if is_str (field parsed "type") "error"
                  then case_error clock parsed
             else ret tt)).
  unfold Enhanced.case_init, Enhanced.case_result, Enhanced.case_debug,
    Enhanced.case_error, Enhanced.on_assistant_item, Enhanced.on_user_item.
  other.
Qed.

Lemma other_on_line (line : string) :
  no_text JSON_parse line = true -> keeps P (on_line line).
Proof.
  intros Hno e He.
  destruct (on_line_cases line e) as [-> | [-> | (parsed & Hdec & ->)]].
  - exact He.
  - apply (P_same e); [reflexivity | reflexivity | exact He].
  - apply other_handle_parsed; [|exact He].
    rewrite (no_text_decodes line parsed Hdec) in Hno.
    destruct (is_str _ "text"); [discriminate | reflexivity].
Qed.

Lemma other_lines (lines : list string) :
  forallb (no_text JSON_parse) lines = true -> keeps P (forEach on_line lines).
Proof.
  induction lines as [|l ls IH]; cbn [forallb forEach]; intros H.
  - apply EnhancedFacts.keeps_ret.
  - apply andb_prop in H. destruct H as [Hl Hls].
    apply EnhancedFacts.keeps_bind; [apply other_on_line; exact Hl|].
    intros _. apply IH. exact Hls.
Qed.

End OtherEvents.

Lemma shows_same (v : jsval) (e e' : env) :
  messages (ui e') = messages (ui e) ->
  currentAssistantMessage (me e') = currentAssistantMessage (me e) ->
  shows v e -> shows v e'.
Proof.
  intros Hm Hc (c & Hcur & Hpre & Hin & Hall).
  exists c. rewrite Hm, Hc. repeat split; assumption.
Qed.

Lemma shows_more (v : jsval) (e e' : env) (m : Msg.t) :
  startsWith "assistant-" (Msg.id m) = false ->
  Msg.type m <> type_assistant ->
  messages (ui e') = (messages (ui e) ++ [m])%list ->
  currentAssistantMessage (me e') = currentAssistantMessage (me e) ->
  shows v e -> shows v e'.
Proof.
  intros Hpre _ Hm Hc (c & Hcur & Hcpre & (m0 & Hin & Hid) & Hall).
  exists c. rewrite Hm, Hc. repeat split; try assumption.
  - exists m0. split; [apply in_or_app; left|]; assumption.
  - intros x Hx Hxid. apply in_app_or in Hx.
    destruct Hx as [Hx|[<-|[]]]; [apply Hall; assumption|].
    rewrite Hxid, Hcpre in Hpre. discriminate.
Qed.

Lemma showing_same (e e' : env) :
  messages (ui e') = messages (ui e) ->
  currentAssistantMessage (me e') = currentAssistantMessage (me e) ->
  showing e -> showing e'.
Proof.
  intros Hm Hc [H|(v & H)]; [left; congruence|].
  right. exists v. exact (shows_same v e e' Hm Hc H).
Qed.

Lemma showing_more (e e' : env) (m : Msg.t) :
  startsWith "assistant-" (Msg.id m) = false ->
  Msg.type m <> type_assistant ->
  messages (ui e') = (messages (ui e) ++ [m])%list ->
  currentAssistantMessage (me e') = currentAssistantMessage (me e) ->
  showing e -> showing e'.
Proof.
  intros Hpre Hty Hm Hc [H|(v & H)]; [left; congruence|].
  right. exists v. exact (shows_more v e e' m Hpre Hty Hm Hc H).
Qed.

Lemma case_text_shows (parsed : json) (e : env) :
  showing e ->
  shows (or_else (field parsed "fullText") (field parsed "text"))
        (exec (Enhanced.case_text clock parsed) e).
Proof.
  intros Hs. unfold exec, Enhanced.case_text. cbn.
  destruct e as [[log inp gen tools] [ph cur table] t]. cbn in *.
  destruct cur as [c|]; cbn.
  - destruct Hs as [Hs|(v0 & c0 & Hc0 & Hpre & (m & Hin & Hid) & _)];
      [discriminate|].
    cbn in *. injection Hc0 as <-.
    exists c. cbn. repeat split; try assumption.
    + destruct (EnhancedFacts.update_content_keeps (Some c)
                  (or_else (field parsed "fullText") (field parsed "text"))
                  log m Hin) as (m' & Hin' & Hid').
      exists m'. split; [assumption|congruence].
    + apply EnhancedFacts.update_content_content.
  - match goal with
    | |- context [Enhanced.addMessage clock ?m ?e0] =>
        destruct (EnhancedFacts.addMessage_spec clock m e0)
          as (i & ts & n & Heq & Hi)
    end.
    rewrite Heq. cbn. cbn in Hi. rewrite Hi by discriminate.
    eexists. cbn. split; [reflexivity|]. split; [reflexivity|]. split.
    + match goal with
      | |- context [update_content ?c ?v (?l ++ [?x])] =>
          destruct (EnhancedFacts.update_content_keeps c v (l ++ [x]) x)
            as (m' & Hin' & Hid')
      end.
      { apply in_or_app. right. left. reflexivity. }
      exists m'. split; [exact Hin'|]. rewrite Hid'. reflexivity.
    + apply EnhancedFacts.update_content_content.
Qed.

Lemma on_line_text (line : string) (parsed : json) (e : env) :
  decodes line parsed ->
  is_str (field parsed "type") "text" = true ->
  exec (on_line line) e = exec (Enhanced.case_text clock parsed) e.
Proof.
  intros Hdec Hty. unfold exec.
  rewrite (EnhancedFacts.on_line_decodes clock JSON_parse line parsed e Hdec).
  change (exec (try_catch (handle_parsed parsed) (fun _ => ret tt)) e
          = exec (Enhanced.case_text clock parsed) e).
  rewrite exec_try_catch_ret. unfold exec.
  rewrite (EnhancedFacts.handle_text clock parsed e (is_str_eq _ _ Hty)).
  reflexivity.
Qed.

Lemma showing_on_line (line : string) : keeps showing (on_line line).
Proof.
  intros e He.
  destruct (on_line_cases line e) as [-> | [-> | (parsed & Hdec & Heq)]].
  - exact He.
  - apply (showing_same e); [reflexivity | reflexivity | exact He].
  - destruct (is_str (field parsed "type") "text") eqn:Hty.
    + rewrite (on_line_text line parsed e Hdec Hty).
      right. eexists. apply case_text_shows. exact He.
    + rewrite Heq.
      apply (other_handle_parsed showing showing_same showing_more parsed Hty e He).
Qed.

(** X4: the assistant message shows what the last [text] event carried:
    its [fullText] when that is truthy, else its [text] alone (the deltas
    of earlier events are not accumulated).  Events of other types,
    malformed lines and the end marker that come after it do not touch
    that content, and every message with the id of the assistant message
    shows it. *)
Theorem last_text_event_is_shown
    (before after : list string) (line : string) (parsed : json) (e : env) :
  currentAssistantMessage (me e) = None ->
  decodes line parsed ->
  is_str (field parsed "type") "text" = true ->
  forallb (no_text JSON_parse) after = true ->
  shows (or_else (field parsed "fullText") (field parsed "text"))
        (exec (forEach on_line (before ++ line :: after)) e).
Proof.
  intros Hnone Hdec Hty Hafter.
  rewrite exec_forEach_app, exec_forEach_cons.
  apply (other_lines (shows _) (shows_same _) (shows_more _) after Hafter).
  rewrite (on_line_text line parsed _ Hdec Hty).
  apply case_text_shows.
  apply (EnhancedFacts.keeps_forEach showing on_line before showing_on_line e).
  left. exact Hnone.
Qed.

(** *** The log only grows *)

Lemma assistants_app (a b : list Msg.t) :
  assistants (a ++ b) = assistants a + assistants b.
Proof. unfold assistants. rewrite filter_app, length_app. reflexivity. Qed.

Lemma assistants_update (cur : option Msg.t) (v : jsval) (log : list Msg.t) :
  assistants (update_content cur v log) = assistants log.
Proof.
  unfold assistants, update_content.
  induction log as [|m log IH]; cbn; [reflexivity|].
  rewrite (proj1 (proj2 (EnhancedFacts.update_content_preserves cur v m))).
  destruct (message_type_eqb (Msg.type m) type_assistant); cbn; rewrite IH;
    reflexivity.
Qed.

Lemma update_content_app (cur : option Msg.t) (v : jsval) (a b : list Msg.t) :
  update_content cur v (a ++ b)
  = (update_content cur v a ++ update_content cur v b)%list.
Proof. unfold update_content. apply map_app. Qed.

Lemma rewritten_update (cur : option Msg.t) (c : Msg.t) (v : jsval)
    (log kept : list Msg.t) :
  cur = None \/ cur = Some c ->
  Forall2 (same_or_rewritten cur) log kept ->
  Forall2 (same_or_rewritten (Some c)) log (update_content (Some c) v kept).
Proof.
  intros Hcur H. induction H as [|m m' log kept Hm _ IH]; cbn; constructor;
    [|exact IH].
  destruct (String.eqb_spec (Msg.id m') (Msg.id c)) as [E|E].
  - right. exists c, v. split; [reflexivity|].
    destruct Hm as [->|(c0 & v0 & Hc0 & Hid & ->)].
    + split; [exact E | reflexivity].
    + split; [exact E | destruct m; reflexivity].
  - destruct Hm as [->|(c0 & v0 & Hc0 & Hid & ->)]; [left; reflexivity|].
    right. exists c, v0. destruct Hcur as [Hn|Hs]; [congruence|].
    split; [reflexivity|]. split; [congruence | reflexivity].
Qed.

Lemma extends_refl (e : env) : extends e e.
Proof.
  split; [auto|]. exists (messages (ui e)), []. rewrite app_nil_r.
  repeat split.
  - induction (messages (ui e)); constructor; [left; reflexivity | assumption].
  - unfold started. destruct (currentAssistantMessage (me e)); reflexivity.
Qed.

Section Extends.
Variable e0 : env.

Lemma extends_same (e e' : env) :
  messages (ui e') = messages (ui e) ->
  currentAssistantMessage (me e') = currentAssistantMessage (me e) ->
  extends e0 e -> extends e0 e'.
Proof.
  intros Hm Hc (Hkeep & kept & added & Hlog & Hrel & Hn).
  unfold extends, started in *. rewrite Hm, Hc.
  split; [exact Hkeep|]. exists kept, added. repeat split; assumption.
Qed.

Lemma extends_more (e e' : env) (m : Msg.t) :
  startsWith "assistant-" (Msg.id m) = false ->
  Msg.type m <> type_assistant ->
  messages (ui e') = (messages (ui e) ++ [m])%list ->
  currentAssistantMessage (me e') = currentAssistantMessage (me e) ->
  extends e0 e -> extends e0 e'.
Proof.
  intros _ Hty Hm Hc (Hkeep & kept & added & Hlog & Hrel & Hn).
  unfold extends, started in *. rewrite Hm, Hc.
  split; [exact Hkeep|]. exists kept, (added ++ [m])%list. repeat split.
  - rewrite Hlog, app_assoc. reflexivity.
  - exact Hrel.
  - rewrite assistants_app, Hn. unfold assistants. cbn.
    destruct (Msg.type m); try contradiction; cbn; apply Nat.add_0_r.
Qed.

Lemma extends_case_text (parsed : json) :
  keeps (extends e0) (Enhanced.case_text clock parsed).
Proof.
  intros e (Hkeep & kept & added & Hlog & Hrel & Hn).
  unfold exec, Enhanced.case_text. cbn.
  destruct e as [[log inp gen tools] [ph cur table] t]. cbn in *.
  destruct cur as [c|]; cbn.
  - split; [exact Hkeep|]. cbn.
    exists (update_content (Some c) (or_else (field parsed "fullText")
                                             (field parsed "text")) kept),
           (update_content (Some c) (or_else (field parsed "fullText")
                                             (field parsed "text")) added).
    repeat split.
    + rewrite Hlog. apply update_content_app.
    + apply (rewritten_update (Some c)); [right; reflexivity | exact Hrel].
    + rewrite assistants_update. exact Hn.
  - match goal with
    | |- context [Enhanced.addMessage clock ?m ?e0] =>
        destruct (EnhancedFacts.addMessage_spec clock m e0)
          as (i & ts & n & Heq & Hi)
    end.
    rewrite Heq. cbn. cbn in Hi. rewrite Hi by discriminate. clear Heq Hi.
    assert (H0 : currentAssistantMessage (me e0) = None).
    { destruct (currentAssistantMessage (me e0)) as [c0|] eqn:E; [|reflexivity].
      specialize (Hkeep c0 eq_refl). discriminate. }
    split; cbn.
    + intros c Hc. rewrite H0 in Hc. discriminate.
    + eexists (update_content _ _ kept), (update_content _ _ (added ++ [_])).
      repeat split.
      * rewrite Hlog, <- app_assoc. apply update_content_app.
      * apply (rewritten_update None); [left; reflexivity | exact Hrel].
      * rewrite assistants_update, assistants_app, Hn.
        unfold started. cbn. rewrite H0. reflexivity.
Qed.

Lemma extends_on_line (line : string) : keeps (extends e0) (on_line line).
Proof.
  intros e He.
  destruct (on_line_cases line e) as [-> | [-> | (parsed & Hdec & Heq)]].
  - exact He.
  - apply (extends_same e); [reflexivity | reflexivity | exact He].
  - destruct (is_str (field parsed "type") "text") eqn:Hty.
    + rewrite (on_line_text line parsed e Hdec Hty).
      apply extends_case_text. exact He.
    + rewrite Heq.
      apply (other_handle_parsed (extends e0) extends_same extends_more
               parsed Hty e He).
Qed.

End Extends.

(** X5: whatever lines a call processes, the log only grows.  The
    messages that were there stay in their places and keep everything but,
    for those with the id of the call's assistant message, the content;
    the call adds an [assistant] message exactly when it gets one of its
    own, which happens at most once; and it never drops or replaces the
    assistant message it has. *)
Theorem log_only_grows (lines : list string) (e : env) :
  extends e (exec (forEach on_line lines) e).
Proof.
  apply (EnhancedFacts.keeps_forEach (extends e) on_line lines
           (extends_on_line e) e).
  apply extends_refl.
Qed.

End Facts.

(** A [result] event leaves the component generating. *)
Lemma only_done_and_error_end_generation_witness :
  isGenerating
    (ui (exec (Enhanced.on_line Fixture.clock Fixture.parse Fixture.result_line)
              Fixture.streaming_env))
  = isGenerating (ui Fixture.streaming_env).
Proof.
  refine (proj1 (only_done_and_error_end_generation Fixture.clock Fixture.parse
                   Fixture.result_line _ Fixture.streaming_env _ _)).
  - apply Claims.frame_decodes; [discriminate | vm_compute; reflexivity].
  - reflexivity.
Defined.

(** A call that receives two deltas, a [result] event and the end marker
    shows the second delta alone. *)
Lemma last_text_event_is_shown_witness :
  shows (str "lo")
    (exec (forEach (Enhanced.on_line Fixture.clock Fixture.parse)
             [Fixture.delta_Hel; Fixture.delta_lo; Fixture.result_line; DONE])
          Fixture.streaming_env).
Proof.
  apply (last_text_event_is_shown Fixture.clock Fixture.parse
           [Fixture.delta_Hel] [Fixture.result_line; DONE] Fixture.delta_lo
           (JObj [("type", JStr "text"); ("text", JStr "lo")])
           Fixture.streaming_env).
  - reflexivity.
  - apply Claims.frame_decodes; [discriminate | vm_compute; reflexivity].
  - reflexivity.
  - vm_compute. reflexivity.
Defined.

End Turn.

(* ===================================================================== *)
(** ** Tool events in detail                                              *)
(* ===================================================================== *)

Module Tools.
Import Enhanced Spec.

Section Facts.
Variable clock : nat -> Z.
Variable JSON_parse : string -> option json.

Local Abbreviation on_line := (Enhanced.on_line clock JSON_parse).
Local Abbreviation handle_parsed := (Enhanced.handle_parsed clock).
Local Abbreviation decodes := (Spec.decodes JSON_parse).
Local Abbreviation carries := (Spec.carries JSON_parse).

(** What the [TodoWrite] case adds after the result message of an
    invocation recorded as [te]. *)
Local Abbreviation todo_of te extra :=
  (match name_toLowerCase (ToolExecution.name te) with
   | Normal lowered =>
       if andb (lowered =? "todowrite")
               (truthy (get_opt (ToolExecution.input te) "todos"))
       then exists t,
              extra = [t] /\
              Msg.type t = type_tool_result /\
              Msg.toolId t = None /\
              Msg.toolName t = str "TodoWrite" /\
              Msg.toolInput t
              = Some (object [("todos", get_opt (ToolExecution.input te) "todos")]) /\
              Msg.toolResult t = str "Todo list updated successfully"
       else extra = []
   | Thrown _ => extra = []
   end).

Lemma handle_use_id (parsed : json) (k name : string) (input : jsval) (e : env) :
  encodes (Use k name input) parsed ->
  exists m te n,
    handle_parsed parsed e
    = (Normal tt,
       Env (Component (messages (ui e) ++ [m]) (Enhanced.input (ui e))
              (isGenerating (ui e))
              (Map_set (toolExecutions (ui e)) (str k) te))
           (Call (phase_of (me e)) (currentAssistantMessage (me e))
              (Map_set (currentToolExecutions (me e)) (str k) te))
           n) /\
    Msg.id m = "tool-use-" ++ k /\
    Msg.type m = type_tool_use /\ Msg.toolId m = str k /\
    Msg.toolName m = str name /\ Msg.toolInput m = input /\
    ToolExecution.isComplete te = false /\
    ToolExecution.name te = str name /\ ToolExecution.input te = input.
Proof.
  intros (item & (Hty & data & msg & Hdata & Hrole & Hmsg & Hcontent)
               & (Hity & Hik & Hin & Hii)).
  unfold Enhanced.handle_parsed.
  assert (Hnn : parsed <> JNull)
    by (eapply EnhancedFacts.field_not_null; exact Hdata).
  rewrite (EnhancedFacts.get_field parsed "type" Hnn), Hty. cbn.
  unfold case_debug. rewrite Hdata, !EnhancedFacts.get_opt_field, Hrole, Hmsg.
  rewrite !EnhancedFacts.get_opt_field, Hcontent. cbn.
  unfold on_assistant_item.
  rewrite (EnhancedFacts.get_field item "type") by (intros ->; discriminate).
  rewrite Hity, Hik, Hin, Hii. cbn.
  match goal with
  | |- context [Enhanced.addMessage clock ?m ?e0] =>
      destruct (EnhancedFacts.addMessage_spec clock m e0)
        as (i & ts & n & Heq & Hi)
  end.
  rewrite Heq. cbn. cbn in Hi. rewrite Hi by discriminate.
  eexists _, _, _. split; [reflexivity|]. cbn. repeat split.
Qed.

Lemma handle_result_full (parsed : json) (k : string) (content is_error : jsval)
    (te : ToolExecution.t) (e : env) :
  encodes (Res k content is_error) parsed ->
  k <> "" ->
  Map_get (currentToolExecutions (me e)) (str k) = Some te ->
  exists r extra te' n,
    try_catch (handle_parsed parsed) (fun _ => ret tt) e
    = (Normal tt,
       Env (Component (messages (ui e) ++ r :: extra) (Enhanced.input (ui e))
              (isGenerating (ui e))
              (Map_set (toolExecutions (ui e)) (str k) te'))
           (Call (phase_of (me e)) (currentAssistantMessage (me e))
              (Map_set (currentToolExecutions (me e)) (str k) te'))
           n) /\
    Msg.id r = "tool-result-" ++ k /\
    Msg.type r = type_tool_result /\ Msg.toolId r = str k /\
    Msg.toolName r = ToolExecution.name te /\
    Msg.toolInput r = ToolExecution.input te /\
    Msg.toolResult r = content /\
    Msg.error r = (if truthy is_error then content else None) /\
    ToolExecution.isComplete te' = true /\
    ToolExecution.name te' = ToolExecution.name te /\
    ToolExecution.input te' = ToolExecution.input te /\
    ToolExecution.result te' = content /\
    todo_of te extra.
Proof.
  intros (item & (Hty & data & msg & Hdata & Hrole & Hmsg & Hcontent)
               & (Hity & Hik & Hic & Hie)) Hk Hget.
  unfold Enhanced.handle_parsed.
  assert (Hnn : parsed <> JNull)
    by (eapply EnhancedFacts.field_not_null; exact Hdata).
  cbn [try_catch bind lift].
  rewrite (EnhancedFacts.get_field parsed "type" Hnn), Hty. cbn.
  unfold case_debug. rewrite Hdata, !EnhancedFacts.get_opt_field, Hrole, Hmsg.
  rewrite !EnhancedFacts.get_opt_field, Hcontent. cbn.
  unfold on_user_item.
  rewrite (EnhancedFacts.get_field item "type") by (intros ->; discriminate).
  rewrite Hity, Hik, Hic, Hie. cbn.
  destruct (String.eqb_spec k "") as [|_]; [contradiction|]. cbn.
  rewrite Hget. cbn.
  match goal with
  | |- context [Enhanced.addMessage clock ?m ?e0] =>
      destruct (EnhancedFacts.addMessage_spec clock m e0)
        as (i & ts & n & Heq & Hi)
  end.
  rewrite Heq. clear Heq. cbn. cbn in Hi. rewrite Hi by discriminate. clear Hi.
  destruct (name_toLowerCase (ToolExecution.name te)) as [lowered|err]; cbn.
  - destruct (lowered =? "todowrite"); cbn.
    + destruct (truthy (get_opt (ToolExecution.input te) "todos")); cbn.
      * match goal with
        | |- context [Enhanced.addMessage clock ?m ?e0] =>
            destruct (EnhancedFacts.addMessage_spec clock m e0)
              as (i' & ts' & n' & Heq & Hi')
        end.
        rewrite Heq. clear Heq. cbn. rewrite <- app_assoc. cbn [app].
        eexists _, [_], _, _. split; [reflexivity|]. cbn.
        repeat split. eexists. split; [reflexivity|]. cbn. repeat split.
      * eexists _, [], _, _. split; [reflexivity|]. cbn. repeat split.
    + eexists _, [], _, _. split; [reflexivity|]. cbn. repeat split.
  - eexists _, [], _, _. split; [reflexivity|]. cbn. repeat split.
Qed.

(** X6: the result of an invocation that was started under a name that
    lower-cases to [todowrite], with an input that has truthy [todos],
    adds two messages: the [tool_result] message of the invocation, and a
    second [tool_result] message named [TodoWrite] that carries the todos
    and no invocation id.  Under any other name, or without todos, it adds
    the first one only. *)
Theorem todo_write_adds_a_second_message
    (use_line result_line : string) (k name : string)
    (input content is_error : jsval) (e : env) :
  carries [use_line; result_line]
          [Use k name input; Res k content is_error] ->
  k <> "" ->
  exists u r extra,
    messages (ui (exec (forEach on_line [use_line; result_line]) e))
    = (messages (ui e) ++ u :: r :: extra)%list /\
    Msg.type u = type_tool_use /\ Msg.toolId u = str k /\
    Msg.type r = type_tool_result /\ Msg.toolId r = str k /\
    Msg.toolName r = str name /\ Msg.toolResult r = content /\
    if andb (toLowerCase name =? "todowrite") (truthy (get_opt input "todos"))
    then exists t,
           extra = [t] /\
           Msg.type t = type_tool_result /\
           Msg.toolId t = None /\
           Msg.toolName t = str "TodoWrite" /\
           Msg.toolInput t = Some (object [("todos", get_opt input "todos")]) /\
           Msg.toolResult t = str "Todo list updated successfully"
    else extra = [].
Proof.
  intros Hc Hk.
  inversion Hc as [|l1 ev1 ls1 evs1 (p1 & Hd1 & He1) Hc1]; subst.
  inversion Hc1 as [|l2 ev2 ls2 evs2 (p2 & Hd2 & He2) Hc2]; subst.
  clear Hc Hc1 Hc2.
  unfold exec. cbn [forEach bind].
  rewrite (EnhancedFacts.on_line_decodes clock JSON_parse _ p1 e Hd1).
  destruct (handle_use_id p1 k name input e He1)
    as (u & te & n & Heq & _ & Hut & Hui & _ & _ & _ & Hname & Hinput).
  rewrite (EnhancedFacts.try_catch_normal _ _ _ _ _ Heq). clear Heq.
  rewrite (EnhancedFacts.on_line_decodes clock JSON_parse _ p2 _ Hd2).
  match goal with
  | |- context [try_catch (handle_parsed p2) _ ?e1] =>
      destruct (handle_result_full p2 k content is_error te e1 He2 Hk)
        as (r & extra & te' & n' & Heq & _ & Hrt & Hri & Hrn & _ & Hrr & _
            & _ & _ & _ & _ & Htodo)
  end.
  { cbn. apply EnhancedFacts.Map_get_set_same. }
  rewrite Heq. clear Heq. cbn.
  exists u, r, extra. rewrite <- app_assoc. cbn [app].
  repeat split; try assumption; try congruence.
  rewrite Hname, Hinput in Htodo. cbn in Htodo. exact Htodo.
Qed.

(** *** The record a result finds *)

(** The table has a record for [k] with the name and input [acc] tells. *)
Local Abbreviation agrees k acc table :=
  (match acc with
   | Some (name, input) =>
       exists te, Map_get table (str k) = Some te /\
                  ToolExecution.name te = str name /\
                  ToolExecution.input te = input
   | None => True
   end).

Lemma result_keeps_names (parsed : json) (k' : string)
    (content is_error : jsval) (e : env) :
  encodes (Res k' content is_error) parsed ->
  let e' := exec (try_catch (handle_parsed parsed) (fun _ => ret tt)) e in
  currentToolExecutions (me e') = currentToolExecutions (me e) \/
  exists te te',
    Map_get (currentToolExecutions (me e)) (str k') = Some te /\
    currentToolExecutions (me e')
    = Map_set (currentToolExecutions (me e)) (str k') te' /\
    ToolExecution.name te' = ToolExecution.name te /\
    ToolExecution.input te' = ToolExecution.input te.
Proof.
  intros Henc. cbn zeta.
  destruct (Map_get (currentToolExecutions (me e)) (str k')) as [te|] eqn:Hget.
  - destruct (String.eqb_spec k' "") as [->|Hk].
    + left.
      destruct Henc as (item & (Hty & data & msg & Hdata & Hrole & Hmsg & Hcontent)
                             & (Hity & Hik & Hic & Hie)).
      unfold exec, Enhanced.handle_parsed.
      assert (Hnn : parsed <> JNull)
        by (eapply EnhancedFacts.field_not_null; exact Hdata).
      cbn [try_catch bind lift].
      rewrite (EnhancedFacts.get_field parsed "type" Hnn), Hty. cbn.
      unfold case_debug.
      rewrite Hdata, !EnhancedFacts.get_opt_field, Hrole, Hmsg.
      rewrite !EnhancedFacts.get_opt_field, Hcontent. cbn.
      unfold on_user_item.
      rewrite (EnhancedFacts.get_field item "type") by (intros ->; discriminate).
      rewrite Hity, Hik. cbn. reflexivity.
    + right.
      destruct (handle_result_full parsed k' content is_error te e Henc Hk Hget)
        as (r & extra & te' & n & Heq & _ & _ & _ & _ & _ & _ & _ & _
            & Hn & Hi & _).
      exists te, te'. unfold exec. rewrite Heq. cbn. repeat split; assumption.
  - left. destruct Henc as (item & Henv & Hitem).
    unfold exec. cbn [try_catch].
    rewrite (EnhancedFacts.handle_unmatched_result clock parsed item
               (str k') content is_error e Henv Hitem Hget).
    reflexivity.
Qed.

Lemma latest_agrees (k : string) (evs : list tool_event) :
  forall (lines : list string) (acc : option (string * jsval)) (e : env),
  carries lines evs ->
  agrees k acc (currentToolExecutions (me e)) ->
  agrees k (latest k acc evs)
         (currentToolExecutions (me (exec (forEach on_line lines) e))).
Proof.
  induction evs as [|ev evs IH]; intros lines acc e Hc Hacc.
  - inversion Hc; subst. exact Hacc.
  - inversion Hc as [|line ev' ls evs' (parsed & Hdec & Henc) Hrest]; subst.
    rewrite Turn.exec_forEach_cons.
    unfold exec at 2.
    rewrite (EnhancedFacts.on_line_decodes clock JSON_parse line parsed e Hdec).
    fold (exec (try_catch (handle_parsed parsed) (fun _ => ret tt)) e).
    destruct ev as [k' name input | k' content is_error]; cbn [latest].
    + apply IH; [exact Hrest|].
      destruct (handle_use_id parsed k' name input e Henc)
        as (u & te & n & Heq & _ & _ & _ & _ & _ & _ & Hname & Hinput).
      unfold exec. rewrite (EnhancedFacts.try_catch_normal _ _ _ _ _ Heq). cbn.
      destruct (String.eqb_spec k' k) as [->|Hkk].
      * exists te. split; [apply EnhancedFacts.Map_get_set_same|].
        split; assumption.
      * destruct acc as [[n0 i0]|]; [|exact I].
        destruct Hacc as (te0 & Hget & H1 & H2). exists te0.
        rewrite EnhancedFacts.Map_get_set_other by (unfold str; congruence).
        repeat split; assumption.
    + apply IH; [exact Hrest|].
      destruct (result_keeps_names parsed k' content is_error e Henc)
        as [Hsame | (te & te' & Hget & Hset & Hn & Hi)].
      * rewrite Hsame. exact Hacc.
      * rewrite Hset. destruct acc as [[n0 i0]|]; [|exact I].
        destruct Hacc as (te0 & Hget0 & H1 & H2).
        destruct (String.eqb_spec k' k) as [->|Hkk].
        -- exists te'. split; [apply EnhancedFacts.Map_get_set_same|].
           rewrite Hget in Hget0. injection Hget0 as <-.
           split; congruence.
        -- exists te0.
           rewrite EnhancedFacts.Map_get_set_other by (unfold str; congruence).
           repeat split; assumption.
Qed.

(** X7: a result always reports the latest start of its invocation.
    After any tool events, in any order and with ids repeated or results
    missing, the result of an invocation [k] that was started at least
    once is appended as a [tool_result] message with the name and input of
    the last [tool_use] event of [k]; this happens every time such a
    result arrives, also when [k] was completed before. *)
Theorem result_reports_latest_use
    (evs : list tool_event) (lines : list string) (line : string)
    (parsed : json) (k name : string) (input content is_error : jsval)
    (e : env) :
  carries lines evs ->
  decodes line parsed ->
  encodes (Res k content is_error) parsed ->
  k <> "" ->
  last_use k evs = Some (name, input) ->
  let e1 := exec (forEach on_line lines) e in
  exists r extra,
    messages (ui (exec (on_line line) e1)) = (messages (ui e1) ++ r :: extra)%list /\
    Msg.type r = type_tool_result /\ Msg.toolId r = str k /\
    Msg.toolName r = str name /\ Msg.toolInput r = input /\
    Msg.toolResult r = content /\
    Forall (fun x => Msg.toolId x = None) extra.
Proof.
  intros Hc Hdec Henc Hk Hlast e1.
  pose proof (latest_agrees k evs lines None e Hc I) as Hag.
  fold (last_use k evs) in Hag. rewrite Hlast in Hag.
  destruct Hag as (te & Hget & Hname & Hinput).
  fold e1 in Hget.
  destruct (handle_result_full parsed k content is_error te e1 Henc Hk Hget)
    as (r & extra & te' & n & Heq & _ & Hrt & Hri & Hrn & Hrin & Hrr & _
        & _ & _ & _ & _ & Htodo).
  exists r, extra. unfold exec.
  rewrite (EnhancedFacts.on_line_decodes clock JSON_parse line parsed e1 Hdec).
  rewrite Heq. cbn. repeat split; try assumption; try congruence.
  destruct (name_toLowerCase (ToolExecution.name te)) as [lowered|err].
  - destruct (_ && _)%bool.
    + destruct Htodo as (t & -> & _ & Hid & _). constructor; [exact Hid|constructor].
    + subst extra. constructor.
  - subst extra. constructor.
Qed.

End Facts.

Ltac fixture_decodes :=
  apply Claims.frame_decodes; [discriminate | vm_compute; reflexivity].

Ltac fixture_encodes :=
  eexists; split;
    [ split; [reflexivity | eexists _, _; repeat split; reflexivity]
    | repeat split; reflexivity ].

Ltac fixture_event := eexists; split; [fixture_decodes | fixture_encodes].

Lemma todo_events_carried :
  Spec.carries Fixture.parse [Fixture.todo_use; Fixture.todo_result]
    Fixture.todo_events.
Proof. repeat constructor; fixture_event. Qed.

(** A [TodoWrite] invocation and its result leave three messages. *)
Lemma todo_write_adds_a_second_message_witness :
  exists u r t,
    messages (ui (exec (forEach (Enhanced.on_line Fixture.clock Fixture.parse)
                          [Fixture.todo_use; Fixture.todo_result])
                       Fixture.streaming_env))
    = (messages (ui Fixture.streaming_env) ++ [u; r; t])%list /\
    Msg.toolName t = str "TodoWrite".
Proof.
  destruct (todo_write_adds_a_second_message Fixture.clock Fixture.parse
              Fixture.todo_use Fixture.todo_result "t2" "TodoWrite"
              (Some (JObj [("todos",
                            JArr [JObj [("content", JStr "ship");
                                        ("status", JStr "pending")]])]))
              (str "ok") (Some (JBool false)) Fixture.streaming_env
              todo_events_carried)
    as (u & r & extra & Hlog & _ & _ & _ & _ & _ & _ & Htodo).
  - discriminate.
  - cbn in Htodo. destruct Htodo as (t & -> & _ & _ & Hname & _).
    exists u, r, t. split; [exact Hlog | exact Hname].
Defined.

Lemma restarted_carried :
  Spec.carries Fixture.parse
    [Fixture.tool_use_t1; Fixture.tool_use_t1_again]
    [Use "t1" "Bash" (Some (JObj [("command", JStr "ls")]));
     Use "t1" "Read" (Some (JObj [("file_path", JStr "a.txt")]))].
Proof. repeat constructor; fixture_event. Qed.

Lemma result_t1_event :
  exists parsed,
    Spec.decodes Fixture.parse Fixture.tool_result_t1 parsed /\
    encodes (Res "t1" (str "a.txt") (Some (JBool false))) parsed.
Proof. fixture_event. Qed.

(** Invocation [t1] is started as [Bash], then again as [Read]; its
    result is reported as [Read]. *)
Lemma result_reports_latest_use_witness :
  let e1 := exec (forEach (Enhanced.on_line Fixture.clock Fixture.parse)
                    [Fixture.tool_use_t1; Fixture.tool_use_t1_again])
                 Fixture.streaming_env in
  exists r extra,
    messages (ui (exec (Enhanced.on_line Fixture.clock Fixture.parse
                          Fixture.tool_result_t1) e1))
    = (messages (ui e1) ++ r :: extra)%list /\
    Msg.toolName r = str "Read".
Proof.
  destruct result_t1_event as (parsed & Hdec & Henc).
  destruct (result_reports_latest_use Fixture.clock Fixture.parse
              _ _ Fixture.tool_result_t1 parsed
              "t1" "Read" (Some (JObj [("file_path", JStr "a.txt")]))
              (str "a.txt") (Some (JBool false)) Fixture.streaming_env
              restarted_carried Hdec Henc)
    as (r & extra & Hlog & _ & _ & Hname & _).
  - discriminate.
  - reflexivity.
  - exists r, extra. split; [exact Hlog | exact Hname].
Defined.

End Tools.

(* ===================================================================== *)
(** ** Submitting a prompt                                                *)
(* ===================================================================== *)

Module Submitting.
Import Enhanced Spec.

Lemma nth_error_last {A : Type} (l : list A) (x : A) :
  nth_error (l ++ [x]) (List.length l) = Some x.
Proof. induction l as [|y l IH]; [reflexivity | exact IH]. Qed.

Lemma set_nth_last {A : Type} (l : list A) (x y : A) :
  set_nth (List.length l) y (l ++ [x]) = (l ++ [y])%list.
Proof. induction l as [|z l IH]; cbn; [reflexivity|]. rewrite IH. reflexivity. Qed.

Section Facts.
Variable clock : nat -> Z.
Variable JSON_parse : string -> option json.
Variable trim : string -> string.

Local Abbreviation step := (Enhanced.step clock JSON_parse trim).

Lemma submit_refused (w : world) (q : option string) :
  (trim (input (page w)) =? "") || isGenerating (page w)
  || match q with None => true | Some _ => false end = true ->
  step w (Submit q)
  = World (page w) (calls w ++ [Call Returned None []]) (readings w).
Proof.
  intros H. cbn [Enhanced.step]. unfold run_call. cbn [calls page readings].
  rewrite nth_error_last. unfold handleSubmit_begin. cbn.
  rewrite H. cbn. rewrite set_nth_last. destruct w as [[log inp gen tools] cs n].
  reflexivity.
Qed.

Lemma submit_accepted (w : world) (project : string) :
  trim (input (page w)) <> "" ->
  isGenerating (page w) = false ->
  exists u n,
    step w (Submit (Some project))
    = World (Component (messages (page w) ++ [u]) "" true
                       (toolExecutions (page w)))
            (calls w ++ [Call Fetching None []]) n /\
    Msg.type u = type_user /\
    Msg.content u = str (trim (input (page w))).
Proof.
  intros Hinput Hidle. cbn [Enhanced.step]. unfold run_call.
  cbn [calls page readings]. rewrite nth_error_last.
  unfold handleSubmit_begin. cbn. rewrite Hidle.
  destruct (String.eqb_spec (trim (input (page w))) ""); [contradiction|].
  cbn.
  match goal with
  | |- context [Enhanced.addMessage clock ?m ?e0] =>
      destruct (EnhancedFacts.addMessage_spec clock m e0)
        as (i & ts & n' & Heq & _)
  end.
  rewrite Heq. cbn. rewrite set_nth_last.
  eexists _, _. split; [reflexivity|]. split; reflexivity.
Qed.

(** X8: a prompt is submitted once.  When the input is not blank, the
    component is idle and a project is selected, [handleSubmit] appends
    the trimmed input as a [user] message, clears the input and turns the
    component to generating; a second submit that follows, whatever the
    project, returns at once: it leaves the page as it is and its call
    never reaches [fetch]. *)
Theorem second_submit_is_ignored (w : world) (project : string)
    (q : option string) :
  trim (input (page w)) <> "" ->
  isGenerating (page w) = false ->
  let w1 := step w (Submit (Some project)) in
  let w2 := step w1 (Submit q) in
  (exists u,
     messages (page w1) = (messages (page w) ++ [u])%list /\
     Msg.type u = type_user /\
     Msg.content u = str (trim (input (page w))) /\
     input (page w1) = "" /\
     isGenerating (page w1) = true /\
     calls w1 = (calls w ++ [Call Fetching None []])%list) /\
  page w2 = page w1 /\
  calls w2 = (calls w1 ++ [Call Returned None []])%list.
Proof.
  intros Hinput Hidle w1 w2.
  assert (H1 : exists u n,
             w1 = World (Component (messages (page w) ++ [u]) "" true
                                   (toolExecutions (page w)))
                        (calls w ++ [Call Fetching None []]) n /\
             Msg.type u = type_user /\
             Msg.content u = str (trim (input (page w))))
    by (apply submit_accepted; assumption).
  destruct H1 as (u & n & Hw1 & Hty & Hc).
  assert (H2 : w2 = World (page w1) (calls w1 ++ [Call Returned None []])
                          (readings w1)).
  { subst w2. apply submit_refused. rewrite Hw1. cbn.
    rewrite orb_true_r. reflexivity. }
  rewrite H2. cbn [page calls]. rewrite Hw1. cbn [page calls messages input
    isGenerating].
  split; [|split; reflexivity].
  exists u. repeat split; assumption.
Qed.

End Facts.

(** The prompt of the fixture, submitted twice. *)
Lemma second_submit_is_ignored_witness :
  let w := Enhanced.step Fixture.clock Fixture.parse Fixture.trim
             Enhanced.initial (TypeInput " list the files ") in
  let w1 := Enhanced.step Fixture.clock Fixture.parse Fixture.trim w
              (Submit (Some "/home/pa")) in
  let w2 := Enhanced.step Fixture.clock Fixture.parse Fixture.trim w1
              (Submit (Some "/home/pa")) in
  page w2 = page w1.
Proof.
  refine (proj1 (proj2 (second_submit_is_ignored Fixture.clock Fixture.parse
                          Fixture.trim
                          (Enhanced.step Fixture.clock Fixture.parse Fixture.trim
                             Enhanced.initial (TypeInput " list the files "))
                          "/home/pa" (Some "/home/pa") _ _))).
  - vm_compute. discriminate.
  - reflexivity.
Defined.

End Submitting.

(* ===================================================================== *)
(** ** The server of index.js and the enhanced component, end to end      *)
(* ===================================================================== *)

Module EndToEnd.
Import Enhanced Spec Wire.

(** *** What the server never writes *)

Lemma plain_on_chunk (sessionId : string) (chunk : json)
    (p p' : Server.progress) :
  forallb plain (Server.written (Server.res p)) = true ->
  Server.on_chunk sessionId chunk p = Normal p' ->
  forallb plain (Server.written (Server.res p')) = true.
Proof.
  intros Hp. unfold Server.on_chunk.
  destruct (get (Some chunk) "type") as [ty|err] eqn:Hget; [|discriminate].
  apply Turn.get_value in Hget. subst ty.
  assert (Hw : forall payload,
             no_assistant_envelope payload = true ->
             forallb plain
               (Server.written (Server.write (Server.Data payload) (Server.res p)))
             = true).
  { intros payload H. cbn. rewrite forallb_app, Hp. cbn. rewrite H. reflexivity. }
  destruct (_ && _)%bool.
  { intros [= <-]. apply Hw. reflexivity. }
  destruct (is_str (field chunk "type") "assistant") eqn:Hassistant.
  { destruct (get (field chunk "message") "content") as [content|err];
      [|discriminate].
    destruct (_ && _)%bool; intros [= <-]; [apply Hw; reflexivity | exact Hp]. }
  destruct (is_str (field chunk "type") "result").
  { intros [= <-]. apply Hw. reflexivity. }
  destruct (is_str (field chunk "type") "text").
  { intros [= <-]. apply Hw. reflexivity. }
  destruct (is_str (field chunk "type") "tool_use").
  { intros [= <-]. apply Hw. reflexivity. }
  destruct (is_str (field chunk "type") "tool_result").
  { intros [= <-]. apply Hw. reflexivity. }
  intros [= <-]. apply Hw. unfold no_assistant_envelope. cbn.
  rewrite EnhancedFacts.get_opt_field, Hassistant. reflexivity.
Qed.

Lemma plain_iterate (sessionId : string) (cs : list json)
    (fail : option js_error) (p : Server.progress) :
  forallb plain (Server.written (Server.res p)) = true ->
  forallb plain
    (Server.written (Server.res (fst (Server.iterate sessionId cs fail p))))
  = true.
Proof.
  revert p. induction cs as [|c cs IH]; intros p Hp; cbn; [exact Hp|].
  destruct (Server.on_chunk sessionId c p) as [p'|err] eqn:E; [|exact Hp].
  apply IH. eapply plain_on_chunk; eassumption.
Qed.

Lemma plain_api_chat (message : jsval) (sessionId : string)
    (b : Server.backend) :
  forallb plain (Server.written (Server.api_chat message sessionId b)) = true.
Proof.
  unfold Server.api_chat. destruct (negb (truthy message)); [reflexivity|].
  assert (H : forallb plain
                (Server.written
                   (Server.res (fst (Server.attempt message sessionId b))))
              = true).
  { unfold Server.attempt. destruct (Server.message_substring message);
      [reflexivity|]. apply plain_iterate. reflexivity. }
  destruct (Server.attempt message sessionId b) as [p [err|]]; cbn in *;
    rewrite !forallb_app, H; reflexivity.
Qed.

Section Facts.
Variable clock : nat -> Z.
Variable JSON_parse : string -> option json.

Local Abbreviation on_line := (Enhanced.on_line clock JSON_parse).
Local Abbreviation handle_parsed := (Enhanced.handle_parsed clock).
Local Abbreviation decodes := (Spec.decodes JSON_parse).
Local Abbreviation transmits := (Wire.transmits JSON_parse).

(** *** No tool message without a recorded start *)

Section NoTools.
Variable shown : nat.

(** The call has recorded no invocation and the log shows [shown] tool
    messages. *)
Local Abbreviation bare :=
  (fun e : env =>
     currentToolExecutions (me e) = [] /\
     tools_shown (messages (ui e)) = shown).

Lemma bare_untouched {A : Type} (m : M A) :
  (forall e, messages (ui (exec m e)) = messages (ui e) /\
             currentToolExecutions (me (exec m e))
             = currentToolExecutions (me e)) ->
  keeps bare m.
Proof.
  intros H e [H1 H2]. destruct (H e) as [Hm Ht]. rewrite Hm, Ht.
  split; assumption.
Qed.

Lemma bare_addMessage (m : Msg.t) :
  Msg.type m <> type_tool_use -> Msg.type m <> type_tool_result ->
  keeps bare (Enhanced.addMessage clock m).
Proof.
  intros Hu Hr e [H1 H2]. unfold exec.
  destruct (EnhancedFacts.addMessage_spec clock m e) as (i & ts & n & Heq & _).
  rewrite Heq. cbn. split; [exact H1|].
  unfold tools_shown in *. rewrite filter_app, length_app, H2. cbn.
  destruct (Msg.type m); try contradiction; cbn; apply Nat.add_0_r.
Qed.

Lemma bare_update_content (cur : option Msg.t) (v : jsval) :
  keeps bare (setMessages (update_content cur v)).
Proof.
  intros e [H1 H2]. unfold exec. cbn. split; [exact H1|].
  rewrite <- H2. clear H2. unfold tools_shown, update_content.
  induction (messages (ui e)) as [|m log IH]; cbn; [reflexivity|].
  rewrite (proj1 (proj2 (EnhancedFacts.update_content_preserves cur v m))).
  destruct (_ || _)%bool; cbn; rewrite IH; reflexivity.
Qed.

Lemma bare_on_user_item (item : json) :
  keeps bare (Enhanced.on_user_item clock item).
Proof.
  intros e [H1 H2]. unfold exec, Enhanced.on_user_item. cbn.
  destruct (get (Some item) "type") as [ty|err]; cbn; [|split; assumption].
  destruct (_ && _)%bool; cbn; [|split; assumption].
  rewrite H1. cbn. split; assumption.
Qed.

Ltac bare :=
  repeat first
    [ apply EnhancedFacts.keeps_ret
    | apply EnhancedFacts.keeps_lift
    | apply EnhancedFacts.keeps_throw
    | apply bare_update_content
    | apply bare_on_user_item
    | apply bare_addMessage; cbn; discriminate
    | apply bare_untouched; intros ?; split; reflexivity
    | apply EnhancedFacts.keeps_bind; [|intros ?]
    | apply EnhancedFacts.keeps_try_catch; [|intros ?]
    | apply EnhancedFacts.keeps_if
    | apply EnhancedFacts.keeps_forEach; intros ?
    | match goal with
      | |- keeps _ (match ?x with _ => _ end) => destruct x
      end ].

Lemma bare_case_debug (parsed : json) :
  is_str (get_opt (field parsed "data") "type") "assistant" = false ->
  keeps bare (Enhanced.case_debug clock parsed).
Proof. intros H. unfold Enhanced.case_debug. rewrite H. cbn [andb]. bare. Qed.

Lemma bare_handle_parsed (parsed : json) :
  no_assistant_envelope parsed = true ->
  keeps bare (handle_parsed parsed).
Proof.
  intros Hplain e He. unfold exec, Enhanced.handle_parsed. cbn [bind lift].
  destruct (get (Some parsed) "type") as [ty|err] eqn:Hget; [|exact He].
  apply Turn.get_value in Hget. subst ty.
  revert e He.
  change (keeps bare
            (if is_str (field parsed "type") "init" then case_init clock parsed
             else if is_str (field parsed "type") "text"
                  then case_text clock parsed
             else if is_str (field parsed "type") "result"
                  then case_result clock parsed
             else if is_str (field parsed "type") "debug"
                  then case_debug clock parsed
             else if is_str (field parsed "type") "error"
                  then case_error clock parsed
             else ret tt)).
  unfold no_assistant_envelope in Hplain.
  destruct (is_str (field parsed "type") "debug") eqn:Hdebug.
  - cbn in Hplain. apply negb_true_iff in Hplain.
    repeat apply EnhancedFacts.keeps_if;
      try (apply bare_case_debug; exact Hplain);
      unfold Enhanced.case_init, Enhanced.case_text, Enhanced.case_result;
      bare.
  - unfold Enhanced.case_init, Enhanced.case_text, Enhanced.case_result,
      Enhanced.case_error.
    bare.
Qed.

Lemma bare_stream (lines : list string) (ws : list Server.record) :
  transmits lines ws -> forallb plain ws = true ->
  keeps bare (forEach on_line lines).
Proof.
  induction 1 as [|line r lines ws Hr _ IH]; cbn [forallb forEach]; intros Hp.
  - apply EnhancedFacts.keeps_ret.
  - apply andb_prop in Hp. destruct Hp as [Hp Hps].
    apply EnhancedFacts.keeps_bind; [|intros _; apply IH; exact Hps].
    intros e He. destruct r as [p|].
    + unfold exec.
      rewrite (EnhancedFacts.on_line_decodes clock JSON_parse line p e Hr).
      apply (EnhancedFacts.keeps_try_catch bare (handle_parsed p)
               (fun _ => ret tt));
        [apply bare_handle_parsed; exact Hp
        | intros err; apply EnhancedFacts.keeps_ret | exact He].
    + subst line. exact He.
Qed.

End NoTools.

(** X9: behind the server of index.js the component never shows a tool.
    Whatever the backend yields, once the stream that [POST /api/chat]
    writes has been read by a call that started with an empty table, the
    table is still empty and the log holds as many [tool_use] and
    [tool_result] messages as before: the server writes a [tool_use]
    block of an assistant message nowhere, and the results it forwards
    find no recorded start. *)
Theorem server_stream_shows_no_tools
    (message : jsval) (sessionId : string) (b : Server.backend)
    (lines : list string) (e : env) :
  transmits lines (Server.written (Server.api_chat message sessionId b)) ->
  currentToolExecutions (me e) = [] ->
  let e' := exec (forEach on_line lines) e in
  currentToolExecutions (me e') = [] /\
  tools_shown (messages (ui e')) = tools_shown (messages (ui e)).
Proof.
  intros Hwire Hempty.
  apply (bare_stream (tools_shown (messages (ui e))) lines _ Hwire
           (plain_api_chat message sessionId b) e).
  split; [exact Hempty | reflexivity].
Qed.

(** *** The text the user ends up with *)

Lemma last_text_shown (ws : list Server.record) :
  forall (lines : list string) (evs : list json) (p : json) (e : env),
  transmits lines ws ->
  showing e ->
  text_events ws = (evs ++ [p])%list ->
  shows (or_else (field p "fullText") (field p "text"))
        (exec (forEach on_line lines) e).
Proof.
  induction ws as [|r ws IH] using rev_ind; intros lines evs p e Hwire He Hevs.
  - destruct evs; discriminate.
  - apply Forall2_app_inv_r in Hwire.
    destruct Hwire as (lines0 & last & Hwire0 & Hlast & ->).
    inversion Hlast as [|line r' l1 l2 Hr Htail]; subst.
    inversion Htail; subst.
    rewrite Turn.exec_forEach_app.
    assert (Hcons : forall e1,
               exec (forEach on_line [line]) e1 = exec (on_line line) e1).
    { intros e1. rewrite Turn.exec_forEach_cons. reflexivity. }
    rewrite Hcons.
    rewrite ServerFacts.text_events_app in Hevs. cbn in Hevs.
    assert (Hother : no_text JSON_parse line = true ->
                     text_events ws = (evs ++ [p])%list ->
                     shows (or_else (field p "fullText") (field p "text"))
                       (exec (on_line line) (exec (forEach on_line lines0) e))).
    { intros Hno Hevs0.
      apply (Turn.other_on_line clock JSON_parse (shows _)
               (Turn.shows_same _) (Turn.shows_more _) line Hno).
      apply (IH lines0 evs p e Hwire0 He Hevs0). }
    destruct r as [q|].
    + destruct (is_str (field q "type") "text") eqn:Hty.
      * apply app_inj_tail in Hevs. destruct Hevs as [_ ->].
        rewrite (Turn.on_line_text clock JSON_parse line p _ Hr Hty).
        apply Turn.case_text_shows.
        apply (EnhancedFacts.keeps_forEach showing on_line lines0
                 (Turn.showing_on_line clock JSON_parse) e He).
      * rewrite app_nil_r in Hevs. apply Hother; [|exact Hevs].
        rewrite (Turn.no_text_decodes JSON_parse line q Hr), Hty. reflexivity.
    + rewrite app_nil_r in Hevs. subst line. apply Hother; [reflexivity|exact Hevs].
Qed.

Lemma full_response_shown
    (message : jsval) (sessionId : string) (b : Server.backend)
    (lines : list string) (e : env) :
  let written := Server.written (Server.api_chat message sessionId b) in
  transmits lines written ->
  currentAssistantMessage (me e) = None ->
  texts (text_events written) <> "" ->
  shows (str (texts (text_events written))) (exec (forEach on_line lines) e).
Proof.
  cbn zeta. intros Hwire Hnone Hfull.
  destruct (truthy message) eqn:Hm.
  2:{ exfalso. apply Hfull. unfold Server.api_chat. rewrite Hm. reflexivity. }
  pose proof (ServerFacts.api_chat_text_events message sessionId b Hm) as Hevs.
  destruct (ServerFacts.attempt_coherent message sessionId b) as [_ Hjoin].
  rewrite <- Hevs in Hjoin.
  destruct (text_events (Server.written (Server.api_chat message sessionId b)))
    as [|x xs] eqn:Hall; [contradiction Hfull; reflexivity|].
  destruct (@exists_last _ (x :: xs)) as (l & ev0 & Hsplit); [discriminate|].
  rewrite Hsplit in *. clear Hsplit x xs.
  assert (Hlast : field ev0 "fullText" = str (texts (l ++ [ev0]))).
  { rewrite (Hjoin (List.length l) ev0).
    - rewrite firstn_all2; [reflexivity|]. rewrite length_app. cbn. lia.
    - rewrite nth_error_app2 by lia. rewrite Nat.sub_diag. reflexivity. }
  pose proof (last_text_shown _ lines l ev0 e Hwire (or_introl Hnone) Hall)
    as Hshown.
  rewrite Hlast in Hshown. unfold or_else in Hshown. cbn in Hshown.
  destruct (String.eqb_spec (texts (l ++ [ev0])) ""); [contradiction|].
  exact Hshown.
Qed.

(** X10: what the user reads is what the backend said.  When a call that
    has no assistant message yet reads the stream [POST /api/chat] wrote,
    its assistant message ends up showing the join of all the texts the
    server sent, provided that join is not empty; this holds when the
    backend failed after some texts as well. *)
Theorem client_shows_the_full_response
    (message : jsval) (sessionId : string) (b : Server.backend)
    (lines : list string) (e : env) :
  let written := Server.written (Server.api_chat message sessionId b) in
  transmits lines written ->
  currentAssistantMessage (me e) = None ->
  texts (text_events written) <> "" ->
  shows (str (texts (text_events written))) (exec (forEach on_line lines) e).
Proof. apply full_response_shown. Qed.

(** *** How the stream ends *)

Lemma written_api_chat (message : jsval) (sessionId : string)
    (b : Server.backend) :
  truthy message = true ->
  Server.written (Server.api_chat message sessionId b)
  = (Server.written (Server.res (fst (Server.attempt message sessionId b)))
     ++ match snd (Server.attempt message sessionId b) with
        | Some err => [Server.Data (Server.error_event err)]
        | None => []
        end
     ++ [Server.Done])%list.
Proof.
  intros Hm. unfold Server.api_chat. rewrite Hm. cbn [negb].
  destruct (Server.attempt message sessionId b) as [p [err|]]; cbn;
    rewrite <- ?app_assoc; reflexivity.
Qed.

Lemma written_chat (projectPath message : jsval) (b : Server.backend) :
  truthy projectPath = true -> truthy message = true ->
  exists before,
    Server.written (Routes.chat projectPath message b)
    = (before ++ [Server.Done])%list.
Proof.
  intros Hp Hm. unfold Routes.chat. rewrite Hp, Hm. cbn [negb orb].
  destruct (Routes.identifyTask_raises message) as [err|]; cbn.
  - exists [Server.Data (Routes.error_event err)]. reflexivity.
  - eexists. reflexivity.
Qed.

Lemma ends_idle (lines : list string) (before : list Server.record) (e : env) :
  transmits lines (before ++ [Server.Done]) ->
  isGenerating (ui (exec (forEach on_line lines) e)) = false.
Proof.
  intros Hwire. apply Forall2_app_inv_r in Hwire.
  destruct Hwire as (lines0 & last & _ & Hlast & ->).
  inversion Hlast as [|line r l1 l2 Hr Htail]; subst. inversion Htail; subst.
  rewrite Turn.exec_forEach_app, Turn.exec_forEach_cons. reflexivity.
Qed.

(** X20: the component always stops generating.  Whatever the backend
    does, once the whole stream of a request the server accepted has been
    read, [isGenerating] is false; this holds behind [POST /api/chat] of
    index.js and behind [POST /chat] of routes/chat.ts. *)
Theorem stream_always_ends_generation
    (projectPath message : jsval) (sessionId : string) (b : Server.backend)
    (lines : list string) (e : env) :
  truthy message = true ->
  (transmits lines (Server.written (Server.api_chat message sessionId b)) ->
   isGenerating (ui (exec (forEach on_line lines) e)) = false) /\
  (truthy projectPath = true ->
   transmits lines (Server.written (Routes.chat projectPath message b)) ->
   isGenerating (ui (exec (forEach on_line lines) e)) = false).
Proof.
  intros Hm. split.
  - rewrite (written_api_chat message sessionId b Hm), app_assoc.
    apply ends_idle.
  - intros Hp. destruct (written_chat projectPath message b Hp Hm) as [ws ->].
    apply ends_idle.
Qed.

Lemma error_line (line : string) (err : js_error) (e1 : env) :
  decodes line (Server.error_event err) ->
  exists m n,
    on_line line e1
    = (Normal tt,
       Env (Component (messages (ui e1) ++ [m]) (Enhanced.input (ui e1)) false
                      (toolExecutions (ui e1)))
           (me e1) n) /\
    Msg.type m = type_result /\
    Msg.content m = str ("Error: " ++ JS.message err) /\
    Msg.success m = Some (JBool false) /\
    Msg.error m = str (JS.message err).
Proof.
  intros Hdec.
  rewrite (EnhancedFacts.on_line_decodes clock JSON_parse line _ e1 Hdec).
  change (Server.error_event err)
    with (JObj [("type", JStr "error"); ("error", JStr (JS.message err))]).
  unfold Enhanced.handle_parsed.
  rewrite EnhancedFacts.get_field by discriminate.
  cbn. unfold Enhanced.case_error. cbn.
  match goal with
  | |- context [Enhanced.addMessage clock ?m ?e0] =>
      destruct (EnhancedFacts.addMessage_spec clock m e0)
        as (i & ts & n & Heq & _)
  end.
  rewrite Heq. cbn. eexists _, _. split; [reflexivity|]. repeat split.
Qed.

(** X21: a failure of the turn is shown.  When the [try] block of
    [POST /api/chat] raised (the backend failed, or a chunk or the message
    made the handler raise), the component that reads the stream ends with
    a [result] message as the last of its log, whose content is [Error: ]
    followed by the message of the error, marked unsuccessful, and it is
    no longer generating. *)
Theorem backend_failure_is_shown
    (message : jsval) (sessionId : string) (b : Server.backend)
    (err : js_error) (lines : list string) (e : env) :
  truthy message = true ->
  snd (Server.attempt message sessionId b) = Some err ->
  transmits lines (Server.written (Server.api_chat message sessionId b)) ->
  let e' := exec (forEach on_line lines) e in
  isGenerating (ui e') = false /\
  exists before m,
    messages (ui e') = (before ++ [m])%list /\
    Msg.type m = type_result /\
    Msg.content m = str ("Error: " ++ JS.message err) /\
    Msg.success m = Some (JBool false) /\
    Msg.error m = str (JS.message err).
Proof.
  intros Hm Herr Hwire. cbn zeta.
  rewrite (written_api_chat message sessionId b Hm), Herr in Hwire.
  split.
  { revert Hwire. rewrite app_assoc. apply ends_idle. }
  apply Forall2_app_inv_r in Hwire.
  destruct Hwire as (lines0 & last & _ & Hlast & ->).
  inversion Hlast as [|le r l1 l2 Hle Htail]; subst.
  inversion Htail as [|ld r' l3 l4 Hld Hnil]; subst. inversion Hnil; subst.
  rewrite Turn.exec_forEach_app, !Turn.exec_forEach_cons.
  generalize (exec (forEach on_line lines0) e). intros e1.
  destruct (error_line le err e1 Hle) as (m & n & Heq & Hty & Hc & Hs & He).
  unfold exec at 3. rewrite Heq. cbn.
  exists (messages (ui e1)), m. repeat split; assumption.
Qed.

(** *** Behind the router variant *)

Lemma written_fold (chunks : list json) (r : Server.response) :
  Server.written
    (fold_left (fun r chunk => Server.write (Server.Data chunk) r) chunks r)
  = (Server.written r ++ map Server.Data chunks)%list.
Proof.
  revert r. induction chunks as [|c cs IH]; intros r; cbn.
  - rewrite app_nil_r. reflexivity.
  - rewrite IH. cbn. rewrite <- app_assoc. reflexivity.
Qed.

Lemma text_events_data (chunks : list json) :
  forallb (fun c => negb (is_str (field c "type") "text")) chunks = true ->
  text_events (map Server.Data chunks) = [].
Proof.
  induction chunks as [|c cs IH]; cbn; [reflexivity|]. intros H.
  apply andb_prop in H. destruct H as [Hc Hcs].
  destruct (is_str (field c "type") "text"); [discriminate|]. apply IH, Hcs.
Qed.

(** X22: behind [POST /chat] of routes/chat.ts, which forwards the chunks
    of the backend as they are, the component shows the last text chunk
    only: a [text] chunk without [fullText] replaces what was shown, so
    after the stream the assistant message shows the text of the last
    [text] chunk, not the texts joined. *)
Theorem router_stream_shows_the_last_chunk
    (projectPath message : jsval) (b : Server.backend)
    (before after : list json) (p : json) (lines : list string) (e : env) :
  truthy projectPath = true ->
  truthy message = true ->
  Routes.identifyTask_raises message = None ->
  Server.chunks b = (before ++ p :: after)%list ->
  is_str (field p "type") "text" = true ->
  field p "fullText" = None ->
  forallb (fun c => negb (is_str (field c "type") "text")) after = true ->
  transmits lines (Server.written (Routes.chat projectPath message b)) ->
  currentAssistantMessage (me e) = None ->
  shows (field p "text") (exec (forEach on_line lines) e).
Proof.
  intros Hp Hm Hraise Hchunks Hty Hfull Hafter Hwire Hnone.
  assert (Hshown := last_text_shown _ lines
                      (text_events (map Server.Data before)) p e Hwire
                      (or_introl Hnone)).
  rewrite Hfull in Hshown. apply Hshown. clear Hshown Hwire.
  unfold Routes.chat. rewrite Hp, Hm, Hraise. cbn [negb orb].
  cbn [Server.written Server.end_ Server.write].
  rewrite written_fold. cbn [Server.written Server.fresh app].
  rewrite ServerFacts.text_events_app. cbn [text_events]. rewrite app_nil_r.
  unfold Routes.streamChatResponse. rewrite Hchunks.
  assert (Hsplit : forall tail,
             forallb (fun c => negb (is_str (field c "type") "text")) tail = true ->
             text_events (map Server.Data ((before ++ p :: after) ++ tail))
             = (text_events (map Server.Data before) ++ [p])%list).
  { intros tail Htail. rewrite <- app_assoc. cbn [app].
    rewrite map_app, ServerFacts.text_events_app. cbn [map text_events].
    rewrite Hty.
    rewrite (text_events_data (after ++ tail)); [reflexivity|].
    rewrite forallb_app, Hafter, Htail. reflexivity. }
  destruct (Server.failure b) as [err|].
  - apply Hsplit. reflexivity.
  - rewrite <- (app_nil_r (before ++ p :: after)). apply Hsplit. reflexivity.
Qed.

End Facts.

Lemma tool_stream_transmitted :
  Wire.transmits Fixture.parse [Fixture.tool_result_t1; DONE]
    (Server.written
       (Server.api_chat (str "list the files") "s1" Fixture.tool_backend)).
Proof.
  repeat constructor.
  apply Claims.frame_decodes; [discriminate | vm_compute; reflexivity].
Qed.

(** A tool runs in the backend; the component shows nothing of it. *)
Lemma server_stream_shows_no_tools_witness :
  tools_shown
    (messages (ui (exec (forEach (Enhanced.on_line Fixture.clock Fixture.parse)
                           [Fixture.tool_result_t1; DONE])
                        Fixture.streaming_env)))
  = tools_shown (messages (ui Fixture.streaming_env)).
Proof.
  refine (proj2 (server_stream_shows_no_tools Fixture.clock Fixture.parse
                   (str "list the files") "s1" Fixture.tool_backend
                   [Fixture.tool_result_t1; DONE] Fixture.streaming_env
                   tool_stream_transmitted _)).
  reflexivity.
Defined.

Lemma answer_transmitted :
  Wire.transmits Fixture.parse [Fixture.text_Hel; Fixture.text_lo; DONE]
    (Server.written
       (Server.api_chat (str "say hello") "s1" Fixture.answering_backend)).
Proof.
  repeat constructor;
    (apply Claims.frame_decodes; [discriminate | vm_compute; reflexivity]).
Qed.

(** The backend answers [Hel], then [lo]; the component shows [Hello]. *)
Lemma client_shows_the_full_response_witness :
  shows (str "Hello")
    (exec (forEach (Enhanced.on_line Fixture.clock Fixture.parse)
             [Fixture.text_Hel; Fixture.text_lo; DONE])
          Fixture.streaming_env).
Proof.
  refine (client_shows_the_full_response Fixture.clock Fixture.parse
            (str "say hello") "s1" Fixture.answering_backend
            [Fixture.text_Hel; Fixture.text_lo; DONE] Fixture.streaming_env
            answer_transmitted _ _).
  - reflexivity.
  - vm_compute. discriminate.
Defined.

Lemma failing_stream_transmitted :
  Wire.transmits Fixture.parse
    [Fixture.text_Hel; Fixture.text_lo;
     Fixture.frame "{'type':'error','error':'socket hang up'}"; DONE]
    (Server.written
       (Server.api_chat (str "say hello") "s1" Fixture.failing_backend)).
Proof.
  repeat constructor;
    (apply Claims.frame_decodes; [discriminate | vm_compute; reflexivity]).
Qed.

Lemma stream_always_ends_generation_witness :
  isGenerating
    (ui (exec (forEach (Enhanced.on_line Fixture.clock Fixture.parse)
                 [Fixture.text_Hel; Fixture.text_lo; DONE])
              Fixture.streaming_env))
  = false.
Proof.
  refine (proj1 (stream_always_ends_generation Fixture.clock Fixture.parse
                   (str "/home/pa") (str "say hello") "s1"
                   Fixture.answering_backend
                   [Fixture.text_Hel; Fixture.text_lo; DONE]
                   Fixture.streaming_env _) answer_transmitted).
  reflexivity.
Defined.

(** The backend fails after two texts: the log ends with the error. *)
Lemma backend_failure_is_shown_witness :
  exists before m,
    messages
      (ui (exec (forEach (Enhanced.on_line Fixture.clock Fixture.parse)
                   [Fixture.text_Hel; Fixture.text_lo;
                    Fixture.frame "{'type':'error','error':'socket hang up'}";
                    DONE])
                Fixture.streaming_env))
    = (before ++ [m])%list /\
    Msg.content m = str "Error: socket hang up".
Proof.
  destruct (backend_failure_is_shown Fixture.clock Fixture.parse
              (str "say hello") "s1" Fixture.failing_backend
              (Error "socket hang up") _ Fixture.streaming_env
              eq_refl eq_refl failing_stream_transmitted)
    as (_ & before & m & Hlog & _ & Hcontent & _).
  exists before, m. split; [exact Hlog | exact Hcontent].
Defined.

Lemma router_stream_transmitted :
  Wire.transmits Fixture.parse
    [Fixture.delta_Hel; Fixture.delta_lo;
     Fixture.frame "{'type':'error','error':'socket hang up'}"; DONE]
    (Server.written
       (Routes.chat (str "/home/pa") (str "say hello")
                    Fixture.failing_text_backend)).
Proof.
  repeat constructor;
    (apply Claims.frame_decodes; [discriminate | vm_compute; reflexivity]).
Qed.

(** The backend says [Hel], then [lo]; behind the router the component
    shows [lo]. *)
Lemma router_stream_shows_the_last_chunk_witness :
  shows (str "lo")
    (exec (forEach (Enhanced.on_line Fixture.clock Fixture.parse)
             [Fixture.delta_Hel; Fixture.delta_lo;
              Fixture.frame "{'type':'error','error':'socket hang up'}"; DONE])
          Fixture.streaming_env).
Proof.
  refine (router_stream_shows_the_last_chunk Fixture.clock Fixture.parse
            (str "/home/pa") (str "say hello") Fixture.failing_text_backend
            [Fixture.text_chunk "Hel"] [] (Fixture.text_chunk "lo") _
            Fixture.streaming_env _ _ _ _ _ _ _
            router_stream_transmitted _);
    reflexivity.
Defined.

End EndToEnd.

(* ===================================================================== *)
(** ** The stream as the text-only component reads it                     *)
(* ===================================================================== *)

Module BasicStream.
Import Basic Spec.

Section Facts.
Variable JSON_parse : string -> option json.

Local Abbreviation on_line := (Basic.on_line JSON_parse).
Local Abbreviation on_lines := (Basic.on_lines JSON_parse).
Local Abbreviation delta_event := (Spec.delta_event JSON_parse).

Lemma on_line_delta (s : state) (line d a : string) :
  delta_event line d ->
  accumulatedText s = Val (str a) ->
  accumulatedText (on_line s line) = Val (str (a ++ d)) /\
  assistantMessageId (on_line s line) = assistantMessageId s /\
  (forall m, In m (messages (on_line s line)) ->
             id m = assistantMessageId s ->
             content m = Val (str (a ++ d))).
Proof.
  intros (parsed & (data & -> & Hd & Hp) & Hty & Hfull & Htext) Hacc.
  unfold Basic.on_line, data_line. cbn.
  destruct (String.eqb_spec data "[DONE]"); [contradiction|].
  unfold Basic.on_data. rewrite Hp.
  destruct parsed; try discriminate.
  rewrite Hty, Hfull, Htext, Hacc. cbn.
  repeat split. apply BasicFacts.set_content_content.
Qed.

(** X11: the text-only component accumulates deltas.  A run of [text]
    events that carry a delta and no truthy [fullText] leaves the
    accumulated text, and the content of every message with the
    placeholder id, equal to what was accumulated before followed by the
    deltas in order. *)
Theorem deltas_accumulate (lines deltas : list string) (s : state)
    (a : string) :
  Forall2 delta_event lines deltas ->
  accumulatedText s = Val (str a) ->
  let s' := on_lines s lines in
  accumulatedText s' = Val (str (a ++ glue deltas)) /\
  (deltas <> [] ->
   forall m, In m (messages s') -> id m = assistantMessageId s ->
             content m = Val (str (a ++ glue deltas))).
Proof.
  intros H. revert s a.
  induction H as [|line d lines deltas Hd Hrest IH]; intros s a Hacc; cbn zeta.
  - cbn. rewrite ServerFacts.append_nil_r. split; [exact Hacc|].
    intros Hne. contradiction.
  - destruct (on_line_delta s line d a Hd Hacc) as (H1 & H2 & H3).
    destruct (IH (on_line s line) (a ++ d) H1) as [H4 H5].
    unfold Basic.on_lines in *. cbn [fold_left glue].
    rewrite <- ServerFacts.append_assoc. split; [exact H4|].
    intros _ m Hin Hid.
    destruct deltas as [|d' deltas'].
    + inversion Hrest; subst. cbn in *.
      rewrite ServerFacts.append_nil_r. apply H3; assumption.
    + apply H5; [discriminate | exact Hin | congruence].
Qed.

Lemma same_but_content_refl (target : string) (log : list Message) :
  Forall2 (same_but_content target) log log.
Proof.
  induction log; constructor; [repeat split | assumption].
Qed.

Lemma same_but_content_set (target : string) (c : value)
    (log0 log : list Message) :
  Forall2 (same_but_content target) log0 log ->
  Forall2 (same_but_content target) log0 (set_content target c log).
Proof.
  induction 1 as [|m m' log0 log (Hid & Hrole & Hsame) _ IH]; cbn;
    constructor; [|exact IH].
  destruct (String.eqb_spec (id m') target) as [E|E].
  - repeat split; cbn; try assumption. intros Hne. congruence.
  - repeat split; assumption.
Qed.

Lemma on_line_rewrites (log0 : list Message) (s : state) (line : string) :
  Forall2 (same_but_content (assistantMessageId s)) log0 (messages s) ->
  Forall2 (same_but_content (assistantMessageId s)) log0
          (messages (on_line s line)).
Proof.
  intros H. unfold Basic.on_line, Basic.on_data.
  destruct (startsWith "data: " line); [|exact H].
  destruct (slice 6 line =? "[DONE]"); [exact H|].
  destruct (JSON_parse (slice 6 line)) as [parsed|]; [|exact H].
  destruct parsed; try exact H;
    repeat match goal with
           | |- context [if ?b then _ else _] => destruct b
           end; cbn; try exact H; apply same_but_content_set; exact H.
Qed.

Lemma on_lines_rewrite (lines : list string) :
  forall (log0 : list Message) (s : state),
  Forall2 (same_but_content (assistantMessageId s)) log0 (messages s) ->
  Forall2 (same_but_content (assistantMessageId s)) log0
          (messages (on_lines s lines)).
Proof.
  induction lines as [|l ls IH]; intros log0 s0 H0; [exact H0|].
  unfold Basic.on_lines in *. cbn [fold_left].
  rewrite <- (proj1 (BasicFacts.on_line_ids JSON_parse s0 l)).
  apply IH.
  rewrite (proj1 (BasicFacts.on_line_ids JSON_parse s0 l)).
  apply on_line_rewrites. exact H0.
Qed.

(** X12: the text-only component shows the stream in its placeholder
    and nowhere else.  Whatever lines it reads, the log keeps its length
    and order, every message keeps its id and role, and a message whose
    id is not the placeholder id stays exactly as it was: events of other
    types, tool events included, leave no trace. *)
Theorem stream_rewrites_only_the_placeholder (lines : list string) (s : state) :
  Forall2 (same_but_content (assistantMessageId s))
          (messages s) (messages (on_lines s lines)).
Proof. apply on_lines_rewrite. apply same_but_content_refl. Qed.

(** *** The prompt *)

Lemma string_of_Z_inj (a b : Z) : string_of_Z a = string_of_Z b -> a = b.
Proof.
  assert (Hnil : forall n, Z.to_int n <> Decimal.Pos Decimal.Nil /\
                           Z.to_int n <> Decimal.Neg Decimal.Nil).
  { intros n. split; intros H; pose proof (DecimalZ.of_to n) as Hn;
      rewrite H in Hn; cbn in Hn; subst n; discriminate. }
  unfold string_of_Z. intros H.
  pose proof (NilZero.isi (Z.to_int a) (proj1 (Hnil a)) (proj2 (Hnil a))) as Ha.
  pose proof (NilZero.isi (Z.to_int b) (proj1 (Hnil b)) (proj2 (Hnil b))) as Hb.
  rewrite H, Hb in Ha. injection Ha as Ha. symmetry.
  apply DecimalZ.to_int_inj. exact Ha.
Qed.

Lemma Forall2_nth {A B : Type} (R : A -> B -> Prop) (l : list A) (l' : list B)
    (n : nat) (x : A) :
  Forall2 R l l' -> nth_error l n = Some x ->
  exists y, nth_error l' n = Some y /\ R x y.
Proof.
  intros H. revert n. induction H as [|a b l l' Hab _ IH]; intros [|n] Hn;
    try discriminate.
  - injection Hn as <-. exists b. split; [reflexivity | exact Hab].
  - apply IH. exact Hn.
Qed.

(** X23: the stream never rewrites the prompt.  When [handleSubmit] of
    the text-only component accepts a prompt and the clock did not step
    back by exactly one millisecond between its two readings, the [user]
    message it appended is still in its place, unchanged, after any
    lines: the placeholder id differs from the id of the prompt. *)
Theorem prompt_is_never_rewritten (trim : string -> string)
    (currentProject : option string) (now1 now2 : Z) (s s0 : state)
    (lines : list string) :
  BasicSubmit.handleSubmit_begin trim currentProject now1 now2 s = Some s0 ->
  now1 <> (now2 + 1)%Z ->
  nth_error (messages (on_lines s0 lines)) (List.length (messages s))
  = Some (mkMessage (string_of_Z now1) role_user (Val (str (trim (input s))))) /\
  List.length (messages (on_lines s0 lines)) = 2 + List.length (messages s).
Proof.
  unfold BasicSubmit.handleSubmit_begin.
  destruct (_ || _ || _)%bool; [discriminate|]. intros [= <-] Hclock.
  match goal with
  | |- context [on_lines ?s1 lines] =>
      pose proof (on_lines_rewrite lines (messages s1) s1
                    (same_but_content_refl _ _)) as H
  end.
  cbn [messages assistantMessageId] in H. split.
  - destruct (Forall2_nth _ _ _ (List.length (messages s))
                (mkMessage (string_of_Z now1) role_user
                           (Val (str (trim (input s))))) H)
      as (y & Hy & _ & _ & Hsame).
    + rewrite <- app_assoc. rewrite nth_error_app2 by lia.
      rewrite Nat.sub_diag. reflexivity.
    + rewrite Hy. f_equal. apply Hsame. cbn [id].
      intros E. apply string_of_Z_inj in E. contradiction.
  - rewrite <- (Forall2_length H), !length_app. cbn. lia.
Qed.

(** *** Behind the server of index.js *)

Lemma on_line_follows (s : state) (line : string) (p : json) (evs0 : list json) :
  Spec.decodes JSON_parse line p ->
  accumulatedText s = Val (str (Wire.texts evs0)) ->
  (is_str (field p "type") "text" = true ->
   field p "fullText" = str (Wire.texts (evs0 ++ [p]))) ->
  accumulatedText (on_line s line)
  = Val (str (Wire.texts
                (evs0 ++ if is_str (field p "type") "text" then [p] else []))).
Proof.
  intros (d & -> & Hd & Hp) Hacc Hfull.
  unfold Basic.on_line, data_line. cbn.
  destruct (String.eqb_spec d "[DONE]"); [contradiction|].
  unfold Basic.on_data. rewrite Hp.
  destruct (is_str (field p "type") "text") eqn:Hty.
  - specialize (Hfull eq_refl).
    assert (Hnn : exists fields, p = JObj fields).
    { destruct p; try discriminate. eexists; reflexivity. }
    destruct Hnn as [fields ->]. cbn [accumulatedText]. rewrite Hfull.
    assert (Ht : forall x, truthy (str x) = negb (x =? "")) by reflexivity.
    rewrite Ht.
    destruct (String.eqb_spec (Wire.texts (evs0 ++ [JObj fields])) "") as [E|E];
      cbn [negb]; [|reflexivity].
    rewrite E, Hacc. rewrite ServerFacts.texts_app in E. cbn [Wire.texts] in E.
    rewrite ServerFacts.append_nil_r in E.
    assert (E0 : Wire.texts evs0 = "")
      by (destruct (Wire.texts evs0); [reflexivity | discriminate]).
    rewrite E0 in *. cbn in E. cbn. rewrite E. reflexivity.
  - rewrite app_nil_r.
    destruct p; try exact Hacc; rewrite ?Hty;
      try (destruct (is_str _ "error")); exact Hacc.
Qed.

Lemma stream_follows (ws : list Server.record) :
  forall (lines : list string) (s : state) (evs0 : list json),
  Wire.transmits JSON_parse lines ws ->
  accumulatedText s = Val (str (Wire.texts evs0)) ->
  (forall n ev,
     nth_error (Wire.text_events ws) n = Some ev ->
     field ev "fullText"
     = str (Wire.texts (evs0 ++ firstn (S n) (Wire.text_events ws)))) ->
  accumulatedText (on_lines s lines)
  = Val (str (Wire.texts (evs0 ++ Wire.text_events ws))).
Proof.
  induction ws as [|r ws IH]; intros lines s evs0 Hwire Hacc Hjoin.
  - inversion Hwire; subst. cbn. rewrite app_nil_r. exact Hacc.
  - inversion Hwire as [|line r' ls ws' Hr Hrest]; subst.
    unfold Basic.on_lines in *. cbn [fold_left].
    destruct r as [p|].
    + cbn [Wire.text_events] in *.
      pose proof (on_line_follows s line p evs0 Hr Hacc) as Hstep.
      destruct (is_str (field p "type") "text") eqn:Hty.
      * rewrite (IH ls (on_line s line) (evs0 ++ [p])%list Hrest).
        -- rewrite <- app_assoc. reflexivity.
        -- apply Hstep. intros _. apply (Hjoin 0 p). reflexivity.
        -- intros n ev Hn. rewrite <- app_assoc. cbn [app].
           apply (Hjoin (S n) ev). exact Hn.
      * rewrite app_nil_r in Hstep.
        apply (IH ls (on_line s line) evs0 Hrest); [|exact Hjoin].
        apply Hstep. discriminate.
    + cbn [Wire.text_events] in *. subst line.
      apply (IH ls _ evs0 Hrest); [exact Hacc | exact Hjoin].
Qed.

(** X25: the text-only component follows the server of index.js.  After
    the stream [POST /api/chat] wrote has been read, whatever the backend
    did, the text accumulated by a call that started with the empty
    string is the join of the texts of all [text] events sent. *)
Theorem accumulated_text_is_the_full_response
    (message : jsval) (sessionId : string) (b : Server.backend)
    (lines : list string) (s : state) :
  let written := Server.written (Server.api_chat message sessionId b) in
  Wire.transmits JSON_parse lines written ->
  accumulatedText s = Val (str "") ->
  accumulatedText (on_lines s lines)
  = Val (str (Wire.texts (Wire.text_events written))).
Proof.
  cbn zeta. intros Hwire Hacc.
  apply (stream_follows _ lines s [] Hwire Hacc).
  cbn [app]. intros n ev Hn.
  destruct (truthy message) eqn:Hm.
  - rewrite (ServerFacts.api_chat_text_events message sessionId b Hm) in *.
    destruct (ServerFacts.attempt_coherent message sessionId b) as [_ Hjoin].
    apply Hjoin. exact Hn.
  - unfold Server.api_chat in Hn. rewrite Hm in Hn. cbn in Hn.
    destruct n; discriminate.
Qed.

End Facts.

Lemma deltas_carried :
  Forall2 (Spec.delta_event Fixture.parse)
    [Fixture.delta_Hel; Fixture.delta_lo] ["Hel"; "lo"].
Proof.
  repeat constructor;
    (eexists; split;
     [apply Claims.frame_decodes; [discriminate | vm_compute; reflexivity]
     | repeat split]).
Qed.

(** The two deltas that the enhanced component shows as [lo] add up to
    [Hello] here. *)
Lemma deltas_accumulate_witness :
  accumulatedText
    (Basic.on_lines Fixture.parse
       (State [mkMessage "1" role_user (Val (str "hi"));
               mkMessage "2" role_assistant (Val (str ""))]
              "" true "2" (Val (str "")))
       [Fixture.delta_Hel; Fixture.delta_lo])
  = Val (str "Hello").
Proof.
  refine (proj1 (deltas_accumulate Fixture.parse
                   [Fixture.delta_Hel; Fixture.delta_lo] ["Hel"; "lo"]
                   (State [mkMessage "1" role_user (Val (str "hi"));
                           mkMessage "2" role_assistant (Val (str ""))]
                          "" true "2" (Val (str "")))
                   "" deltas_carried _)).
  reflexivity.
Defined.

(** A prompt is accepted and two deltas arrive; the prompt stays. *)
Lemma prompt_is_never_rewritten_witness :
  nth_error
    (messages
       (Basic.on_lines Fixture.parse
          (State [mkMessage "1700000000000" role_user (Val (str "hi"));
                  mkMessage "1700000000002" role_assistant (Val (str ""))]
                 "" true "1700000000002" (Val (str "")))
          [Fixture.delta_Hel; Fixture.delta_lo]))
    0
  = Some (mkMessage "1700000000000" role_user (Val (str "hi"))).
Proof.
  refine (proj1 (prompt_is_never_rewritten Fixture.parse Fixture.trim
                   (Some "/home/pa") 1700000000000 1700000000001
                   (State [] " hi " false "" (Val None)) _
                   [Fixture.delta_Hel; Fixture.delta_lo] _ _)).
  - reflexivity.
  - discriminate.
Defined.


Lemma accumulated_text_is_the_full_response_witness :
  accumulatedText
    (Basic.on_lines Fixture.parse
       (State [mkMessage "2" role_assistant (Val (str ""))] "" true "2"
              (Val (str "")))
       [Fixture.text_Hel; Fixture.text_lo; DONE])
  = Val (str "Hello").
Proof.
  refine (accumulated_text_is_the_full_response Fixture.parse
            (str "say hello") "s1" Fixture.answering_backend
            [Fixture.text_Hel; Fixture.text_lo; DONE]
            (State [mkMessage "2" role_assistant (Val (str ""))] "" true "2"
                   (Val (str "")))
            EndToEnd.answer_transmitted _).
  reflexivity.
Defined.

End BasicStream.

(* ===================================================================== *)
(** ** The session registry of the server                                 *)
(* ===================================================================== *)

Module SessionFacts.
Import Sessions Registry.

Lemma Map_get_set_found {V : Type} (m : Map V) (k : jsval) (v0 v : V) :
  Map_get m k = Some v0 -> Map_get (Map_set m k v) k = Some v.
Proof.
  induction m as [|[k' v'] m IH]; cbn; [discriminate|].
  destruct (same_key k' k) eqn:E; cbn; rewrite E; [reflexivity|exact IH].
Qed.

Lemma In_Map_set_value {V : Type} (m : Map V) (k : jsval) (v : V)
    (k' : jsval) (v' : V) :
  In (k', v') (Map_set m k v) -> In (k', v') m \/ v' = v.
Proof.
  induction m as [|[k0 v0] m IH]; cbn.
  - intros [[= <- <-]|[]]. right. reflexivity.
  - destruct (same_key k0 k); cbn.
    + intros [[= <- <-]|H]; [right; reflexivity | left; right; exact H].
    + intros [H|H]; [left; left; exact H|].
      destruct (IH H) as [H1|H1]; [left; right; exact H1 | right; exact H1].
Qed.

Lemma Map_set_twice {V : Type} (m : Map V) (k : string) (v0 v : V) :
  Map_set (Map_set m (str k) v0) (str k) v = Map_set m (str k) v.
Proof.
  induction m as [|[k' v'] m IH]; cbn.
  - rewrite String.eqb_refl. reflexivity.
  - destruct (same_key k' (str k)) eqn:E; cbn; rewrite E; [reflexivity|].
    rewrite IH. reflexivity.
Qed.

Lemma NoDup_app_apart {A : Type} (l1 l2 : list A) :
  NoDup (l1 ++ l2) -> forall a, In a l1 -> ~ In a l2.
Proof.
  induction l1 as [|x l1 IH]; cbn; intros Hnd a; [contradiction|].
  inversion Hnd as [|? ? Hx Hnd']; subst. intros [<-|Hin] H2.
  - apply Hx. apply in_or_app. right. exact H2.
  - exact (IH Hnd' a Hin H2).
Qed.

Lemma str_inj (a b : string) : a <> b -> str a <> str b.
Proof. unfold str. congruence. Qed.


Lemma is_str_false (v : jsval) (s : string) : is_str v s = false -> v <> str s.
Proof. intros H ->. cbn in H. rewrite String.eqb_refl in H. discriminate. Qed.

(** *** Where a session goes *)

(** [Map_set] on a key that is there changes the value in place; on a
    key that is not there it adds the binding at the end. *)
Lemma Map_set_split {V : Type} (m : Map V) (k : jsval) (v : V) :
  match Map_get m k with
  | Some v0 =>
      exists m1 k' m2,
        m = (m1 ++ (k', v0) :: m2)%list /\
        Map_set m k v = (m1 ++ (k', v) :: m2)%list
  | None => Map_set m k v = (m ++ [(k, v)])%list
  end.
Proof.
  induction m as [|[k0 v0] m IH]; cbn; [reflexivity|].
  destruct (same_key k0 k) eqn:E.
  - exists [], k0, m. split; reflexivity.
  - destruct (Map_get m k) as [v1|].
    + destruct IH as (m1 & k' & m2 & -> & ->).
      exists ((k0, v0) :: m1), k', m2. split; reflexivity.
    + rewrite IH. reflexivity.
Qed.

Section Facts.
Variable clock : nat -> Z.
Variable random : nat -> string.

Local Abbreviation createSession := (Sessions.createSession clock random).
Local Abbreviation addMessageToSession := (Sessions.addMessageToSession clock).
Local Abbreviation chat_session := (Sessions.chat_session clock random).
Local Abbreviation next_id := (Sessions.next_id clock random).
Local Abbreviation handle := (Sessions.handle clock random).
Local Abbreviation serve := (Sessions.serve clock random).

(** The project data [createSession] pushes the session to. *)
Lemma createSession_projects (p : string) (st : store) :
  let pd := match Map_get (projectSessions st) (str p) with
            | Some pd => pd
            | None => ProjectData [] None
            end in
  projectSessions (snd (createSession p st))
  = Map_set (projectSessions st) (str p)
      (ProjectData (sessions pd ++ [fst (createSession p st)])
                   (Some (next_id st))).
Proof.
  cbn zeta. unfold Sessions.createSession. cbn [fst snd projectSessions].
  unfold Map_has, Map_update.
  destruct (Map_get (projectSessions st) (str p)) as [pd|] eqn:Hget.
  - rewrite Hget. reflexivity.
  - rewrite EnhancedFacts.Map_get_set_same.
    apply Map_set_twice.
Qed.

Lemma created_session_is_listed_aux (p : string) (st : store) :
  getProjectSessions p (snd (createSession p st))
  = (getProjectSessions p st ++ [fst (createSession p st)])%list /\
  forall q, q <> p ->
    getProjectSessions q (snd (createSession p st)) = getProjectSessions q st.
Proof.
  split.
  - unfold getProjectSessions. rewrite createSession_projects.
    rewrite EnhancedFacts.Map_get_set_same. cbn [sessions].
    destruct (Map_get (projectSessions st) (str p)); reflexivity.
  - intros q Hq. unfold getProjectSessions. rewrite createSession_projects.
    rewrite EnhancedFacts.Map_get_set_other by (apply str_inj; congruence).
    reflexivity.
Qed.

(** X13: a session that was created is listed.  [createSession] adds the
    new session at the end of the sessions of its project, makes it the
    current session of that project, gives it an empty history with that
    project in its metadata, and leaves the sessions of every other
    project as they were. *)
Theorem created_session_is_listed (p : string) (st : store) :
  let s := fst (createSession p st) in
  let st' := snd (createSession p st) in
  getProjectSessions p st' = (getProjectSessions p st ++ [s])%list /\
  list_sessions p st'
  = (getProjectSessions p st ++ [s], Some (id s),
     S (List.length (getProjectSessions p st)))%list /\
  messageCount s = 0 /\
  get_history (id s) st' = Some (History [] p (createdAt s)) /\
  forall q, q <> p -> getProjectSessions q st' = getProjectSessions q st.
Proof.
  cbn zeta. destruct (created_session_is_listed_aux p st) as [Hp Hq].
  split; [exact Hp|]. split; [|split; [reflexivity|split]].
  - unfold list_sessions. rewrite Hp. f_equal; [f_equal|].
    + rewrite createSession_projects, EnhancedFacts.Map_get_set_same.
      reflexivity.
    + rewrite length_app. cbn. lia.
  - unfold get_history. cbn. apply EnhancedFacts.Map_get_set_same.
  - exact Hq.
Qed.

(** *** The sessions after a request *)

Lemma all_sessions_created (p : string) (st : store) :
  Permutation (all_sessions (snd (createSession p st)))
              (fst (createSession p st) :: all_sessions st).
Proof.
  unfold all_sessions. rewrite createSession_projects.
  generalize (fst (createSession p st)). intros s.
  pose proof (Map_set_split (projectSessions st) (str p)
                (ProjectData
                   (sessions match Map_get (projectSessions st) (str p) with
                             | Some pd => pd
                             | None => ProjectData [] None
                             end ++ [s])
                   (Some (next_id st)))) as H.
  destruct (Map_get (projectSessions st) (str p)) as [pd|].
  - destruct H as (m1 & k' & m2 & Hm & ->). rewrite Hm.
    rewrite !flat_map_app. cbn [flat_map snd sessions].
    rewrite <- !app_assoc. cbn [app].
    rewrite !app_assoc. apply Permutation_sym, Permutation_middle.
  - rewrite H. rewrite flat_map_app. cbn.
    apply Permutation_sym, Permutation_cons_append.
Qed.

Section Touch.
Variable sessionId : jsval.
Variable f : session -> session.
Hypothesis f_id : forall s, id (f s) = id s.

(** What the assignments of lines 135-136 do to a session. *)
Local Abbreviation upd :=
  (fun s : session => if is_str sessionId (id s) then f s else s).

Lemma upd_id (s : session) : id (upd s) = id s.
Proof. cbn. destruct (is_str sessionId (id s)); [apply f_id | reflexivity]. Qed.

Lemma map_upd_others (l : list session) :
  Forall (fun s => is_str sessionId (id s) = false) l -> map upd l = l.
Proof.
  induction 1 as [|s l Hs _ IH]; cbn; [reflexivity|]. rewrite Hs, IH.
  reflexivity.
Qed.

Lemma others_of (x : session) (l : list session) :
  is_str sessionId (id x) = true ->
  ~ In (id x) (map id l) ->
  Forall (fun s => is_str sessionId (id s) = false) l.
Proof.
  intros Hx Hnot. apply Forall_forall. intros s Hs.
  destruct (is_str sessionId (id s)) eqn:E; [|reflexivity].
  exfalso. apply Hnot. apply Turn.is_str_eq in Hx, E.
  rewrite Hx in E. injection E as E. rewrite E. apply in_map. exact Hs.
Qed.

Lemma touch_spec (ss : list session) :
  NoDup (map id ss) ->
  match touch sessionId f ss with
  | Some ss' =>
      ss' = map upd ss /\
      exists x, In x ss /\ is_str sessionId (id x) = true
  | None => Forall (fun s => is_str sessionId (id s) = false) ss
  end.
Proof.
  induction ss as [|s ss IH]; cbn; intros Hnd; [constructor|].
  inversion Hnd as [|? ? Hs Hnd']; subst.
  destruct (is_str sessionId (id s)) eqn:E.
  - split.
    + rewrite (map_upd_others ss (others_of s ss E Hs)). reflexivity.
    + exists s. split; [left; reflexivity | exact E].
  - specialize (IH Hnd'). destruct (touch sessionId f ss) as [ss'|].
    + destruct IH as (-> & x & Hx & Ex). split; [reflexivity|].
      exists x. split; [right; exact Hx | exact Ex].
    + constructor; assumption.
Qed.

Lemma touch_first_all (ps : Map projectData) :
  NoDup (map id (flat_map (fun p => sessions (snd p)) ps)) ->
  flat_map (fun p => sessions (snd p)) (touch_first sessionId f ps)
  = map upd (flat_map (fun p => sessions (snd p)) ps).
Proof.
  induction ps as [|[k pd] ps IH]; cbn; intros Hnd; [reflexivity|].
  rewrite map_app in Hnd.
  pose proof (NoDup_app_remove_r _ _ Hnd) as Hl.
  pose proof (NoDup_app_remove_l _ _ Hnd) as Hr.
  pose proof (touch_spec (sessions pd) Hl) as Ht.
  destruct (touch sessionId f (sessions pd)) as [ss'|]; cbn.
  - destruct Ht as (-> & x & Hx & Ex). rewrite map_app. f_equal.
    symmetry. apply map_upd_others. apply (others_of x); [exact Ex|].
    intros Hin.
    apply (NoDup_app_apart _ _ Hnd (id x)); [apply in_map; exact Hx | exact Hin].
  - rewrite map_app, (map_upd_others _ Ht), (IH Hr). reflexivity.
Qed.

Lemma touch_ids (ss : list session) :
  match touch sessionId f ss with
  | Some ss' => map id ss' = map id ss
  | None => True
  end.
Proof.
  induction ss as [|s ss IH]; cbn; [exact I|].
  destruct (is_str sessionId (id s)); cbn; [rewrite f_id; reflexivity|].
  destruct (touch sessionId f ss) as [ss'|]; cbn; [rewrite IH; reflexivity|exact I].
Qed.

Lemma touch_first_ids (ps : Map projectData) (k : jsval) :
  option_map (fun pd => map id (sessions pd))
             (Map_get (touch_first sessionId f ps) k)
  = option_map (fun pd => map id (sessions pd)) (Map_get ps k).
Proof.
  induction ps as [|[k0 pd] ps IH]; cbn; [reflexivity|].
  pose proof (touch_ids (sessions pd)) as Ht.
  destruct (touch sessionId f (sessions pd)) as [ss'|]; cbn.
  - destruct (same_key k0 k); cbn; [rewrite Ht|]; reflexivity.
  - destruct (same_key k0 k); [reflexivity | exact IH].
Qed.

End Touch.

Lemma added_sessions (sessionId : jsval) (message : entry) (st : store)
    (q : string) :
  map id (getProjectSessions q (addMessageToSession sessionId message st))
  = map id (getProjectSessions q st).
Proof.
  unfold Sessions.addMessageToSession, getProjectSessions.
  destruct (Map_get (conversationHistory st) sessionId) as [h|]; [|reflexivity].
  cbn [projectSessions].
  match goal with
  | |- context [touch_first sessionId ?f _] =>
      pose proof (touch_first_ids sessionId f (fun s => eq_refl)
                    (projectSessions st) (str q)) as H
  end.
  destruct (Map_get (touch_first _ _ _) (str q)) as [pd'|];
    destruct (Map_get (projectSessions st) (str q)) as [pd|]; cbn in H;
    try discriminate; [injection H as H; exact H | reflexivity].
Qed.

Lemma add_consistent (sessionId : jsval) (message : entry) (st : store) :
  consistent st -> consistent (addMessageToSession sessionId message st).
Proof.
  intros [Hnd Hall]. unfold Sessions.addMessageToSession.
  destruct (Map_get (conversationHistory st) sessionId) as [h|] eqn:Hget;
    [|split; assumption].
  unfold consistent, all_sessions in *. cbn [projectSessions conversationHistory].
  match goal with
  | |- context [touch_first sessionId ?f _] =>
      rewrite (touch_first_all sessionId f _ Hnd);
      set (g := f)
  end.
  split.
  - rewrite map_map.
    erewrite map_ext; [exact Hnd|]. intros s. cbn.
    destruct (is_str sessionId (id s)); reflexivity.
  - intros s' Hin. apply in_map_iff in Hin. destruct Hin as (s & <- & Hs).
    destruct (is_str sessionId (id s)) eqn:E.
    + eexists. split.
      * apply Turn.is_str_eq in E. subst g. cbn [id]. rewrite <- E.
        apply (Map_get_set_found _ _ h). exact Hget.
      * reflexivity.
    + destruct (Hall s Hs) as (h0 & Hh0 & Hc). exists h0. split; [|exact Hc].
      rewrite EnhancedFacts.Map_get_set_other; [exact Hh0|].
      apply is_str_false. exact E.
Qed.

Lemma create_consistent (p : string) (st : store) :
  consistent st ->
  Map_get (conversationHistory st) (str (next_id st)) = None ->
  consistent (snd (createSession p st)).
Proof.
  intros [Hnd Hall] Hfresh.
  pose proof (all_sessions_created p st) as Hperm.
  assert (Hnew : ~ In (next_id st) (map id (all_sessions st))).
  { intros Hin. apply in_map_iff in Hin. destruct Hin as (s & Hid & Hs).
    destruct (Hall s Hs) as (h & Hh & _). rewrite Hid in Hh. congruence. }
  split.
  - apply (Permutation_NoDup (Permutation_sym (Permutation_map id Hperm))).
    cbn [map]. constructor; assumption.
  - intros s Hs. apply (Permutation_in _ Hperm) in Hs.
    cbn [snd Sessions.createSession conversationHistory].
    destruct Hs as [<-|Hs].
    + eexists. split; [apply EnhancedFacts.Map_get_set_same | reflexivity].
    + destruct (Hall s Hs) as (h & Hh & Hc). exists h. split; [|exact Hc].
      rewrite EnhancedFacts.Map_get_set_other; [exact Hh|].
      apply str_inj. intros E. apply Hnew. rewrite E. apply in_map. exact Hs.
Qed.

Lemma handle_consistent (st : store) (r : request) :
  consistent st -> fresh clock random st r -> consistent (handle st r).
Proof.
  intros Hc Hf. destruct r as [p | p sid msg]; cbn [Sessions.handle].
  - apply create_consistent; [exact Hc | apply Hf; reflexivity].
  - destruct (truthy msg) eqn:Hm; cbn [negb]; [|exact Hc].
    unfold Sessions.chat_session. cbn [snd].
    unfold fresh, creates in Hf. rewrite Hm in Hf. cbn [andb] in Hf.
    destruct (negb (truthy sid) || negb (Map_has (conversationHistory st) sid))%bool;
      cbn [fst snd]; apply add_consistent; [|exact Hc].
    apply create_consistent; [exact Hc | apply Hf; reflexivity].
Qed.

(** X14: as long as the ids the server generates are new, the registry
    stays consistent over any sequence of requests: no two sessions share
    an id, every session has a history, and the [messageCount] of every
    session is the number of messages in its history. *)
Theorem counts_match_histories (rs : list request) :
  all_fresh clock random empty rs ->
  consistent (serve empty rs).
Proof.
  assert (H : forall st, consistent st -> all_fresh clock random st rs ->
                         consistent (serve st rs)).
  { induction rs as [|r rest IH]; intros st Hc Hf; [exact Hc|].
    destruct Hf as [Hr Hrest]. unfold Sessions.serve. cbn [fold_left].
    apply IH; [apply handle_consistent; assumption | exact Hrest]. }
  apply H. split; [constructor | intros s []].
Qed.

(** *** What the histories hold *)

Lemma add_only_user (sessionId : jsval) (content : jsval) (st : store) :
  only_user st ->
  only_user (addMessageToSession sessionId (Entry "user" content) st).
Proof.
  intros H. unfold Sessions.addMessageToSession.
  destruct (Map_get (conversationHistory st) sessionId) as [h|] eqn:Hget;
    [|exact H].
  intros k h' Hin. cbn [conversationHistory] in Hin.
  apply In_Map_set_value in Hin. destruct Hin as [Hin| ->]; [eapply H; exact Hin|].
  cbn [messages]. apply Forall_app. split.
  - apply (H sessionId h). apply EnhancedFacts.Map_get_In. exact Hget.
  - constructor; [reflexivity | constructor].
Qed.

Lemma create_only_user (p : string) (st : store) :
  only_user st -> only_user (snd (createSession p st)).
Proof.
  intros H k h Hin. cbn [snd Sessions.createSession conversationHistory] in Hin.
  apply In_Map_set_value in Hin. destruct Hin as [Hin| ->]; [eapply H; exact Hin|].
  constructor.
Qed.

(** X15: the histories hold the prompts only.  After any sequence of
    requests every message of every history is a [user] message: what
    the assistant answered is never recorded. *)
Theorem histories_hold_user_messages_only (rs : list request) :
  only_user (serve empty rs).
Proof.
  assert (H : forall st, only_user st -> only_user (serve st rs)).
  { induction rs as [|r rest IH]; intros st Hst; [exact Hst|].
    unfold Sessions.serve. cbn [fold_left]. apply IH.
    destruct r as [p | p sid msg]; cbn [Sessions.handle].
    - apply create_only_user. exact Hst.
    - destruct (negb (truthy msg)); [exact Hst|].
      unfold Sessions.chat_session. cbn [snd].
      destruct (negb (truthy sid) || negb (Map_has (conversationHistory st) sid))%bool;
        cbn [fst snd]; apply add_only_user; [|exact Hst].
      apply create_only_user. exact Hst. }
  apply H. intros k h [].
Qed.

(** X16: a chat request settles on a session.  With a truthy session id
    that has a history, the request is filed there: the id is kept, the
    message is appended to that history as a [user] message, and no
    project gets a session.  With any other session id (missing, falsy,
    unknown, not a string) a session is created for the project and the
    message is the only one of its history. *)
Theorem chat_request_settles_on_a_session
    (p : string) (sid message : jsval) (st : store) :
  let sid' := fst (chat_session p sid message st) in
  let st' := snd (chat_session p sid message st) in
  match Map_get (conversationHistory st) sid with
  | Some h =>
      truthy sid = true ->
      sid' = sid /\
      Map_get (conversationHistory st') sid
      = Some (History (messages h ++
                       [Stored (Entry "user" message) (clock (ticks st))])
                      (metadata_projectId h) (metadata_createdAt h)) /\
      forall q, map id (getProjectSessions q st')
                = map id (getProjectSessions q st)
  | None =>
      sid' = str (next_id st) /\
      get_history (next_id st) st'
      = Some (History [Stored (Entry "user" message) (clock (3 + ticks st))]
                      p (clock (1 + ticks st))) /\
      map id (getProjectSessions p st')
      = (map id (getProjectSessions p st) ++ [next_id st])%list
  end.
Proof.
  cbn zeta. unfold Sessions.chat_session, Map_has.
  destruct (Map_get (conversationHistory st) sid) as [h|] eqn:Hget.
  - intros Ht. rewrite Ht. cbn [negb orb fst snd].
    split; [reflexivity|]. split.
    + unfold Sessions.addMessageToSession. rewrite Hget.
      cbn [conversationHistory]. apply (Map_get_set_found _ _ h). exact Hget.
    + intros q. apply added_sessions.
  - rewrite orb_true_r. cbn [fst snd]. split; [reflexivity|]. split.
    + unfold get_history, Sessions.addMessageToSession.
      cbn [conversationHistory Sessions.createSession snd fst id].
      rewrite EnhancedFacts.Map_get_set_same.
      cbn [conversationHistory messages metadata_projectId metadata_createdAt
           ticks createdAt].
      rewrite (Map_get_set_found _ _ (History [] p (clock (1 + ticks st))))
        by apply EnhancedFacts.Map_get_set_same.
      reflexivity.
    + rewrite added_sessions.
      rewrite (proj1 (created_session_is_listed_aux p st)), map_app.
      reflexivity.
Qed.

End Facts.

Lemma counts_match_histories_witness :
  consistent (Sessions.serve Fixture.clock Fixture.random empty Fixture.requests).
Proof.
  apply (counts_match_histories Fixture.clock Fixture.random Fixture.requests).
  vm_compute. repeat split; intros H; first [reflexivity | discriminate H].
Defined.

(** A chat request under the id of an open session is filed there. *)
Lemma chat_request_settles_on_a_session_witness :
  fst (Sessions.chat_session Fixture.clock Fixture.random "pa"
         (str Fixture.first_session) (str "again")
         (Sessions.serve Fixture.clock Fixture.random empty
            [PostSession "pa"]))
  = str Fixture.first_session.
Proof.
  pose proof (chat_request_settles_on_a_session Fixture.clock Fixture.random
                "pa" (str Fixture.first_session) (str "again")
                (Sessions.serve Fixture.clock Fixture.random empty
                   [PostSession "pa"])) as H.
  cbn zeta in H.
  change (Map_get
            (conversationHistory
               (Sessions.serve Fixture.clock Fixture.random empty
                  [PostSession "pa"]))
            (str Fixture.first_session))
    with (Some (History [] "pa" 1700000000001%Z)) in H.
  exact (proj1 (H eq_refl)).
Defined.

End SessionFacts.

(* ===================================================================== *)
(** ** The agent service and the command router                           *)
(* ===================================================================== *)

Module ServiceFacts.
Import Server Routing.




Section Router.
Import CommandRouter.
Variable lower : string -> string.
Variable trim : string -> string.

Local Abbreviation identifyTask := (CommandRouter.identifyTask lower trim).
Local Abbreviation enhancedMessage := (CommandRouter.enhancedMessage lower trim).

Ltac by_trigger lowered :=
  unfold CommandRouter.enhancedMessage, CommandRouter.identifyTask,
    no_trigger, triggerCommands;
  cbn [first_trigger forallb fst];
  repeat match goal with
         | |- context [toLowerCase ?t] =>
             let t' := eval vm_compute in (toLowerCase t) in
             change (toLowerCase t) with t'
         end;
  repeat match goal with
         | |- context [includes ?t lowered] =>
             destruct (includes t lowered) eqn:?; cbn
         end.

(** X18: how a message is routed.  A message in which, lower-cased and
    trimmed, no trigger command occurs is general chat and reaches the
    agent unchanged; any other message is a task whose command is a
    trigger that occurs in it, with the agent the configuration gives
    that trigger. *)
Theorem message_without_trigger_is_passed_on (message : string) :
  if no_trigger (trim (lower message))
  then identifyTask message = mkTaskInfo general_chat None None None /\
       enhancedMessage message = message
  else type (identifyTask message) = pa_task /\
       exists trigger agent,
         command (identifyTask message) = Some trigger /\
         CommandRouter.agent (identifyTask message) = Some agent /\
         In (trigger, agent) triggerCommands /\
         includes trigger (trim (lower message)) = true.
Proof.
  by_trigger (trim (lower message));
    try (split; reflexivity);
    (split; [reflexivity|]; eexists _, _;
     split; [reflexivity|]; split; [reflexivity|]; split;
     [cbn; tauto | assumption]).
Qed.

(** X19: the task folder is known for the maintenance agent only.
    Whatever the message, [identifyTask] gives the folder
    [maintenance-tasks] when the agent is [pa-maintenance] and no folder
    for every other agent: the keys derived from the other agents name no
    entry of [taskFolders]. *)
Theorem task_folder_is_known_for_maintenance_only (message : string) :
  taskFolder (identifyTask message)
  = match agent (identifyTask message) with
    | Some name =>
        if name =? "pa-maintenance" then Some "maintenance-tasks" else None
    | None => None
    end.
Proof. by_trigger (trim (lower message)); reflexivity. Qed.

End Router.
End ServiceFacts.

(* ===================================================================== *)
(** ** Project discovery                                                  *)
(* ===================================================================== *)

Module ProjectFacts.
Import Projects Discovery.

Section Facts.
Variable slug : string -> string.
Variable join : string -> string -> string.

Local Abbreviation scan_entries := (Projects.scan_entries slug join).
Local Abbreviation scanDirectory := (Projects.scanDirectory slug join).
Local Abbreviation discoverProjects := (Projects.discoverProjects slug join).
Local Abbreviation sits := (Discovery.sits slug join).

Section Loop.
Variable deeper : string -> option (list entry) -> list project -> list project.
Variable Q : string -> option (list entry) -> project -> Prop.
Hypothesis deeper_sound :
  forall path sub ps p, In p (deeper path sub ps) -> In p ps \/ Q path sub p.

Lemma entries_sound (dirPath : string) (entries : list entry) :
  forall (ps : list project) (p : project),
  In p (scan_entries deeper dirPath entries ps) ->
  In p ps \/
  (exists name claudeMd claudeDir t listing,
     In (Directory name claudeMd claudeDir (Some t) listing) entries /\
     admissible name = true /\ orb claudeMd claudeDir = true /\
     p = Project (slug name) name (join dirPath name) true t) \/
  (exists name claudeMd claudeDir mtime listing,
     In (Directory name claudeMd claudeDir mtime listing) entries /\
     admissible name = true /\ Q (join dirPath name) listing p).
Proof.
  induction entries as [|e rest IH]; intros ps p Hin; cbn in Hin.
  - left. exact Hin.
  - assert (Hrest : forall ps',
               In p (scan_entries deeper dirPath rest ps') ->
               In p ps' \/
               (exists name claudeMd claudeDir t listing,
                  In (Directory name claudeMd claudeDir (Some t) listing)
                     (e :: rest) /\
                  admissible name = true /\ orb claudeMd claudeDir = true /\
                  p = Project (slug name) name (join dirPath name) true t) \/
               (exists name claudeMd claudeDir mtime listing,
                  In (Directory name claudeMd claudeDir mtime listing)
                     (e :: rest) /\
                  admissible name = true /\ Q (join dirPath name) listing p)).
    { intros ps' H. destruct (IH ps' p H) as [H1|[H1|H1]]; [left; exact H1| |].
      - right. left. destruct H1 as (n & a & b & t & l & Hl & H1).
        exists n, a, b, t, l. split; [right; exact Hl | exact H1].
      - right. right. destruct H1 as (n & a & b & t & l & Hl & H1).
        exists n, a, b, t, l. split; [right; exact Hl | exact H1]. }
    destruct e as [fname | name claudeMd claudeDir mtime listing];
      [apply Hrest; exact Hin|].
    destruct (admissible name) eqn:Hadm; [|apply Hrest; exact Hin].
    destruct (claudeMd || claudeDir)%bool eqn:Hcfg.
    + destruct mtime as [t|]; [|left; exact Hin].
      destruct (Hrest _ Hin) as [H1|H1]; [|right; exact H1].
      destruct (deeper_sound _ _ _ _ H1) as [H2|H2].
      * apply in_app_or in H2. destruct H2 as [H2|[<-|[]]]; [left; exact H2|].
        right. left. exists name, claudeMd, claudeDir, t, listing.
        repeat split; try assumption. left. reflexivity.
      * right. right. exists name, claudeMd, claudeDir, (Some t), listing.
        repeat split; try assumption. left. reflexivity.
    + destruct (Hrest _ Hin) as [H1|H1]; [|right; exact H1].
      destruct (deeper_sound _ _ _ _ H1) as [H2|H2]; [left; exact H2|].
      right. right. exists name, claudeMd, claudeDir, mtime, listing.
      repeat split; try assumption. left. reflexivity.
Qed.

End Loop.

Lemma scan_sound (levels : nat) :
  forall (dirPath : string) (listing : option (list entry))
         (ps : list project) (p : project),
  In p (scanDirectory levels dirPath listing ps) ->
  In p ps \/ exists k, 1 <= k <= levels /\ sits k dirPath listing p.
Proof.
  induction levels as [|levels IH]; intros dirPath listing ps p Hin; cbn in Hin.
  - left. exact Hin.
  - destruct listing as [entries|]; [|left; exact Hin].
    destruct (entries_sound (scanDirectory levels)
                (fun path sub q => exists k, 1 <= k <= levels /\ sits k path sub q)
                IH dirPath entries ps p Hin)
      as [H|[(n & a & b & t & l & Hl & Hadm & Hcfg & ->)
            |(n & a & b & t & l & Hl & Hadm & k & Hk & Hs)]].
    + left. exact H.
    + right. exists 1. split; [lia|]. eapply sits_here; eassumption.
    + right. exists (S k). split; [lia|]. eapply sits_below; eassumption.
Qed.

(** X26: what project discovery returns.  Every project of the list is
    the main project added by default, or the project of a directory at
    most three levels below the root that has Claude configuration, whose
    name and the names of all directories above it start neither with a
    dot nor with [node_modules]; and the list always holds a project
    named [Personal Assistant], so it is never empty, also when the root
    cannot be read. *)
Theorem discovered_projects_are_configured_directories
    (rootPath : string) (root : option (list entry)) (now : Z) :
  (forall p,
     In p (discoverProjects rootPath root now) ->
     p = main_project rootPath now \/
     exists k, 1 <= k <= 3 /\ sits k rootPath root p) /\
  (exists p,
     In p (discoverProjects rootPath root now) /\
     name p = "Personal Assistant") /\
  discoverProjects rootPath None now = [main_project rootPath now].
Proof.
  unfold Projects.discoverProjects. split; [|split; [|reflexivity]].
  - intros p Hin.
    assert (Hscan : In p (scanDirectory 3 rootPath root []) ->
                    exists k, 1 <= k <= 3 /\ sits k rootPath root p).
    { intros H. destruct (scan_sound 3 rootPath root [] p H) as [[]|H1].
      exact H1. }
    destruct (existsb _ _); [right; apply Hscan; exact Hin|].
    destruct Hin as [<-|Hin]; [left; reflexivity | right; apply Hscan; exact Hin].
  - destruct (existsb _ _) eqn:E.
    + apply existsb_exists in E. destruct E as (p & Hin & Hname).
      exists p. split; [exact Hin|]. apply String.eqb_eq. exact Hname.
    + eexists. split; [left; reflexivity | reflexivity].
Qed.

(** *** Nothing is missed *)

Section Complete.
Variable deeper : string -> option (list entry) -> list project -> list project.
Hypothesis deeper_mono :
  forall path sub ps q, In q ps -> In q (deeper path sub ps).

Lemma entries_mono (dirPath : string) (entries : list entry) :
  forall (ps : list project) (q : project),
  In q ps -> In q (scan_entries deeper dirPath entries ps).
Proof.
  induction entries as [|e rest IH]; intros ps q Hq; cbn; [exact Hq|].
  destruct e as [fname | name claudeMd claudeDir mtime listing];
    [apply IH; exact Hq|].
  destruct (admissible name); [|apply IH; exact Hq].
  destruct (claudeMd || claudeDir)%bool.
  - destruct mtime as [t|]; [|exact Hq].
    apply IH, deeper_mono. apply in_or_app. left. exact Hq.
  - apply IH, deeper_mono. exact Hq.
Qed.

Lemma entries_complete (dirPath : string) (entries : list entry)
    (name : string) (claudeMd claudeDir : bool) (mtime : option Z)
    (listing : option (list entry)) (p : project) :
  forallb calm entries = true ->
  In (Directory name claudeMd claudeDir mtime listing) entries ->
  admissible name = true ->
  (forall ps, In p (deeper (join dirPath name) listing ps)) \/
  (orb claudeMd claudeDir = true /\
   exists t, mtime = Some t /\
             p = Project (slug name) name (join dirPath name) true t) ->
  forall ps, In p (scan_entries deeper dirPath entries ps).
Proof.
  intros Hcalm Hin Hadm Hp.
  induction entries as [|e rest IH]; intros ps; [contradiction|].
  cbn [forallb] in Hcalm. apply andb_prop in Hcalm.
  destruct Hcalm as [He Hrest].
  destruct Hin as [->|Hin].
  - cbn. rewrite Hadm. destruct Hp as [Hp|(Hcfg & t & -> & ->)].
    + destruct (claudeMd || claudeDir)%bool eqn:Hcfg.
      * cbn in He. rewrite Hcfg in He. cbn in He.
        destruct mtime as [t|]; [|discriminate].
        apply entries_mono, Hp.
      * apply entries_mono, Hp.
    + rewrite Hcfg. apply entries_mono, deeper_mono.
      apply in_or_app. right. left. reflexivity.
  - cbn. destruct e as [fname | n a b mt l]; [apply IH; assumption|].
    destruct (admissible n); [|apply IH; assumption].
    destruct (a || b)%bool eqn:Hcfg.
    + cbn in He. rewrite Hcfg in He. cbn in He.
      destruct mt as [t|]; [|discriminate]. apply IH; assumption.
    + apply IH; assumption.
Qed.

End Complete.

Lemma scan_mono (levels : nat) :
  forall (dirPath : string) (listing : option (list entry))
         (ps : list project) (q : project),
  In q ps -> In q (scanDirectory levels dirPath listing ps).
Proof.
  induction levels as [|levels IH]; intros dirPath listing ps q Hq; cbn;
    [exact Hq|].
  destruct listing as [entries|]; [|exact Hq].
  apply entries_mono; [exact IH | exact Hq].
Qed.

Lemma calm_below (entries : list entry) (name : string)
    (claudeMd claudeDir : bool) (mtime : option Z)
    (listing : option (list entry)) :
  forallb calm entries = true ->
  In (Directory name claudeMd claudeDir mtime listing) entries ->
  calm_listing listing = true.
Proof.
  intros Hcalm Hin.
  pose proof (proj1 (forallb_forall _ _) Hcalm _ Hin) as H. cbn in H.
  apply andb_prop in H. exact (proj2 H).
Qed.

Lemma scan_complete (k : nat) (dirPath : string)
    (listing : option (list entry)) (p : project) :
  sits k dirPath listing p ->
  calm_listing listing = true ->
  forall levels ps, k <= levels ->
  In p (scanDirectory levels dirPath listing ps).
Proof.
  induction 1 as [dirPath entries name claudeMd claudeDir t listing Hin Hadm Hcfg
                 |k dirPath entries name claudeMd claudeDir mtime listing p
                    Hin Hadm Hs IH];
    intros Hcalm levels ps Hk;
    (destruct levels as [|levels]; [lia|]); cbn [Projects.scanDirectory].
  - apply (entries_complete (scanDirectory levels) (scan_mono levels)
             dirPath entries name claudeMd claudeDir (Some t) listing _
             Hcalm Hin Hadm).
    right. split; [exact Hcfg|]. exists t. split; reflexivity.
  - apply (entries_complete (scanDirectory levels) (scan_mono levels)
             dirPath entries name claudeMd claudeDir mtime listing _
             Hcalm Hin Hadm).
    left. intros ps'. apply IH; [|lia].
    exact (calm_below entries _ _ _ _ _ Hcalm Hin).
Qed.

(** X27: nothing within reach is missed.  When [fs.statSync] raises on
    no configured directory, every directory at most three levels below
    the root that has Claude configuration, and whose name and the names
    of the directories above it are admissible, is in the list project
    discovery returns. *)
Theorem configured_directories_are_discovered
    (rootPath : string) (root : option (list entry)) (now : Z)
    (k : nat) (p : project) :
  calm_listing root = true ->
  sits k rootPath root p ->
  k <= 3 ->
  In p (discoverProjects rootPath root now).
Proof.
  intros Hcalm Hs Hk. unfold Projects.discoverProjects.
  pose proof (scan_complete k rootPath root p Hs Hcalm 3 [] Hk) as Hin.
  destruct (existsb _ _); [exact Hin | right; exact Hin].
Qed.

End Facts.

(** The project under [work] is found, two levels below the root. *)
Lemma discovered_projects_are_configured_directories_witness :
  Fixture.notes_project = main_project "/home/pa" 9%Z \/
  exists k, 1 <= k <= 3 /\
    Discovery.sits toLowerCase Fixture.join_path k "/home/pa"
      (Some Fixture.root_entries) Fixture.notes_project.
Proof.
  apply (proj1 (discovered_projects_are_configured_directories
                  toLowerCase Fixture.join_path "/home/pa"
                  (Some Fixture.root_entries) 9%Z)).
  vm_compute. right. left. reflexivity.
Defined.

Lemma notes_sits :
  Discovery.sits toLowerCase Fixture.join_path 2 "/home/pa"
    (Some Fixture.root_entries) Fixture.notes_project.
Proof.
  eapply sits_below with (name := "work");
    [right; right; left; reflexivity | reflexivity |].
  apply (sits_here toLowerCase Fixture.join_path "/home/pa/work" _ "Notes"
           true false 7%Z (Some []));
    [left; reflexivity | reflexivity | reflexivity].
Qed.

Lemma configured_directories_are_discovered_witness :
  In Fixture.notes_project
     (Projects.discoverProjects toLowerCase Fixture.join_path "/home/pa"
        (Some Fixture.root_entries) 9%Z).
Proof.
  apply (configured_directories_are_discovered toLowerCase Fixture.join_path
           "/home/pa" (Some Fixture.root_entries) 9%Z 2 Fixture.notes_project).
  - reflexivity.
  - exact notes_sits.
  - lia.
Defined.

End ProjectFacts.

(* ===================================================================== *)
(** ** A whole turn                                                       *)
(* ===================================================================== *)

Module WholeTurn.
Import Enhanced Spec Wire.

Section Facts.
Variable clock : nat -> Z.
Variable JSON_parse : string -> option json.
Variable trim : string -> string.

Local Abbreviation on_line := (Enhanced.on_line clock JSON_parse).
Local Abbreviation handle_parsed := (Enhanced.handle_parsed clock).
Local Abbreviation step := (Enhanced.step clock JSON_parse trim).
Local Abbreviation run := (Enhanced.run clock JSON_parse trim).
Local Abbreviation transmits := (Wire.transmits JSON_parse).

(** *** Reading does not change where the call stands *)

Section Phase.
Variable ph : phase.

Local Abbreviation stands := (fun e : env => phase_of (me e) = ph).

Lemma stands_untouched {A : Type} (m : M A) :
  (forall e, phase_of (me (exec m e)) = phase_of (me e)) -> keeps stands m.
Proof. intros H e He. cbn. rewrite H. exact He. Qed.

Lemma stands_addMessage (m : Msg.t) : keeps stands (Enhanced.addMessage clock m).
Proof.
  apply stands_untouched. intros e. unfold exec.
  destruct (EnhancedFacts.addMessage_spec clock m e) as (i & ts & n & Heq & _).
  rewrite Heq. reflexivity.
Qed.

Lemma stands_handle_parsed (parsed : json) : keeps stands (handle_parsed parsed).
Proof.
  unfold Enhanced.handle_parsed, Enhanced.case_init, Enhanced.case_text,
    Enhanced.case_result, Enhanced.case_debug, Enhanced.case_error,
    Enhanced.on_assistant_item, Enhanced.on_user_item.
  repeat first
    [ apply EnhancedFacts.keeps_ret
    | apply EnhancedFacts.keeps_lift
    | apply stands_addMessage
    | apply stands_untouched; intros ?; reflexivity
    | apply EnhancedFacts.keeps_bind; [|intros ?]
    | apply EnhancedFacts.keeps_try_catch; [|intros ?]
    | apply EnhancedFacts.keeps_if
    | apply EnhancedFacts.keeps_forEach; intros ?
    | match goal with
      | |- keeps _ (match ?x with _ => _ end) => destruct x
      end ].
Qed.

Lemma stands_lines (lines : list string) : keeps stands (forEach on_line lines).
Proof.
  apply EnhancedFacts.keeps_forEach. intros line e He.
  destruct (Turn.on_line_cases clock JSON_parse line e)
    as [-> | [-> | (parsed & _ & ->)]]; [exact He | exact He |].
  apply stands_handle_parsed. exact He.
Qed.

End Phase.

(** *** The steps of a turn *)

Lemma fetch_answered (pg : component) (pre : list call) (n : nat) :
  step (World pg (pre ++ [Call Fetching None []]) n)
       (FetchSettled (List.length pre) (fetch_response true 200 true))
  = World pg (pre ++ [Call Reading None []]) n.
Proof.
  cbn [Enhanced.step]. unfold run_call. cbn [calls page readings].
  rewrite Submitting.nth_error_last. cbn.
  rewrite Submitting.set_nth_last. destruct pg. reflexivity.
Qed.

Lemma chunk_read (pg : component) (pre : list call) (c : call) (n : nat)
    (lines : list string) :
  phase_of c = Reading ->
  Forall (fun line => no_newline line = true) lines ->
  step (World pg (pre ++ [c]) n) (ReadChunk (List.length pre) (records lines))
  = World (ui (exec (forEach on_line lines) (Env pg c n)))
          (pre ++ [me (exec (forEach on_line lines) (Env pg c n))])
          (ticks (exec (forEach on_line lines) (Env pg c n))).
Proof.
  intros Hph Hlines. cbn [Enhanced.step]. unfold run_call.
  cbn [calls page readings]. rewrite Submitting.nth_error_last.
  unfold when_in, on_read. cbn [bind read_phase]. cbn [me]. rewrite Hph.
  unfold try_catch.
  rewrite (Framing.records_as_lines clock JSON_parse lines _ Hlines).
  pose proof (EnhancedFacts.forEach_on_line_normal clock JSON_parse lines
                (Env pg c n)) as Hn.
  unfold exec.
  destruct (forEach on_line lines (Env pg c n)) as [[[]|err] e1];
    cbn in Hn; [|discriminate].
  cbn [snd]. rewrite Submitting.set_nth_last. reflexivity.
Qed.

Lemma chunks_read (groups : list (list string)) :
  forall (pg : component) (pre : list call) (c : call) (n : nat),
  phase_of c = Reading ->
  Forall (Forall (fun line => no_newline line = true)) groups ->
  run (World pg (pre ++ [c]) n)
      (map (fun g => ReadChunk (List.length pre) (records g)) groups)
  = World (ui (exec (forEach on_line (List.concat groups)) (Env pg c n)))
          (pre ++ [me (exec (forEach on_line (List.concat groups)) (Env pg c n))])
          (ticks (exec (forEach on_line (List.concat groups)) (Env pg c n))).
Proof.
  induction groups as [|g groups IH]; intros pg pre c n Hph Hgs.
  - reflexivity.
  - inversion Hgs as [|? ? Hg Hrest]; subst.
    unfold Enhanced.run in *. cbn [map fold_left List.concat].
    rewrite (chunk_read pg pre c n g Hph Hg).
    rewrite IH; [|apply (stands_lines Reading g (Env pg c n) Hph) | exact Hrest].
    rewrite Turn.exec_forEach_app.
    destruct (exec (forEach on_line g) (Env pg c n)) as [u m t]. reflexivity.
Qed.

Lemma read_done (pg : component) (pre : list call) (c : call) (n : nat) :
  phase_of c = Reading ->
  step (World pg (pre ++ [c]) n) (ReadDone (List.length pre))
  = World pg
          (pre ++ [Call Returned (currentAssistantMessage c)
                        (currentToolExecutions c)])
          n.
Proof.
  intros Hph. cbn [Enhanced.step]. unfold run_call.
  cbn [calls page readings]. rewrite Submitting.nth_error_last.
  unfold when_in. cbn [bind read_phase]. cbn [me]. rewrite Hph. cbn.
  rewrite Submitting.set_nth_last. destruct pg. reflexivity.
Qed.

(** X24: an undisturbed turn ends with the answer.  The user submits a
    prompt on an idle page, the server of index.js answers the request
    for the trimmed prompt, and the stream arrives in any number of
    chunks, each made of whole records, before the reader reports the
    end.  Then the component is idle again, the call has returned, and
    its assistant message shows the join of the texts the server sent
    (when that join is not empty). *)
Theorem undisturbed_turn_ends_with_the_answer
    (w : world) (project sessionId : string) (b : Server.backend)
    (groups : list (list string)) :
  let prompt := trim (input (page w)) in
  let written := Server.written (Server.api_chat (str prompt) sessionId b) in
  let i := List.length (calls w) in
  let w' :=
    run w (Submit (Some project)
           :: FetchSettled i (fetch_response true 200 true)
           :: map (fun g => ReadChunk i (records g)) groups
           ++ [ReadDone i]) in
  prompt <> "" ->
  isGenerating (page w) = false ->
  Forall (Forall (fun line => no_newline line = true)) groups ->
  transmits (List.concat groups) written ->
  texts (text_events written) <> "" ->
  isGenerating (page w') = false /\
  exists c,
    nth_error (calls w') i = Some c /\
    phase_of c = Returned /\
    shows (str (texts (text_events written))) (Env (page w') c (readings w')).
Proof.
  cbn zeta. intros Hprompt Hidle Hgroups Hwire Hfull.
  destruct (Submitting.submit_accepted clock JSON_parse trim w project
              Hprompt Hidle) as (u & n & Hsubmit & _ & _).
  unfold Enhanced.run. cbn [fold_left]. rewrite Hsubmit, fetch_answered.
  rewrite fold_left_app. cbn [fold_left].
  pose proof (chunks_read groups
                (Component (messages (page w) ++ [u]) "" true
                           (toolExecutions (page w)))
                (calls w) (Call Reading None []) n eq_refl Hgroups) as Hread.
  unfold Enhanced.run in Hread. rewrite Hread. clear Hread.
  match goal with
  | |- context [exec (forEach on_line (List.concat groups)) ?e0] =>
      set (e1 := exec (forEach on_line (List.concat groups)) e0);
      assert (Hph : phase_of (me e1) = Reading)
        by (apply (stands_lines Reading (List.concat groups) e0); reflexivity);
      assert (Hend : isGenerating (ui e1) = false);
      [|assert (Hshown : shows
                  (str (texts (text_events
                     (Server.written
                        (Server.api_chat (str (trim (input (page w))))
                           sessionId b)))))
                  e1)
          by (apply (EndToEnd.full_response_shown clock JSON_parse _ _ _ _ e0
                       Hwire eq_refl Hfull))]
  end.
  { assert (Ht : truthy (str (trim (input (page w)))) = true).
    { cbn. destruct (String.eqb_spec (trim (input (page w))) "");
        [contradiction | reflexivity]. }
    revert Hwire.
    rewrite (EndToEnd.written_api_chat _ sessionId b Ht), app_assoc.
    apply EndToEnd.ends_idle. }
  rewrite (read_done _ _ _ _ Hph). cbn [page calls readings].
  split; [exact Hend|].
  eexists. split; [apply Submitting.nth_error_last|]. split; [reflexivity|].
  destruct Hshown as (c & Hc & Hpre & Hin & Hall).
  exists c. cbn. repeat split; assumption.
Qed.

End Facts.

(** The prompt of the fixture, answered in two chunks. *)
Lemma undisturbed_turn_ends_with_the_answer_witness :
  let w := Enhanced.step Fixture.clock Fixture.parse Fixture.trim
             Enhanced.initial (TypeInput " say hello ") in
  let w' :=
    Enhanced.run Fixture.clock Fixture.parse Fixture.trim w
      [Submit (Some "/home/pa");
       FetchSettled 0 (fetch_response true 200 true);
       ReadChunk 0 (records [Fixture.text_Hel]);
       ReadChunk 0 (records [Fixture.text_lo; DONE]);
       ReadDone 0] in
  isGenerating (page w') = false.
Proof.
  refine (proj1 (undisturbed_turn_ends_with_the_answer
                   Fixture.clock Fixture.parse Fixture.trim
                   (Enhanced.step Fixture.clock Fixture.parse Fixture.trim
                      Enhanced.initial (TypeInput " say hello "))
                   "/home/pa" "s1" Fixture.answering_backend
                   [[Fixture.text_Hel]; [Fixture.text_lo; DONE]]
                   _ _ _ _ _)).
  - vm_compute. discriminate.
  - reflexivity.
  - repeat constructor.
  - exact EndToEnd.answer_transmitted.
  - vm_compute. discriminate.
Defined.

End WholeTurn.
